(** * Conversation Session Engine of the RAG chat client

    A shallow embedding of the client's engine as it is written in
    [src/api/client.ts] (the [api] object), [src/App.vue] (the stand-alone
    chat page), [frontend/src/components/ChatInterface.vue] and
    [frontend/src/views/HomeView.vue], together with the properties of the
    engine that are checked against it.

    JavaScript strings are sequences of UTF-16 code units, values are
    untyped (the TypeScript annotations are erased at run time), an
    exception leaves the mutations made before it in place, and an [async]
    function runs up to its [await] and is resumed when the awaited request
    settles.  The embedding keeps all four. *)

From Stdlib Require Import ZArith NArith List Lia Bool String Ascii.
From stdpp Require Import base option list gmap.

Local Open Scope N_scope.

(** ** JavaScript strings *)

(** A string is the list of its UTF-16 code units. *)
Abbreviation jsstring := (list N) (only parsing).

(** Source literals are written in UTF-8; [js] gives their code units. *)
Fixpoint utf16_of_utf8 (bs : list N) : jsstring :=
  match bs with
  | [] => []
  | b0 :: r0 =>
    if b0 <? 128 then b0 :: utf16_of_utf8 r0
    else if b0 <? 224 then
      match r0 with
      | b1 :: r1 =>
        N.lor (N.shiftl (N.land b0 31) 6) (N.land b1 63) :: utf16_of_utf8 r1
      | _ => []
      end
    else if b0 <? 240 then
      match r0 with
      | b1 :: b2 :: r2 =>
        N.lor (N.shiftl (N.land b0 15) 12)
              (N.lor (N.shiftl (N.land b1 63) 6) (N.land b2 63))
        :: utf16_of_utf8 r2
      | _ => []
      end
    else
      match r0 with
      | b1 :: b2 :: b3 :: r3 =>
        let cp := N.lor (N.shiftl (N.land b0 7) 18)
                 (N.lor (N.shiftl (N.land b1 63) 12)
                 (N.lor (N.shiftl (N.land b2 63) 6) (N.land b3 63))) in
        let v := cp - 65536 in
        (55296 + N.shiftr v 10) :: (56320 + N.land v 1023) :: utf16_of_utf8 r3
      | _ => []
      end
  end.

Definition js (s : string) : jsstring :=
  utf16_of_utf8 (map N_of_ascii (list_ascii_of_string s)).

Definition jsstring_eqb (a b : jsstring) : bool := bool_decide (a = b).

(** [String.prototype.trim]: strips WhiteSpace and LineTerminator code
    points (ECMA-262, 12.2 and 12.3) from both ends. *)
Definition is_js_whitespace (c : N) : bool :=
  (c =? 9) || (c =? 10) || (c =? 11) || (c =? 12) || (c =? 13) || (c =? 32)
  || (c =? 160) || (c =? 5760) || ((8192 <=? c) && (c <=? 8202))
  || (c =? 8232) || (c =? 8233) || (c =? 8239) || (c =? 8287)
  || (c =? 12288) || (c =? 65279).

Fixpoint trim_start (s : jsstring) : jsstring :=
  match s with
  | c :: r => if is_js_whitespace c then trim_start r else s
  | [] => []
  end.

Definition trim (s : jsstring) : jsstring :=
  rev (trim_start (rev (trim_start s))).

(** [s.substr(start, len)] for non-negative arguments. *)
Definition substr (s : jsstring) (start len : nat) : jsstring :=
  take len (drop start s).

(** ** JavaScript values *)

(** The values the engine handles: what [JSON.parse] produces, plus
    [undefined].  A number is kept as the literal that denotes it: the
    engine stores and forwards numbers (retrieval scores) and never
    computes with them. *)
#[warnings="-register-all"]
Inductive JsValue : Type :=
| JUndefined
| JNull
| JBool (b : bool)
| JNum (lit : list N)
| JStr (s : list N)
| JArr (elems : list JsValue)
| JObj (props : list (list N * JsValue)).

(** What can be thrown. *)
Inductive JsError : Type :=
| TypeError       (* member access on null/undefined, call of a non-function *)
| SyntaxError     (* JSON.parse, Response.json *)
| NetworkError    (* fetch rejected *)
| ApiError        (* new Error('API请求失败') *)
| StorageError.   (* localStorage is not usable *)

Inductive outcome (A : Type) : Type :=
| Return (a : A)
| Throw (e : JsError).
Arguments Return {A} a.
Arguments Throw {A} e.

Definition is_digit (c : N) : bool := (48 <=? c) && (c <=? 57).

(** The literal denotes zero: every digit of its mantissa is 0. *)
Fixpoint mantissa_zero (lit : jsstring) : bool :=
  match lit with
  | [] => true
  | c :: r =>
    if (c =? 101) || (c =? 69) then true
    else if is_digit c then (c =? 48) && mantissa_zero r
    else mantissa_zero r
  end.

(** ToBoolean. *)
Definition truthy (v : JsValue) : bool :=
  match v with
  | JUndefined | JNull => false
  | JBool b => b
  | JNum lit => negb (mantissa_zero lit)
  | JStr s => negb (bool_decide (s = []))
  | JArr _ | JObj _ => true
  end.

(** [a || b] *)
Definition js_or (a b : JsValue) : JsValue := if truthy a then a else b.

Fixpoint assoc (k : jsstring) (ps : list (list N * JsValue)) : option JsValue :=
  match ps with
  | [] => None
  | (k', v) :: r => if bool_decide (k = k') then Some v else assoc k r
  end.

(** [v.k] for a data property [k].  The members that strings, arrays and
    objects inherit from their prototypes ([length], [toString], ...) are
    left out: no property the sources read is one of them. *)
Definition get_prop (v : JsValue) (k : jsstring) : outcome JsValue :=
  match v with
  | JUndefined | JNull => Throw TypeError
  | JObj ps => Return (default JUndefined (assoc k ps))
  | _ => Return JUndefined
  end.

(** [v?.k] *)
Definition get_prop_opt (v : JsValue) (k : jsstring) : JsValue :=
  match v with
  | JObj ps => default JUndefined (assoc k ps)
  | _ => JUndefined
  end.

Definition is_array (v : JsValue) : bool :=
  match v with JArr _ => true | _ => false end.

(** ** JSON.stringify and JSON.parse (ECMA-262, 25.5) *)

Module JSON.

Definition s_null : jsstring := Eval vm_compute in js "null".
Definition s_true : jsstring := Eval vm_compute in js "true".
Definition s_false : jsstring := Eval vm_compute in js "false".

Definition hex_digit (n : N) : N := if n <? 10 then 48 + n else 87 + n.

(** [\uXXXX], lower-case hexadecimal as QuoteJSONString writes it. *)
Definition unicode_escape (c : N) : jsstring :=
  [92; 117; hex_digit (N.shiftr c 12); hex_digit (N.land (N.shiftr c 8) 15);
   hex_digit (N.land (N.shiftr c 4) 15); hex_digit (N.land c 15)].

Definition is_high_surrogate (c : N) : bool := (55296 <=? c) && (c <=? 56319).
Definition is_low_surrogate (c : N) : bool := (56320 <=? c) && (c <=? 57343).

Definition quote_unit (c : N) : jsstring :=
  if c =? 8 then [92; 98]
  else if c =? 9 then [92; 116]
  else if c =? 10 then [92; 110]
  else if c =? 12 then [92; 102]
  else if c =? 13 then [92; 114]
  else if c =? 34 then [92; 34]
  else if c =? 92 then [92; 92]
  else if c <? 32 then unicode_escape c
  else [c].

(** The body of a quoted string: a surrogate pair is copied, a lone
    surrogate is escaped. *)
Fixpoint quote_body (s : jsstring) : jsstring :=
  match s with
  | [] => []
  | c :: r =>
    if is_high_surrogate c then
      match r with
      | d :: r' =>
        if is_low_surrogate d then c :: d :: quote_body r'
        else unicode_escape c ++ quote_body r
      | [] => unicode_escape c
      end
    else if is_low_surrogate c then unicode_escape c ++ quote_body r
    else quote_unit c ++ quote_body r
  end.

Definition quote (s : jsstring) : jsstring := 34 :: quote_body s ++ [34].

Fixpoint join_comma (parts : list jsstring) : jsstring :=
  match parts with
  | [] => []
  | [p] => p
  | p :: r => p ++ 44 :: join_comma r
  end.

(** SerializeJSONProperty without replacer or indentation; [None] is the
    result [undefined]. An [undefined] array element is written [null],
    an [undefined] property is left out, a number is written as the
    literal that stands for it. *)
Fixpoint serialize (v : JsValue) : option jsstring :=
  match v with
  | JUndefined => None
  | JNull => Some s_null
  | JBool b => Some (if b then s_true else s_false)
  | JNum lit => Some lit
  | JStr s => Some (quote s)
  | JArr l =>
    Some (91 :: join_comma (map (fun e => default s_null (serialize e)) l) ++ [93])
  | JObj ps =>
    Some (123 :: join_comma
            (omap (fun p => match serialize (snd p) with
                            | Some t => Some (quote (fst p) ++ 58 :: t)
                            | None => None
                            end) ps) ++ [125])
  end.

Definition stringify (v : JsValue) : option jsstring := serialize v.

(** *** Parsing *)

Definition is_json_ws (c : N) : bool :=
  (c =? 32) || (c =? 9) || (c =? 10) || (c =? 13).

Fixpoint skip_ws (s : jsstring) : jsstring :=
  match s with
  | c :: r => if is_json_ws c then skip_ws r else s
  | [] => []
  end.

Definition hex_val (c : N) : option N :=
  if is_digit c then Some (c - 48)
  else if (97 <=? c) && (c <=? 102) then Some (c - 87)
  else if (65 <=? c) && (c <=? 70) then Some (c - 55)
  else None.

Definition hex4 (a b c d : N) : option N :=
  match hex_val a, hex_val b, hex_val c, hex_val d with
  | Some x, Some y, Some z, Some w => Some (((x * 16 + y) * 16 + z) * 16 + w)
  | _, _, _, _ => None
  end.

Definition simple_escape (e : N) : option N :=
  if e =? 34 then Some 34
  else if e =? 92 then Some 92
  else if e =? 47 then Some 47
  else if e =? 98 then Some 8
  else if e =? 102 then Some 12
  else if e =? 110 then Some 10
  else if e =? 114 then Some 13
  else if e =? 116 then Some 9
  else None.

Definition prepend {A : Type} (c : A) (res : option (list A * jsstring))
  : option (list A * jsstring) :=
  match res with
  | Some (s, r) => Some (c :: s, r)
  | None => None
  end.

(** The characters of a string, read after its opening quote, up to and
    including the closing quote. *)
Fixpoint parse_string_body (s : jsstring) : option (jsstring * jsstring) :=
  match s with
  | [] => None
  | c :: r =>
    if c =? 34 then Some ([], r)
    else if c =? 92 then
      match r with
      | [] => None
      | e :: r1 =>
        if e =? 117 then
          match r1 with
          | h1 :: h2 :: h3 :: h4 :: r2 =>
            match hex4 h1 h2 h3 h4 with
            | Some u => prepend u (parse_string_body r2)
            | None => None
            end
          | _ => None
          end
        else
          match simple_escape e with
          | Some x => prepend x (parse_string_body r1)
          | None => None
          end
      end
    else if c <? 32 then None
    else prepend c (parse_string_body r)
  end.

Definition is_numchar (c : N) : bool :=
  is_digit c || (c =? 43) || (c =? 45) || (c =? 46) || (c =? 101) || (c =? 69).

Fixpoint span (p : N -> bool) (s : jsstring) : jsstring * jsstring :=
  match s with
  | c :: r => if p c then let '(a, b) := span p r in (c :: a, b) else ([], s)
  | [] => ([], [])
  end.

Definition all_digits1 (s : jsstring) : bool :=
  negb (bool_decide (s = [])) && forallb is_digit s.

(** Nothing, or e or E, an optional sign and at least one digit. *)
Definition valid_exponent (s : jsstring) : bool :=
  match s with
  | [] => true
  | c :: r =>
    ((c =? 101) || (c =? 69)) &&
    match r with
    | d :: r' => if (d =? 43) || (d =? 45) then all_digits1 r' else all_digits1 r
    | [] => false
    end
  end.

(** An optional point with at least one digit, then the exponent. *)
Definition valid_fraction (s : jsstring) : bool :=
  match s with
  | c :: r =>
    if c =? 46 then
      let '(ds, r') := span is_digit r in
      negb (bool_decide (ds = [])) && valid_exponent r'
    else valid_exponent s
  | [] => true
  end.

(** The JSON number grammar: an optional minus sign; 0, or a non-zero
    digit followed by digits; optionally a point and digits; optionally
    an exponent. *)
Definition valid_number (lit : jsstring) : bool :=
  let body := match lit with
              | c :: r => if c =? 45 then r else lit
              | [] => lit
              end in
  match body with
  | d :: r =>
    if d =? 48 then valid_fraction r
    else if is_digit d then valid_fraction (snd (span is_digit r))
    else false
  | [] => false
  end.

Fixpoint strip_prefix (p s : jsstring) : option jsstring :=
  match p, s with
  | [], _ => Some s
  | a :: p', b :: s' => if a =? b then strip_prefix p' s' else None
  | _ :: _, [] => None
  end.

Fixpoint decimal_value (acc : N) (s : jsstring) : N :=
  match s with
  | c :: r => decimal_value (acc * 10 + (c - 48)) r
  | [] => acc
  end.

(** An array index: the canonical decimal of an integer below 2^32 - 1.
    Such keys are enumerated first, in ascending order (OrdinaryOwnPropertyKeys). *)
Definition array_index (k : jsstring) : option N :=
  match k with
  | [] => None
  | c :: r =>
    if forallb is_digit k && implb (c =? 48) (bool_decide (r = []))
       && (length k <=? 10)%nat && (decimal_value 0 k <? 4294967295)
    then Some (decimal_value 0 k)
    else None
  end.

Fixpoint insert_index (i : N) (k : jsstring) (v : JsValue)
    (ps : list (list N * JsValue)) : list (list N * JsValue) :=
  match ps with
  | [] => [(k, v)]
  | (k', v') :: r =>
    match array_index k' with
    | Some j => if j <? i then (k', v') :: insert_index i k v r
                else (k, v) :: ps
    | None => (k, v) :: ps
    end
  end.

Fixpoint replace_prop (k : jsstring) (v : JsValue)
    (ps : list (list N * JsValue)) : list (list N * JsValue) :=
  match ps with
  | [] => []
  | (k', v') :: r =>
    if bool_decide (k = k') then (k, v) :: r else (k', v') :: replace_prop k v r
  end.

(** CreateDataProperty on an ordinary object whose properties are listed
    in enumeration order: an existing key keeps its place, a new array
    index goes among the indices, any other new key goes last. *)
Definition define_prop (ps : list (list N * JsValue)) (k : jsstring)
    (v : JsValue) : list (list N * JsValue) :=
  match assoc k ps with
  | Some _ => replace_prop k v ps
  | None =>
    match array_index k with
    | Some i => insert_index i k v ps
    | None => ps ++ [(k, v)]
    end
  end.

Definition build_object (members : list (list N * JsValue))
  : list (list N * JsValue) :=
  fold_left (fun ps m => define_prop ps (fst m) (snd m)) members [].

Fixpoint parse_value (fuel : nat) (s : jsstring) {struct fuel}
  : option (JsValue * jsstring) :=
  match fuel with
  | O => None
  | S f =>
    match skip_ws s with
    | [] => None
    | c :: r =>
      if c =? 91 then
        match skip_ws r with
        | c' :: r' =>
          if c' =? 93 then Some (JArr [], r')
          else match parse_elements f r with
               | Some (vs, r'') => Some (JArr vs, r'')
               | None => None
               end
        | [] => None
        end
      else if c =? 123 then
        match skip_ws r with
        | c' :: r' =>
          if c' =? 125 then Some (JObj [], r')
          else match parse_members f r with
               | Some (ms, r'') => Some (JObj (build_object ms), r'')
               | None => None
               end
        | [] => None
        end
      else if c =? 34 then
        match parse_string_body r with
        | Some (str, r') => Some (JStr str, r')
        | None => None
        end
      else if c =? 116 then
        match strip_prefix s_true (c :: r) with
        | Some r' => Some (JBool true, r')
        | None => None
        end
      else if c =? 102 then
        match strip_prefix s_false (c :: r) with
        | Some r' => Some (JBool false, r')
        | None => None
        end
      else if c =? 110 then
        match strip_prefix s_null (c :: r) with
        | Some r' => Some (JNull, r')
        | None => None
        end
      else
        let '(lit, r') := span is_numchar (c :: r) in
        if valid_number lit then Some (JNum lit, r') else None
    end
  end
with parse_elements (fuel : nat) (s : jsstring) {struct fuel}
  : option (list JsValue * jsstring) :=
  match fuel with
  | O => None
  | S f =>
    match parse_value f s with
    | Some (v, r) =>
      match skip_ws r with
      | c :: r' =>
        if c =? 44 then prepend v (parse_elements f r')
        else if c =? 93 then Some ([v], r')
        else None
      | [] => None
      end
    | None => None
    end
  end
with parse_members (fuel : nat) (s : jsstring) {struct fuel}
  : option (list (list N * JsValue) * jsstring) :=
  match fuel with
  | O => None
  | S f =>
    match skip_ws s with
    | c :: r =>
      if c =? 34 then
        match parse_string_body r with
        | Some (k, r1) =>
          match skip_ws r1 with
          | c1 :: r2 =>
            if c1 =? 58 then
              match parse_value f r2 with
              | Some (v, r3) =>
                match skip_ws r3 with
                | c2 :: r4 =>
                  if c2 =? 44 then prepend (k, v) (parse_members f r4)
                  else if c2 =? 125 then Some ([(k, v)], r4)
                  else None
                | [] => None
                end
              | None => None
              end
            else None
          | [] => None
          end
        | None => None
        end
      else None
    | [] => None
    end
  end.

(** [JSON.parse(text)]: [None] is a thrown SyntaxError. *)
Definition parse (text : jsstring) : option JsValue :=
  match parse_value (S (length text)) text with
  | Some (v, r) => match skip_ws r with [] => Some v | _ => None end
  | None => None
  end.

End JSON.

Local Close Scope N_scope.

(** ** Computations: a mutable world and exceptions *)

(** A JavaScript statement sequence over the world [W]: it returns or
    throws, and what it wrote before throwing stays written. *)
Definition M (W A : Type) : Type := W -> W * outcome A.

Definition ret {W A : Type} (a : A) : M W A := fun w => (w, Return a).

Definition bind {W A B : Type} (c : M W A) (k : A -> M W B) : M W B :=
  fun w =>
    match c w with
    | (w', Return a) => k a w'
    | (w', Throw e) => (w', Throw e)
    end.

Definition throw {W A : Type} (e : JsError) : M W A := fun w => (w, Throw e).

Definition gets {W A : Type} (f : W -> A) : M W A := fun w => (w, Return (f w)).

Definition modify {W : Type} (f : W -> W) : M W unit := fun w => (f w, Return tt).

Definition lift {W A : Type} (o : outcome A) : M W A := fun w => (w, o).

(** [try { body } catch (e) { handler e }] *)
Definition try_catch {W A : Type} (body : M W A) (handler : JsError -> M W A)
  : M W A :=
  fun w =>
    match body w with
    | (w', Return a) => (w', Return a)
    | (w', Throw e) => handler e w'
    end.

(** [try { body } finally { fin }]: [fin] always runs; if it throws, its
    exception replaces the outcome of [body]. *)
Definition try_finally {W A : Type} (body : M W A) (fin : M W unit) : M W A :=
  fun w =>
    match body w with
    | (w', o) =>
      match fin w' with
      | (w'', Return _) => (w'', o)
      | (w'', Throw e) => (w'', Throw e)
      end
    end.

Notation "x <- c ;; k" := (bind c (fun x => k))
  (at level 100, c at next level, right associativity).
Notation "c ;;; k" := (bind c (fun _ => k))
  (at level 100, right associativity).

Definition when_ {W : Type} (b : bool) (c : M W unit) : M W unit :=
  if b then c else ret tt.

(** ** localStorage *)

(** The browser's store. [denied]: touching [localStorage] throws (storage
    disabled for the page). [full]: [setItem] throws (no quota left). *)
Record Storage : Type := {
  denied : bool;
  full : bool;
  items : gmap (list N) (list N)
}.

(** The world of a component: the store shared by the page and the
    component's own reactive state. *)
Record World (C : Type) : Type := {
  localStorage : Storage;
  component : C
}.
Arguments localStorage {C} w.
Arguments component {C} w.
Arguments Build_World {C} localStorage component.

Definition with_items {C : Type} (f : gmap (list N) (list N) -> gmap (list N) (list N))
    (w : World C) : World C :=
  {| localStorage :=
       {| denied := denied (localStorage w);
          full := full (localStorage w);
          items := f (items (localStorage w)) |};
     component := component w |}.

Definition with_component {C D : Type} (f : C -> D) (w : World C) : World D :=
  {| localStorage := localStorage w; component := f (component w) |}.

Definition getItem {C : Type} (k : jsstring) : M (World C) (option (list N)) :=
  fun w =>
    if denied (localStorage w) then (w, Throw StorageError)
    else (w, Return (items (localStorage w) !! k)).

Definition setItem {C : Type} (k v : jsstring) : M (World C) unit :=
  fun w =>
    if denied (localStorage w) || full (localStorage w)
    then (w, Throw StorageError)
    else (with_items (fun m => <[k := v]> m) w, Return tt).

Definition removeItem {C : Type} (k : jsstring) : M (World C) unit :=
  fun w =>
    if denied (localStorage w) then (w, Throw StorageError)
    else (with_items (fun m => delete k m) w, Return tt).

Definition clearStorage {C : Type} : M (World C) unit :=
  fun w =>
    if denied (localStorage w) then (w, Throw StorageError)
    else (with_items (fun _ => ∅) w, Return tt).

(** Reading and writing the component's refs. *)
Definition read {C A : Type} (f : C -> A) : M (World C) A :=
  gets (fun w => f (component w)).

Definition write {C : Type} (f : C -> C) : M (World C) unit :=
  modify (with_component f).

(** Running a child component's code in the parent's world. *)
Definition zoom {C D A : Type} (get : D -> C) (set : C -> D -> D)
    (c : M (World C) A) : M (World D) A :=
  fun w =>
    match c {| localStorage := localStorage w; component := get (component w) |} with
    | (w', o) =>
      ({| localStorage := localStorage w';
          component := set (component w') (component w) |}, o)
    end.

(** [String(v)] of what [JSON.stringify] returned, as [setItem] stores it. *)
Definition s_undefined : list N := Eval vm_compute in js "undefined".
Definition stored_text (t : option (list N)) : list N := default s_undefined t.

(** ** The network *)

(** How a [fetch] settles: rejected (no connection, CORS, ...), or a
    response with its status and body text. The callers await the
    response and then its body; nothing of theirs runs in between, and
    the two waits are taken as one. *)
Inductive FetchOutcome : Type :=
| FetchRejected
| FetchResponse (status : Z) (body : list N).

(** [response.ok] *)
Definition response_ok (status : Z) : bool :=
  (200 <=? status)%Z && (status <=? 299)%Z.

(** [JSON.parse(text)] as an expression: a value or a SyntaxError. *)
Definition JSON_parse (text : jsstring) : outcome JsValue :=
  match JSON.parse text with
  | Some v => Return v
  | None => Throw SyntaxError
  end.

(** [await response.json()] *)
Definition response_json (body : jsstring) : outcome JsValue := JSON_parse body.

Record Request : Type := {
  req_method : list N;
  req_path : list N;
  req_body : option (list N)
}.

Definition s_GET : list N := Eval vm_compute in js "GET".
Definition s_POST : list N := Eval vm_compute in js "POST".
Definition s_query_path : list N := Eval vm_compute in js "/query".
Definition s_health_path : list N := Eval vm_compute in js "/health".
Definition k_question : list N := Eval vm_compute in js "question".
Definition k_user_id : list N := Eval vm_compute in js "user_id".
Definition k_session_id : list N := Eval vm_compute in js "session_id".

(** ** src/api/client.ts *)

Module Api.

(** [api.query(question, userId)] up to its [await fetch(...)]. *)
Definition query_request (question userId : JsValue) : Request :=
  {| req_method := s_POST;
     req_path := s_query_path;
     req_body := JSON.stringify
                   (JObj [(k_question, question); (k_user_id, userId)]) |}.

(** [api.query] from the moment the fetch settles: a rejected fetch, a
    response that is not ok and a body that is not JSON are all logged
    and thrown again. *)
Definition query_result (reply : FetchOutcome) : outcome JsValue :=
  match reply with
  | FetchRejected => Throw NetworkError
  | FetchResponse status body =>
    if negb (response_ok status) then Throw ApiError
    else response_json body
  end.

Definition healthCheck_request : Request :=
  {| req_method := s_GET; req_path := s_health_path; req_body := None |}.

(** [api.healthCheck] from the moment the fetch settles; it never throws. *)
Definition healthCheck_result (reply : FetchOutcome) : bool :=
  match reply with
  | FetchRejected => false
  | FetchResponse status _ => response_ok status
  end.

End Api.

(** ** Messages *)

Definition k_role : list N := Eval vm_compute in js "role".
Definition k_content : list N := Eval vm_compute in js "content".
Definition k_timestamp : list N := Eval vm_compute in js "timestamp".
Definition k_retrievalContext : list N := Eval vm_compute in js "retrievalContext".
Definition k_context : list N := Eval vm_compute in js "context".
Definition k_knowledge : list N := Eval vm_compute in js "knowledge".
Definition k_memory : list N := Eval vm_compute in js "memory".
Definition k_subQuestions : list N := Eval vm_compute in js "subQuestions".
Definition k_response : list N := Eval vm_compute in js "response".
Definition k_retrieval_context : list N := Eval vm_compute in js "retrieval_context".
Definition k_sub_questions : list N := Eval vm_compute in js "sub_questions".
Definition k_status : list N := Eval vm_compute in js "status".
Definition k_chat_history : list N := Eval vm_compute in js "chat_history".
Definition s_user : list N := Eval vm_compute in js "user".
Definition s_assistant : list N := Eval vm_compute in js "assistant".
Definition s_anonymous : list N := Eval vm_compute in js "anonymous".
Definition s_healthy : list N := Eval vm_compute in js "healthy".

(** The object literal [{ role, content, timestamp, ...extra }]. *)
Definition message (role : list N) (content timestamp : JsValue)
    (extra : list (list N * JsValue)) : JsValue :=
  JObj ([(k_role, JStr role); (k_content, content); (k_timestamp, timestamp)]
        ++ extra).

Definition user_message (text now : list N) : JsValue :=
  message s_user (JStr text) (JStr now) [].

(** [{ knowledge, memory, subQuestions }] *)
Definition retrieval (knowledge memory subQuestions : JsValue) : JsValue :=
  JObj [(k_knowledge, knowledge); (k_memory, memory);
        (k_subQuestions, subQuestions)].

(** [if (saved)] for what [getItem] returned: [null] and the empty string
    are falsy. *)
Definition present (saved : option (list N)) : option (list N) :=
  match saved with
  | Some (c :: r) => Some (c :: r)
  | _ => None
  end.

(** ** frontend/src/components/ChatInterface.vue *)

Module ChatInterface.

Definition greeting_content : list N := Eval vm_compute in
  js "您好！我是RAG智能助手，可以帮助您解答算法相关的问题。请问您想了解什么？".

Definition error_content : list N := Eval vm_compute in
  js "抱歉，处理您的请求时出现了错误。请稍后再试。".

Record State : Type := {
  initialMessages : list JsValue;  (* the const built when the script runs *)
  messages : JsValue;              (* messages.value *)
  inputText : list N;              (* inputText.value *)
  loading : bool;                  (* loading.value *)
  props_userId : JsValue           (* props.userId: a string or undefined *)
}.

Definition set_messages (v : JsValue) (s : State) : State :=
  {| initialMessages := initialMessages s; messages := v;
     inputText := inputText s; loading := loading s;
     props_userId := props_userId s |}.

Definition set_inputText (t : list N) (s : State) : State :=
  {| initialMessages := initialMessages s; messages := messages s;
     inputText := t; loading := loading s;
     props_userId := props_userId s |}.

Definition set_loading (b : bool) (s : State) : State :=
  {| initialMessages := initialMessages s; messages := messages s;
     inputText := inputText s; loading := b;
     props_userId := props_userId s |}.

Definition set_props_userId (u : JsValue) (s : State) : State :=
  {| initialMessages := initialMessages s; messages := messages s;
     inputText := inputText s; loading := loading s;
     props_userId := u |}.

Definition greeting (now : list N) : JsValue :=
  message s_assistant (JStr greeting_content) (JStr now) [].

(** The refs as [<script setup>] leaves them, run at time [now]. *)
Definition setup (now : list N) (userId : JsValue) : State :=
  {| initialMessages := [greeting now]; messages := JArr [];
     inputText := []; loading := false; props_userId := userId |}.

Definition error_message (now : list N) : JsValue :=
  message s_assistant (JStr error_content) (JStr now)
    [(k_retrievalContext, retrieval (JArr []) (JArr []) (JArr []))].

(** [messages.value.push(m)]: a TypeError unless [messages.value] is an
    array. *)
Definition push (m : JsValue) : M (World State) unit :=
  v <- read messages ;;
  match v with
  | JArr l => write (set_messages (JArr (l ++ [m])))
  | _ => throw TypeError
  end.

(** Effects on the page only: scrolling, events nobody listens to, the
    console. *)
Definition scrollToBottom : M (World State) unit := ret tt.
Definition emit : M (World State) unit := ret tt.
Definition console_error : M (World State) unit := ret tt.

(** [messages.value = [...initialMessages]] *)
Definition reset_messages : M (World State) unit :=
  init <- read initialMessages ;;
  write (set_messages (JArr init)).

Definition loadHistory : M (World State) unit :=
  saved <- getItem k_chat_history ;;
  match present saved with
  | Some text =>
    try_catch
      (v <- lift (JSON_parse text) ;; write (set_messages v))
      (fun _ => reset_messages)
  | None => reset_messages
  end.

Definition saveHistory : M (World State) unit :=
  v <- read messages ;;
  setItem k_chat_history (stored_text (JSON.stringify v)).

(** The argument of [api.query(...)], evaluated inside the [try]. *)
Definition query_argument (text : list N) : M (World State) JsValue :=
  uid <- read props_userId ;;
  sid <- getItem k_session_id ;;
  ret (JObj [(k_question, JStr text);
             (k_user_id, js_or uid (JStr s_anonymous));
             (k_session_id, match present sid with
                            | Some s => JStr s
                            | None => JUndefined
                            end)]).

(** [try { body } catch { push the apology } finally { ... }] of
    [sendMessage], at time [now]. *)
Definition settle (now : list N) (body : M (World State) unit)
  : M (World State) unit :=
  try_finally
    (try_catch body
       (fun _ => console_error ;;; push (error_message now)))
    (write (set_loading false) ;;; saveHistory ;;; scrollToBottom).

(** [sendMessage] up to its [await]: [None] when it returned without a
    request, otherwise the request it waits for. *)
Definition sendMessage_start (now : list N) : M (World State) (option Request) :=
  input <- read inputText ;;
  let text := trim input in
  busy <- read loading ;;
  if bool_decide (text = []) || busy then ret None
  else
    push (user_message text now) ;;;
    write (set_inputText []) ;;;
    emit ;;;
    saveHistory ;;;
    scrollToBottom ;;;
    write (set_loading true) ;;;
    fun w =>
      match query_argument text w with
      | (w', Return arg) =>
        (w', Return (Some (Api.query_request arg JUndefined)))
      | (w', Throw e) => (settle now (throw e) ;;; ret None) w'
      end.

(** The assistant message built from a reply. *)
Definition assistant_message (response : JsValue) (now : list N)
  : outcome JsValue :=
  match get_prop response k_response, get_prop response k_timestamp,
        get_prop response k_retrieval_context,
        get_prop response k_sub_questions with
  | Return content, Return ts, Return rc, Return sq =>
    Return (message s_assistant content (js_or ts (JStr now))
              [(k_retrievalContext,
                retrieval (js_or (get_prop_opt rc k_knowledge) (JArr []))
                          (js_or (get_prop_opt rc k_memory) (JArr []))
                          (js_or sq (JArr [])))])
  | Throw e, _, _, _ => Throw e
  | _, Throw e, _, _ => Throw e
  | _, _, Throw e, _ => Throw e
  | _, _, _, Throw e => Throw e
  end.

(** [sendMessage] from the moment the request settles, at time [now]. *)
Definition sendMessage_resume (reply : FetchOutcome) (now : list N)
  : M (World State) unit :=
  settle now
    (response <- lift (Api.query_result reply) ;;
     m <- lift (assistant_message response now) ;;
     push m ;;;
     emit).

(** [clearChat]; [confirmed] is what [confirm(...)] answered. *)
Definition clearChat (confirmed : bool) : M (World State) unit :=
  when_ confirmed
    (reset_messages ;;;
     removeItem k_chat_history ;;;
     scrollToBottom).

(** A whole [sendMessage] call when nothing else runs while it waits:
    called at [now], its request settling with [reply] at [later]. *)
Definition sendMessage (now : list N) (reply : FetchOutcome) (later : list N)
  : M (World State) unit :=
  started <- sendMessage_start now ;;
  match started with
  | Some _ => sendMessage_resume reply later
  | None => ret tt
  end.

Definition selectSubQuestion (question : list N) : M (World State) unit :=
  write (set_inputText question).

(** [onMounted]; [stamp] is [Date.now().toString()]. The health check it
    starts only logs its result. *)
Definition onMounted (stamp : list N) : M (World State) unit :=
  loadHistory ;;;
  scrollToBottom ;;;
  sid <- getItem k_session_id ;;
  match present sid with
  | Some _ => ret tt
  | None => setItem k_session_id stamp
  end.

End ChatInterface.

(** ** src/App.vue *)

Module App.

Definition greeting_content : list N := Eval vm_compute in
  js "您好！我是RAG智能助手，可以帮助您解答算法相关的问题。有什么可以帮您的？".

(** The text of the stand-in answer before and after the quoted question. *)
Definition mock_prefix : list N := Eval vm_compute in js "关于".

Definition mock_suffix : list N := Eval vm_compute in
  js "，我为您整理了以下信息：

**核心概念:**
KMP算法是一种高效的字符串匹配算法，通过预处理模式串避免不必要的回溯。

**主要特点:**
- 时间复杂度: O(n+m)
- 空间复杂度: O(m)
- 避免主串指针回溯

**实现步骤:**
1. 构建部分匹配表(next数组)
2. 双指针匹配主串和模式串
3. 失败时根据next数组跳转

您还想了解这个算法的哪些方面？".

Definition mock_knowledge_content : list N := Eval vm_compute in
  js "KMP算法是一种高效的字符串匹配算法，时间复杂度为O(n+m)".

Definition exampleQuestions : list (list N) := Eval vm_compute in
  [js "什么是KMP算法？";
   js "KMP算法的时间复杂度是多少？";
   js "请解释KMP算法中的部分匹配表";
   js "KMP算法和暴力匹配算法有什么区别？";
   js "动态规划的基本思想是什么？";
   js "什么是最优子结构？";
   js "常见的排序算法有哪些？"].

Inductive Connection : Type := connected | disconnected.

Record State : Type := {
  messages : JsValue;              (* messages.value *)
  inputText : list N;              (* inputText.value *)
  loading : bool;                  (* loading.value *)
  connectionStatus : Connection;   (* connectionStatus.value *)
  userId : list N                  (* userId.value *)
}.

Definition set_messages (v : JsValue) (s : State) : State :=
  {| messages := v; inputText := inputText s; loading := loading s;
     connectionStatus := connectionStatus s; userId := userId s |}.

Definition set_inputText (t : list N) (s : State) : State :=
  {| messages := messages s; inputText := t; loading := loading s;
     connectionStatus := connectionStatus s; userId := userId s |}.

Definition set_loading (b : bool) (s : State) : State :=
  {| messages := messages s; inputText := inputText s; loading := b;
     connectionStatus := connectionStatus s; userId := userId s |}.

Definition set_connectionStatus (c : Connection) (s : State) : State :=
  {| messages := messages s; inputText := inputText s; loading := loading s;
     connectionStatus := c; userId := userId s |}.

Definition set_userId (u : list N) (s : State) : State :=
  {| messages := messages s; inputText := inputText s; loading := loading s;
     connectionStatus := connectionStatus s; userId := u |}.

Definition greeting (now : list N) : JsValue :=
  message s_assistant (JStr greeting_content) (JStr now) [].

(** The refs as [<script setup>] leaves them, run at time [now]: the user
    id is read from the store, [null] and the empty string giving ''. *)
Definition setup (now : list N) : M (World unit) State :=
  uid <- getItem k_user_id ;;
  ret {| messages := JArr [greeting now]; inputText := []; loading := false;
         connectionStatus := disconnected;
         userId := default [] (present uid) |}.

Definition push (m : JsValue) : M (World State) unit :=
  v <- read messages ;;
  match v with
  | JArr l => write (set_messages (JArr (l ++ [m])))
  | _ => throw TypeError
  end.

(** Effects on the page only. *)
Definition scrollToBottom : M (World State) unit := ret tt.
Definition autoResize : M (World State) unit := ret tt.
Definition console_error : M (World State) unit := ret tt.

Definition saveHistory : M (World State) unit :=
  v <- read messages ;;
  setItem k_chat_history (stored_text (JSON.stringify v)).

(** [history.length > 0] for an array. *)
Definition nonempty_array (v : JsValue) : bool :=
  match v with
  | JArr (_ :: _) => true
  | _ => false
  end.

Definition loadHistory : M (World State) unit :=
  saved <- getItem k_chat_history ;;
  match present saved with
  | Some text =>
    try_catch
      (history <- lift (JSON_parse text) ;;
       when_ (is_array history && nonempty_array history)
         (write (set_messages history)))
      (fun _ => ret tt)
  | None => ret tt
  end.

(** [text.split('?')[0]] *)
Fixpoint before_question_mark (text : list N) : list N :=
  match text with
  | [] => []
  | c :: r => if (c =? 63)%N then [] else c :: before_question_mark r
  end.

(** [text.split('?')[0] || fallback] *)
Definition topic (text fallback : list N) : list N :=
  match before_question_mark text with
  | [] => fallback
  | t => t
  end.

Definition s_this : list N := Eval vm_compute in js "这个".
Definition s_it : list N := Eval vm_compute in js "它".

(** The stand-in answer of the [catch] branch. *)
Definition mock_message (text now : list N) : JsValue :=
  message s_assistant
    (JStr (mock_prefix ++ [34%N] ++ text ++ [34%N] ++ mock_suffix))
    (JStr now)
    [(k_context,
      retrieval
        (JArr [JObj [(js "type", JStr (js "textbook"));
                     (k_content, JStr mock_knowledge_content);
                     (js "score", JNum (js "0.95"))]])
        (JArr [JObj [(js "entity", JStr (js "KMP算法"));
                     (js "type", JStr (js "算法"));
                     (js "properties",
                      JObj [(js "description", JStr (js "字符串匹配算法"))]);
                     (js "score", JNum (js "0.88"))]])
        (JArr [JStr (js "什么是" ++ topic text s_this ++ js "的基本原理？");
               JStr (js "如何实现" ++ topic text s_this ++ js "？");
               JStr (topic text s_it ++ js "有什么应用场景？")]))].

(** What [sendMessage] keeps across its [await]: the text it sent. *)
Record Pending : Type := {
  sent_text : list N;
  request : Request
}.

(** [sendMessage] up to its [await fetch(...)]. *)
Definition sendMessage_start (now : list N) : M (World State) (option Pending) :=
  input <- read inputText ;;
  let text := trim input in
  busy <- read loading ;;
  if bool_decide (text = []) || busy then ret None
  else
    push (user_message text now) ;;;
    write (set_inputText []) ;;;
    autoResize ;;;
    scrollToBottom ;;;
    write (set_loading true) ;;;
    uid <- read userId ;;
    ret (Some {| sent_text := text;
                 request :=
                   {| req_method := s_POST;
                      req_path := s_query_path;
                      req_body :=
                        JSON.stringify
                          (JObj [(k_question, JStr text);
                                 (k_user_id,
                                  js_or (JStr uid) JUndefined)]) |} |}).

(** The assistant message built from the parsed body [data]. *)
Definition assistant_message (data : JsValue) (now : list N)
  : outcome JsValue :=
  match get_prop data k_response, get_prop data k_timestamp,
        get_prop data k_retrieval_context, get_prop data k_sub_questions with
  | Return content, Return ts, Return rc, Return sq =>
    Return (message s_assistant content (js_or ts (JStr now))
              [(k_context,
                retrieval (js_or (get_prop_opt rc k_knowledge) (JArr []))
                          (js_or (get_prop_opt rc k_memory) (JArr []))
                          (js_or sq (JArr [])))])
  | Throw e, _, _, _ => Throw e
  | _, Throw e, _, _ => Throw e
  | _, _, Throw e, _ => Throw e
  | _, _, _, Throw e => Throw e
  end.

(** [sendMessage] from the moment the fetch settles, at time [now]; [text]
    is the text it sent. *)
Definition sendMessage_resume (text : list N) (reply : FetchOutcome)
    (now : list N) : M (World State) unit :=
  try_finally
    (try_catch
       match reply with
       | FetchRejected => throw NetworkError
       | FetchResponse status body =>
         if response_ok status then
           data <- lift (response_json body) ;;
           m <- lift (assistant_message data now) ;;
           push m ;;;
           write (set_connectionStatus connected)
         else throw ApiError
       end
       (fun _ =>
          console_error ;;;
          push (mock_message text now) ;;;
          write (set_connectionStatus disconnected)))
    (write (set_loading false) ;;; saveHistory ;;; scrollToBottom).

(** A whole [sendMessage] call when nothing else runs while it waits:
    called at [now], its request settling with [reply] at [later]. *)
Definition sendMessage (now : list N) (reply : FetchOutcome) (later : list N)
  : M (World State) unit :=
  started <- sendMessage_start now ;;
  match started with
  | Some p => sendMessage_resume (sent_text p) reply later
  | None => ret tt
  end.

Definition useQuestion (question : list N) : M (World State) unit :=
  write (set_inputText question).

(** [clearChat]; [confirmed] is what [confirm(...)] answered. *)
Definition clearChat (confirmed : bool) (now : list N) : M (World State) unit :=
  when_ confirmed
    (write (set_messages (JArr [greeting now])) ;;;
     removeItem k_chat_history).

(** [checkConnection] from the moment its fetch settles. *)
Definition checkConnection_resume (reply : FetchOutcome) : M (World State) unit :=
  try_catch
    match reply with
    | FetchRejected => throw NetworkError
    | FetchResponse status _ =>
      if response_ok status then write (set_connectionStatus connected)
      else write (set_connectionStatus disconnected)
    end
    (fun _ => write (set_connectionStatus disconnected)).

Definition saveUserId : M (World State) unit :=
  uid <- read userId ;;
  setItem k_user_id uid.

(** [generateUserId]; [rnd] is [Math.random().toString(36)]. *)
Definition generateUserId (rnd : list N) : M (World State) unit :=
  write (set_userId (js "user_" ++ substr rnd 2 9)) ;;;
  saveUserId.

(** [onMounted], up to the health check it starts. *)
Definition onMounted (rnd : list N) : M (World State) unit :=
  loadHistory ;;;
  uid <- read userId ;;
  when_ (bool_decide (uid = [])) (generateUserId rnd) ;;;
  scrollToBottom.

End App.

(** ** frontend/src/views/HomeView.vue *)

Module HomeView.

Definition exampleQuestions : list (list N) := Eval vm_compute in
  [js "什么是KMP算法？";
   js "KMP算法的时间复杂度是多少？";
   js "请解释KMP算法中的部分匹配表";
   js "KMP算法和暴力匹配算法有什么区别？";
   js "如何实现KMP算法的next数组？"].

Definition text_checking : list N := Eval vm_compute in js "检查连接...".
Definition text_normal : list N := Eval vm_compute in js "系统正常".
Definition text_abnormal : list N := Eval vm_compute in js "连接异常".
Definition text_failed : list N := Eval vm_compute in js "连接失败".

Inductive Status : Type := checking | connected | disconnected.

Record State : Type := {
  userId : list N;                 (* userId.value *)
  systemStatus : Status;           (* systemStatus.value *)
  statusText : list N;             (* statusText.value *)
  messageCount : nat;              (* messageCount.value *)
  chat : ChatInterface.State       (* the component behind chatRef *)
}.

Definition set_userId (u : list N) (s : State) : State :=
  {| userId := u; systemStatus := systemStatus s; statusText := statusText s;
     messageCount := messageCount s; chat := chat s |}.

Definition set_status (c : Status) (t : list N) (s : State) : State :=
  {| userId := userId s; systemStatus := c; statusText := t;
     messageCount := messageCount s; chat := chat s |}.

Definition set_messageCount (n : nat) (s : State) : State :=
  {| userId := userId s; systemStatus := systemStatus s;
     statusText := statusText s; messageCount := n; chat := chat s |}.

Definition set_chat (c : ChatInterface.State) (s : State) : State :=
  {| userId := userId s; systemStatus := systemStatus s;
     statusText := statusText s; messageCount := messageCount s; chat := c |}.

(** The child sees the parent's [userId] as its [user-id] prop. *)
Definition chat_of (s : State) : ChatInterface.State :=
  ChatInterface.set_props_userId (JStr (userId s)) (chat s).

Definition in_chat {A : Type} (c : M (World ChatInterface.State) A)
  : M (World State) A :=
  zoom chat_of set_chat c.

Definition saveUserId : M (World State) unit :=
  uid <- read userId ;;
  setItem k_user_id uid.

(** [generateUserId]; [rnd] is [Math.random().toString(36)]. *)
Definition generateUserId (rnd : list N) : M (World State) unit :=
  let randomId := js "user_" ++ substr rnd 2 9 in
  write (set_userId randomId) ;;;
  saveUserId.

Definition refreshStatus_start : M (World State) unit :=
  write (set_status checking text_checking).

(** [v === s] for a string literal [s]. *)
Definition strict_eq_string (v : JsValue) (s : list N) : bool :=
  match v with
  | JStr t => bool_decide (t = s)
  | _ => false
  end.

(** [refreshStatus] from the moment the health check's fetch settles:
    [health] is the boolean [api.healthCheck] resolves to. *)
Definition refreshStatus_resume (reply : FetchOutcome) : M (World State) unit :=
  try_catch
    (let health := JBool (Api.healthCheck_result reply) in
     status <- lift (get_prop health k_status) ;;
     if strict_eq_string status s_healthy
     then write (set_status connected text_normal)
     else write (set_status disconnected text_abnormal))
    (fun _ => write (set_status disconnected text_failed)).

(** [sendExampleQuestion]: the question is put into the chat's textarea,
    whose input event updates [inputText], and the chat's [sendMessage]
    is called; the promise it returns is dropped. *)
Definition sendExampleQuestion (question now : list N)
  : M (World State) (option Request) :=
  fun w =>
    match in_chat (write (ChatInterface.set_inputText question) ;;;
                   ChatInterface.sendMessage_start now) w with
    | (w', Return r) => (w', Return r)
    | (w', Throw _) => (w', Return None)
    end.

(** [msg.role === 'user'] over the stored history. *)
Definition count_user_messages (history : JsValue) : outcome nat :=
  match history with
  | JArr l =>
    fold_right
      (fun msg acc =>
         match acc, get_prop msg k_role with
         | Return n, Return r =>
           Return (if strict_eq_string r s_user then S n else n)
         | Throw e, _ => Throw e
         | _, Throw e => Throw e
         end)
      (Return 0%nat) l
  | _ => Throw TypeError
  end.

Definition updateMessageCount : M (World State) unit :=
  saved <- getItem k_chat_history ;;
  history <- lift (JSON_parse (default (js "[]") (present saved))) ;;
  n <- lift (count_user_messages history) ;;
  write (set_messageCount n).

(** [onMounted], up to the health check it starts. *)
Definition onMounted (rnd : list N) : M (World State) unit :=
  refreshStatus_start ;;;
  updateMessageCount ;;;
  uid <- read userId ;;
  when_ (bool_decide (uid = [])) (generateUserId rnd).

End HomeView.

(** ** The event loop: timers and replies *)

(** What the outside world decides: how the [n]-th request settles and
    after how many milliseconds ([None]: it never does), and the text of
    [new Date().toISOString()] at each instant. *)
Record Reply : Type := {
  latency : option N;
  result : FetchOutcome
}.

Record Env : Type := {
  reply_of : nat -> Reply;
  iso : N -> list N
}.

Section EventLoop.

(** [W]: the world the callbacks run in; [Task]: the callbacks given to
    [setTimeout]; [K]: what a suspended [sendMessage] keeps. *)
Context {W Task K : Type}.

(** Running a timer callback at an instant: the new world, the timers it
    registers (delay, callback) and the request it leaves pending. *)
Variable on_timer : Task -> list N -> W -> W * list (N * Task) * option K.

(** Resuming a suspended [sendMessage] with its reply. *)
Variable on_reply : K -> FetchOutcome -> list N -> W -> W.

(** Whether a send is in flight, as the controller sees it. *)
Variable busy : W -> bool.

Variable env : Env.

Record Loop : Type := {
  clock : N;                                   (* milliseconds *)
  timers : list (N * Task);                    (* due time, callback *)
  inflight : list (option N * K * FetchOutcome); (* settle time *)
  issued : nat;                                (* requests sent so far *)
  world : W;
  log : list (N * Task * bool)   (* callbacks run: when, which, busy before *)
}.

(** The timer due first; among equals the one registered first. *)
Fixpoint pick_timer (ts : list (N * Task))
  : option (N * Task * list (N * Task)) :=
  match ts with
  | [] => None
  | t :: r =>
    match pick_timer r with
    | Some (u, r') =>
      if (fst u <? fst t)%N then Some (u, t :: r') else Some (t, r)
    | None => Some (t, [])
    end
  end.

(** The reply that arrives first; a request that never settles is never
    picked. *)
Fixpoint pick_reply (rs : list (option N * K * FetchOutcome))
  : option (N * K * FetchOutcome * list (option N * K * FetchOutcome)) :=
  match rs with
  | [] => None
  | (None, k, o) :: r =>
    match pick_reply r with
    | Some (u, r') => Some (u, (None, k, o) :: r')
    | None => None
    end
  | (Some t, k, o) :: r =>
    match pick_reply r with
    | Some ((t', k', o'), r') =>
      if (t' <? t)%N then Some ((t', k', o'), (Some t, k, o) :: r')
      else Some ((t, k, o), r)
    | None => Some ((t, k, o), r)
    end
  end.

Definition fire (due : N) (task : Task) (rest : list (N * Task)) (l : Loop)
  : Loop :=
  let now := N.max (clock l) due in
  match on_timer task (iso env now) (world l) with
  | (w, new, started) =>
    let r := reply_of env (issued l) in
    {| clock := now;
       timers := rest ++ map (fun d => ((now + fst d)%N, snd d)) new;
       inflight :=
         inflight l ++
         match started with
         | Some k => [(option_map (fun d => (now + d)%N) (latency r), k, result r)]
         | None => []
         end;
       issued := match started with Some _ => S (issued l) | None => issued l end;
       world := w;
       log := log l ++ [(now, task, busy (world l))] |}
  end.

Definition deliver (t : N) (k : K) (o : FetchOutcome)
    (rest : list (option N * K * FetchOutcome)) (l : Loop) : Loop :=
  let now := N.max (clock l) t in
  {| clock := now; timers := timers l; inflight := rest;
     issued := issued l;
     world := on_reply k o (iso env now) (world l);
     log := log l |}.

(** One turn of the loop: the earliest of the due timers and arriving
    replies, a reply going first when both fall on the same instant. *)
Definition step (l : Loop) : option Loop :=
  match pick_reply (inflight l), pick_timer (timers l) with
  | Some ((t, k, o), rest), Some ((due, task), ts) =>
    if (t <=? due)%N then Some (deliver t k o rest l)
    else Some (fire due task ts l)
  | Some ((t, k, o), rest), None => Some (deliver t k o rest l)
  | None, Some ((due, task), ts) => Some (fire due task ts l)
  | None, None => None
  end.

Fixpoint run (fuel : nat) (l : Loop) : Loop :=
  match fuel with
  | O => l
  | S f =>
    match step l with
    | Some l' => run f l'
    | None => l
    end
  end.

(** Nothing is left to happen. *)
Definition quiescent (l : Loop) : Prop := step l = None.

(** At most one request is in flight, and [busy] tells whether one is. *)
Definition one_at_a_time (l : Loop) : Prop :=
  (inflight l = [] /\ busy (world l) = false) \/
  (exists x, inflight l = [x] /\ busy (world l) = true).

End EventLoop.

Arguments Loop : clear implicits.

(** ** The page of src/App.vue in the event loop *)

Module AppLoop.

(** The callbacks the loop runs: the two timer callbacks of
    [loadExamples], and the user typing a text and sending it. *)
Inductive Task : Type :=
| SendNext
| Fire
| UserSend (text : list N).

(** The page and the [index] variable that [loadExamples] closes over. *)
Record Page : Type := {
  app : World App.State;
  index : nat
}.

Definition busy (p : Page) : bool := App.loading (component (app p)).

(** What [sendMessage()] leaves behind when called and not awaited: the
    world it wrote and the request it waits for, if any; a rejected
    promise is dropped. *)
Definition call_sendMessage (now : list N) (w : World App.State)
  : World App.State * option App.Pending :=
  match App.sendMessage_start now w with
  | (w', Return started) => (w', started)
  | (w', Throw _) => (w', None)
  end.

Definition on_timer (task : Task) (now : list N) (p : Page)
  : Page * list (N * Task) * option App.Pending :=
  match task with
  | SendNext =>
    if (index p <? length App.exampleQuestions)%nat then
      ({| app := with_component
                   (App.set_inputText (nth (index p) App.exampleQuestions []))
                   (app p);
          index := index p |},
       [(100%N, Fire)], None)
    else (p, [], None)
  | Fire =>
    match call_sendMessage now (app p) with
    | (w, started) =>
      ({| app := w; index := S (index p) |}, [(2000%N, SendNext)], started)
    end
  | UserSend text =>
    match call_sendMessage now (with_component (App.set_inputText text) (app p)) with
    | (w, started) => ({| app := w; index := index p |}, [], started)
    end
  end.

Definition on_reply (k : App.Pending) (reply : FetchOutcome) (now : list N)
    (p : Page) : Page :=
  {| app := fst (App.sendMessage_resume (App.sent_text k) reply now (app p));
     index := index p |}.

Definition step (env : Env) := step on_timer on_reply busy env.
Definition run (env : Env) := run on_timer on_reply busy env.
Definition fire (env : Env) := fire on_timer busy env.

(** The loop of a page at rest at the instant [t]. *)
Definition idle_at (t : N) (w : World App.State) : Loop Page Task App.Pending :=
  {| clock := t; timers := []; inflight := []; issued := 0;
     world := {| app := w; index := 0 |}; log := [] |}.

(** [loadExamples()]: [index] starts at 0 and [sendNext] is called at
    once. *)
Definition loadExamples (env : Env) (l : Loop Page Task App.Pending)
  : Loop Page Task App.Pending :=
  fire env (clock l) SendNext (timers l)
    {| clock := clock l; timers := timers l; inflight := inflight l;
       issued := issued l;
       world := {| app := app (world l); index := 0 |};
       log := log l |}.

(** The user sends [text] now. *)
Definition user_send (env : Env) (text : list N)
    (l : Loop Page Task App.Pending) : Loop Page Task App.Pending :=
  fire env (clock l) (UserSend text) (timers l) l.

End AppLoop.

(** ** The page of HomeView.vue, with its chat component, in the event loop *)

Module HomeLoop.

(** The callbacks the loop runs: the timer callbacks of
    [loadExampleQuestions], and the user typing a text and sending it. *)
Inductive Task : Type :=
| Example (question : list N)
| UserSend (text : list N).

Definition busy (w : World HomeView.State) : bool :=
  ChatInterface.loading (HomeView.chat (component w)).

Definition on_timer (task : Task) (now : list N) (w : World HomeView.State)
  : World HomeView.State * list (N * Task) * option Request :=
  match task with
  | Example question | UserSend question =>
    match HomeView.sendExampleQuestion question now w with
    | (w', Return started) => (w', [], started)
    | (w', Throw _) => (w', [], None)
    end
  end.

Definition on_reply (k : Request) (reply : FetchOutcome) (now : list N)
    (w : World HomeView.State) : World HomeView.State :=
  fst (HomeView.in_chat (ChatInterface.sendMessage_resume reply now) w).

Definition step (env : Env) := step on_timer on_reply busy env.
Definition run (env : Env) := run on_timer on_reply busy env.
Definition fire (env : Env) := fire on_timer busy env.

Definition idle_at (t : N) (w : World HomeView.State)
  : Loop (World HomeView.State) Task Request :=
  {| clock := t; timers := []; inflight := []; issued := 0;
     world := w; log := [] |}.

(** [exampleQuestions.forEach((q, index) => setTimeout(..., index * 2000))] *)
Definition example_timers (start : N) (questions : list (list N))
  : list (N * Task) :=
  imap (fun i q => ((start + N.of_nat i * 2000)%N, Example q)) questions.

Definition loadExampleQuestions (l : Loop (World HomeView.State) Task Request)
  : Loop (World HomeView.State) Task Request :=
  {| clock := clock l;
     timers := timers l ++ example_timers (clock l) HomeView.exampleQuestions;
     inflight := inflight l; issued := issued l; world := world l;
     log := log l |}.

Definition user_send (env : Env) (text : list N)
    (l : Loop (World HomeView.State) Task Request)
  : Loop (World HomeView.State) Task Request :=
  fire env (clock l) (UserSend text) (timers l) l.

End HomeLoop.

(** ** The properties, in the terms of the specification *)

(** [submit] turns the input away: it trims to nothing, or a send is in
    flight. *)
Definition rejects (text : list N) (busy : bool) : Prop :=
  trim text = [] \/ busy = true.

(** The persisted history cannot be read back: there is none, or it is
    not JSON. *)
Definition unreadable (saved : option (list N)) : Prop :=
  saved = None \/ exists text, saved = Some text /\ JSON.parse text = None.

(** The remote query fails: the fetch is rejected, the status is not a
    success, or the body is not JSON. *)
Definition query_fails (reply : FetchOutcome) : Prop :=
  reply = FetchRejected \/
  exists status body, reply = FetchResponse status body /\
    (response_ok status = false \/ JSON.parse body = None).

(** The store can be read and written. *)
Definition usable (s : Storage) : Prop := denied s = false /\ full s = false.

Definition chat_messages (w : World ChatInterface.State) : JsValue :=
  ChatInterface.messages (component w).

Definition app_messages (w : World App.State) : JsValue :=
  App.messages (component w).

Definition stored_history {C : Type} (w : World C) : option (list N) :=
  items (localStorage w) !! k_chat_history.

(** ** Sample worlds *)

Definition blank_store : Storage :=
  {| denied := false; full := false; items := ∅ |}.

Definition sample_time : list N := Eval vm_compute in js "2024-05-01T08:00:00.000Z".
Definition later_time : list N := Eval vm_compute in js "2024-05-01T08:00:07.250Z".

Definition store_with (history : list N) : Storage :=
  {| denied := false; full := false;
     items := {[ k_chat_history := history ]} |}.

(** A chat component as the script sets it up; [onMounted] has not run. *)
Definition chat_fresh (s : Storage) : World ChatInterface.State :=
  {| localStorage := s;
     component := ChatInterface.setup sample_time JUndefined |}.

(** A chat component showing the greeting, with [text] typed; [busy]
    tells whether it waits for a reply. *)
Definition chat_with (s : Storage) (text : list N) (busy : bool)
  : World ChatInterface.State :=
  {| localStorage := s;
     component :=
       {| ChatInterface.initialMessages := [ChatInterface.greeting sample_time];
          ChatInterface.messages := JArr [ChatInterface.greeting sample_time];
          ChatInterface.inputText := text;
          ChatInterface.loading := busy;
          ChatInterface.props_userId := JUndefined |} |}.

(** The page of App.vue showing the greeting, with [text] typed. *)
Definition app_with (s : Storage) (text : list N) (busy : bool)
  : World App.State :=
  {| localStorage := s;
     component :=
       {| App.messages := JArr [App.greeting sample_time];
          App.inputText := text;
          App.loading := busy;
          App.connectionStatus := App.disconnected;
          App.userId := [] |} |}.

Definition chat_waiting : World ChatInterface.State :=
  chat_with blank_store [32; 32; 32]%N true.

Definition app_blank_input : World App.State :=
  app_with blank_store [32; 12288; 10]%N false.

(** A history cut off in the middle of a message. *)
Definition garbled_text : list N := Eval vm_compute in js "[{'role':".

Definition chat_garbled : World ChatInterface.State :=
  chat_fresh (store_with garbled_text).

Definition app_garbled : World App.State :=
  app_with (store_with garbled_text) [] false.

Definition empty_array_text : list N := Eval vm_compute in js "[]".
Definition empty_object_text : list N := Eval vm_compute in js "{}".

Definition chat_stored_object : World ChatInterface.State :=
  chat_fresh (store_with empty_object_text).

(** The health request answered 200 with a body saying healthy. *)
Definition health_ok : FetchOutcome :=
  FetchResponse 200
    (stored_text (JSON.stringify (JObj [(k_status, JStr s_healthy)]))).

Definition home_with (s : Storage) : World HomeView.State :=
  {| localStorage := s;
     component :=
       {| HomeView.userId := [];
          HomeView.systemStatus := HomeView.checking;
          HomeView.statusText := HomeView.text_checking;
          HomeView.messageCount := 0;
          HomeView.chat := component (chat_with s [] false) |} |}.

(** The store cannot be written: access is denied, or there is no room. *)
Definition unavailable (s : Storage) : Prop := denied s = true \/ full s = true.

Definition chat_loading (w : World ChatInterface.State) : bool :=
  ChatInterface.loading (component w).

Definition app_loading (w : World App.State) : bool :=
  App.loading (component w).

(** The last element of an array value. *)
Definition last_message (v : JsValue) : JsValue :=
  match v with
  | JArr l => List.last l JUndefined
  | _ => JUndefined
  end.

Definition text_x : list N := Eval vm_compute in js "x".

(** The user has typed " x " and nothing is in flight. *)
Definition chat_asking : World ChatInterface.State :=
  chat_with blank_store [32; 120; 32]%N false.

Definition app_asking : World App.State :=
  app_with blank_store [32; 120; 32]%N false.

Definition server_error : FetchOutcome := FetchResponse 500 [].

(** A store the page may not touch, and one with no room left. *)
Definition sealed_store : Storage :=
  {| denied := true; full := false; items := ∅ |}.

Definition full_store : Storage :=
  {| denied := false; full := true; items := ∅ |}.

Definition random_text : list N := Eval vm_compute in js "0.4fzyo82mvyr".

(** A conversation of three messages, persisted as it is. *)
Definition talk : list JsValue :=
  [ChatInterface.greeting sample_time;
   user_message text_x sample_time;
   ChatInterface.error_message later_time].

Definition chat_talked : World ChatInterface.State :=
  {| localStorage := store_with (stored_text (JSON.stringify (JArr talk)));
     component :=
       {| ChatInterface.initialMessages := [ChatInterface.greeting sample_time];
          ChatInterface.messages := JArr talk;
          ChatInterface.inputText := [];
          ChatInterface.loading := false;
          ChatInterface.props_userId := JUndefined |} |}.

Definition app_talked : World App.State :=
  {| localStorage := store_with (stored_text (JSON.stringify (JArr talk)));
     component :=
       {| App.messages := JArr talk;
          App.inputText := [];
          App.loading := false;
          App.connectionStatus := App.disconnected;
          App.userId := [] |} |}.

(** ** The batch runners' timetables *)

(** The callbacks of [loadExamples] started at [t0], in order: entry [2i]
    stages question [i], entry [2i+1] sends it 100 ms later, and the next
    staging is 2000 ms after that. *)
Definition app_entry (t0 : N) (p : nat) : N * AppLoop.Task :=
  if Nat.even p
  then ((t0 + 2100 * N.of_nat (p / 2))%N, AppLoop.SendNext)
  else ((t0 + 2100 * N.of_nat (p / 2) + 100)%N, AppLoop.Fire).

Definition app_callbacks : nat := 2 * length App.exampleQuestions + 1.

Definition app_schedule (t0 : N) : list (N * AppLoop.Task) :=
  map (app_entry t0) (seq 0 app_callbacks).

(** What holds of the loop while [loadExamples], started at [t0], runs:
    [p] callbacks have run, at the instants of the timetable; the next
    one is the only timer; requests go one at a time. *)
Definition app_running (t0 : N) (l : Loop AppLoop.Page AppLoop.Task App.Pending)
  : Prop :=
  one_at_a_time AppLoop.busy l /\
  exists p : nat,
    (p <= app_callbacks)%nat /\
    map fst (log l) = take p (app_schedule t0) /\
    timers l = (if (p <? app_callbacks)%nat then [app_entry t0 p] else []) /\
    AppLoop.index (world l) = (p / 2)%nat /\
    ((p < app_callbacks)%nat -> (clock l <= fst (app_entry t0 p))%N).

Definition loop_potential {W Task K : Type} (callbacks : nat)
    (l : Loop W Task K) : nat :=
  2 * (callbacks - length (log l)) + length (inflight l).

(** The callbacks of [loadExampleQuestions] started at [t0]: question [i]
    is sent [2000 i] ms after the start. *)
Definition home_schedule (t0 : N) : list (N * HomeLoop.Task) :=
  HomeLoop.example_timers t0 HomeView.exampleQuestions.

Definition home_running (t0 : N)
    (l : Loop (World HomeView.State) HomeLoop.Task Request) : Prop :=
  one_at_a_time HomeLoop.busy l /\
  exists p : nat,
    (p <= length HomeView.exampleQuestions)%nat /\
    map fst (log l) = take p (home_schedule t0) /\
    timers l = drop p (home_schedule t0) /\
    (forall e, home_schedule t0 !! p = Some e -> (clock l <= fst e)%N).

(** ** What the claims about the loop say *)

(** The outcome of [loadExamples] started at [t0] on the page [a], run for
    [n] turns of the loop. *)
Definition app_batch_result (env : Env) (t0 : N) (n : nat) (a : World App.State)
  : Prop :=
  let start := AppLoop.loadExamples env (AppLoop.idle_at t0 a) in
  let final := AppLoop.run env n start in
  AppLoop.step env final = None /\
  timers final = [] /\
  map fst (log final) = app_schedule t0 /\
  AppLoop.index (world final) = length App.exampleQuestions /\
  (forall m, (length (inflight (AppLoop.run env m start)) <= 1)%nat).

Definition home_batch_result (env : Env) (t0 : N) (n : nat)
    (h : World HomeView.State) : Prop :=
  let start := HomeLoop.loadExampleQuestions (HomeLoop.idle_at t0 h) in
  let final := HomeLoop.run env n start in
  HomeLoop.step env final = None /\
  timers final = [] /\
  map fst (log final) = home_schedule t0 /\
  (forall m, (length (inflight (HomeLoop.run env m start)) <= 1)%nat).

(** A callback that finds the controller busy starts no request and
    leaves the conversation alone; the runner moves on all the same. *)
Definition app_busy_call_is_dropped : Prop :=
  forall now p,
    AppLoop.busy p = true ->
    AppLoop.on_timer AppLoop.Fire now p =
      ({| AppLoop.app := AppLoop.app p; AppLoop.index := S (AppLoop.index p) |},
       [(2000%N, AppLoop.SendNext)], None).

Definition home_busy_call_is_dropped : Prop :=
  forall now question w,
    HomeLoop.busy w = true ->
    snd (HomeLoop.on_timer (HomeLoop.Example question) now w) = None /\
    snd (fst (HomeLoop.on_timer (HomeLoop.Example question) now w)) = [] /\
    ChatInterface.messages
      (HomeView.chat
         (component (fst (fst (HomeLoop.on_timer (HomeLoop.Example question) now w)))))
    = ChatInterface.messages (HomeView.chat (component w)).

(** The loop after the user sent [text] at the instant [t] on a page at
    rest: the controller is busy and no timer is set; if the request
    never settles nothing is left to happen, and if it settles after [d]
    ms the next turn, at [t + d], ends the business. *)
Definition app_wait_result (env : Env) (t : N) (text : list N)
    (a : World App.State) : Prop :=
  let sent := AppLoop.user_send env text (AppLoop.idle_at t a) in
  AppLoop.busy (world sent) = true /\
  timers sent = [] /\
  match latency (reply_of env 0) with
  | None => AppLoop.step env sent = None
  | Some d =>
    exists next, AppLoop.step env sent = Some next /\
                 clock next = (t + d)%N /\
                 AppLoop.busy (world next) = false /\
                 AppLoop.step env next = None
  end.

Definition home_wait_result (env : Env) (t : N) (text : list N)
    (h : World HomeView.State) : Prop :=
  let sent := HomeLoop.user_send env text (HomeLoop.idle_at t h) in
  HomeLoop.busy (world sent) = true /\
  timers sent = [] /\
  match latency (reply_of env 0) with
  | None => HomeLoop.step env sent = None
  | Some d =>
    exists next, HomeLoop.step env sent = Some next /\
                 clock next = (t + d)%N /\
                 HomeLoop.busy (world next) = false /\
                 HomeLoop.step env next = None
  end.

(** Sample outside worlds: every request is refused after 5 s; no request
    is ever answered; every request is answered at once after 300 ms. *)
Definition env_slow : Env :=
  {| reply_of := fun _ => {| latency := Some 5000%N; result := FetchRejected |};
     iso := fun _ => sample_time |}.

Definition env_silent : Env :=
  {| reply_of := fun _ => {| latency := None; result := FetchRejected |};
     iso := fun _ => sample_time |}.

Definition env_quick : Env :=
  {| reply_of := fun _ => {| latency := Some 300%N; result := server_error |};
     iso := fun _ => sample_time |}.

Definition app_idle : World App.State := app_with blank_store [] false.
Definition home_idle : World HomeView.State := home_with blank_store.

(** ** Values that JSON carries without loss *)

(** A number literal that denotes the same number after a round trip: in
    the JSON grammar, written without exponent in at most 300
    characters (so it is finite), and not minus zero. *)
Definition plain_number (lit : list N) : bool :=
  JSON.valid_number lit
  && forallb (fun c => negb ((c =? 101)%N || (c =? 69)%N)) lit
  && (length lit <=? 300)%nat
  && negb (match lit with
           | c :: _ => (c =? 45)%N && mantissa_zero lit
           | [] => false
           end).

(** Keys that an object enumerates in the order they were written: no
    two the same, none an array index. *)
Definition plain_keys (ks : list (list N)) : bool :=
  bool_decide (NoDup ks)
  && forallb (fun k => bool_decide (JSON.array_index k = None)) ks.

(** A value that [JSON.stringify] writes whole and [JSON.parse] reads
    back as it was: nothing [undefined] in it, plain numbers, plain
    keys. *)
Fixpoint json_safe (v : JsValue) : bool :=
  match v with
  | JUndefined => false
  | JNull | JBool _ | JStr _ => true
  | JNum lit => plain_number lit
  | JArr l => forallb json_safe l
  | JObj ps =>
    forallb (fun p => json_safe (snd p)) ps && plain_keys (map fst ps)
  end.

(** The number of values in a value. *)
Fixpoint size (v : JsValue) : nat :=
  match v with
  | JArr l => S (list_sum (map (fun e => S (size e)) l))
  | JObj ps => S (list_sum (map (fun p => S (size (snd p))) ps))
  | _ => 1
  end.

(** The text of a value, with [null] for [undefined]. *)
Definition text_of (v : JsValue) : list N :=
  default JSON.s_null (JSON.serialize v).

(** What follows a value: the end of the text, or a character no number
    contains. *)
Definition ends_value (rest : list N) : Prop :=
  match rest with
  | [] => True
  | c :: _ => JSON.is_numchar c = false
  end.

(** Induction on values, through the arrays and objects. *)
Section JsValue_induction.

Variable P : JsValue -> Prop.
Hypothesis P_undefined : P JUndefined.
Hypothesis P_null : P JNull.
Hypothesis P_bool : forall b, P (JBool b).
Hypothesis P_num : forall lit, P (JNum lit).
Hypothesis P_str : forall s, P (JStr s).
Hypothesis P_arr : forall l, Forall P l -> P (JArr l).
Hypothesis P_obj : forall ps, Forall (fun p => P (snd p)) ps -> P (JObj ps).

Fixpoint JsValue_nested_ind (v : JsValue) : P v :=
  match v with
  | JUndefined => P_undefined
  | JNull => P_null
  | JBool b => P_bool b
  | JNum lit => P_num lit
  | JStr s => P_str s
  | JArr l =>
    P_arr l
      ((fix elems (l : list JsValue) : Forall P l :=
          match l with
          | [] => @List.Forall_nil _ P
          | e :: r => @List.Forall_cons _ P e r (JsValue_nested_ind e) (elems r)
          end) l)
  | JObj ps =>
    P_obj ps
      ((fix members (ps : list (list N * JsValue))
          : Forall (fun p => P (snd p)) ps :=
          match ps with
          | [] => @List.Forall_nil _ _
          | p :: r =>
            @List.Forall_cons _ (fun p => P (snd p)) p r
              (JsValue_nested_ind (snd p)) (members r)
          end) ps)
  end.

End JsValue_induction.

(** The text of [v], followed by anything that ends a value, is read back
    as [v] by a parser with fuel for [v]. *)
Definition reads_back (v : JsValue) : Prop :=
  json_safe v = true ->
  forall (fuel : nat) (rest : list N),
    ends_value rest -> (size v <= fuel)%nat ->
    JSON.parse_value fuel (text_of v ++ rest) = Some (v, rest).

(** The text of an object member. *)
Definition member_text (p : list N * JsValue) : list N :=
  JSON.quote (fst p) ++ 58%N :: text_of (snd p).

(** A page opened anew on the store [s], its refs [fresh]. *)
Definition reopened {C : Type} (s : Storage) (fresh : C) : World C :=
  {| localStorage := s; component := fresh |}.

(** The conversation [l] is saved in the world [c]; the chat component
    is opened anew on the store this leaves, with any refs [fresh], and
    loads the history. Saving and loading return normally, the
    conversation loaded is [l], and saving it again changes nothing. *)
Definition chat_round_trip (l : list JsValue) (c : World ChatInterface.State)
    (fresh : ChatInterface.State) : Prop :=
  let saved := ChatInterface.saveHistory c in
  let loaded := ChatInterface.loadHistory (reopened (localStorage (fst saved)) fresh) in
  snd saved = Return tt /\
  snd loaded = Return tt /\
  chat_messages (fst loaded) = JArr l /\
  ChatInterface.saveHistory (fst loaded) = (fst loaded, Return tt).

Definition app_round_trip (l : list JsValue) (a : World App.State)
    (fresh : App.State) : Prop :=
  let saved := App.saveHistory a in
  let loaded := App.loadHistory (reopened (localStorage (fst saved)) fresh) in
  snd saved = Return tt /\
  snd loaded = Return tt /\
  app_messages (fst loaded) = JArr l /\
  App.saveHistory (fst loaded) = (fst loaded, Return tt).

(** The page of App.vue as its script sets it up on an empty user id. *)
Definition app_fresh : App.State :=
  {| App.messages := JArr [App.greeting later_time];
     App.inputText := [];
     App.loading := false;
     App.connectionStatus := App.disconnected;
     App.userId := [] |}.

(** The page of App.vue holding an empty conversation. *)
Definition app_emptied : World App.State :=
  {| localStorage := blank_store;
     component :=
       {| App.messages := JArr [];
          App.inputText := [];
          App.loading := false;
          App.connectionStatus := App.disconnected;
          App.userId := [] |} |}.

(** ** More of the engine, in the terms of its users *)

(** The reply is a success whose body is the JSON text of [data]. *)
Definition answered (reply : FetchOutcome) (data : JsValue) : Prop :=
  exists status body,
    reply = FetchResponse status body /\ response_ok status = true /\
    JSON.parse body = Some data.

(** The assistant message read off the parsed body [data], its retrieval
    context kept under the key [context_key]: what is missing or falsy
    is replaced by the time [later] and by empty arrays. *)
Definition answer_message (context_key : list N) (data : JsValue)
    (later : list N) : JsValue :=
  message s_assistant (get_prop_opt data k_response)
    (js_or (get_prop_opt data k_timestamp) (JStr later))
    [(context_key,
      retrieval
        (js_or (get_prop_opt (get_prop_opt data k_retrieval_context) k_knowledge)
               (JArr []))
        (js_or (get_prop_opt (get_prop_opt data k_retrieval_context) k_memory)
               (JArr []))
        (js_or (get_prop_opt data k_sub_questions) (JArr [])))].

(** The assistant message ChatInterface.vue ends a send with: the one
    built from the reply, or the apology when [api.query] or the building
    throws. *)
Definition chat_reply (reply : FetchOutcome) (later : list N) : JsValue :=
  match Api.query_result reply with
  | Return response =>
    match ChatInterface.assistant_message response later with
    | Return m => m
    | Throw _ => ChatInterface.error_message later
    end
  | Throw _ => ChatInterface.error_message later
  end.

(** The assistant message App.vue ends a send of [text] with. *)
Definition app_reply (text : list N) (reply : FetchOutcome) (later : list N)
  : JsValue :=
  match Api.query_result reply with
  | Return data =>
    match App.assistant_message data later with
    | Return m => m
    | Throw _ => App.mock_message text later
    end
  | Throw _ => App.mock_message text later
  end.

(** The connection indicator App.vue ends a send with. *)
Definition app_reply_status (reply : FetchOutcome) (later : list N)
  : App.Connection :=
  match Api.query_result reply with
  | Return data =>
    match App.assistant_message data later with
    | Return _ => App.connected
    | Throw _ => App.disconnected
    end
  | Throw _ => App.disconnected
  end.

(** The text under which a conversation is persisted. *)
Definition history_text (v : JsValue) : list N :=
  stored_text (JSON.stringify v).

(** [m.role] *)
Definition role_of (m : JsValue) : JsValue := get_prop_opt m k_role.

(** A reply of the service: an answer with one suggested sub-question,
    no time stamp and no retrieval context. *)
Definition sample_answer : JsValue :=
  JObj [(k_response, JStr (js "KMP runs in O(n+m)."));
        (k_sub_questions, JArr [JStr (js "Q1")])].

Definition answer_ok : FetchOutcome :=
  FetchResponse 200 (history_text sample_answer).

(** A success whose body is the JSON text null. *)
Definition answer_null : FetchOutcome := FetchResponse 200 JSON.s_null.

(** What a send leaves of the question and its answer: the question
    [text] asked at [now] on the page at rest [w], answered by [m]. *)
Definition chat_sent (now later text : list N) (l : list JsValue) (m : JsValue)
    (reply : FetchOutcome) (c : World ChatInterface.State) : Prop :=
  snd (ChatInterface.sendMessage now reply later c) = Return tt /\
  chat_messages (fst (ChatInterface.sendMessage now reply later c))
    = JArr (l ++ [user_message text now; m]) /\
  chat_loading (fst (ChatInterface.sendMessage now reply later c)) = false /\
  ChatInterface.inputText (component (fst (ChatInterface.sendMessage now reply later c)))
    = [].

Definition app_sent (now later text : list N) (l : list JsValue) (m : JsValue)
    (reply : FetchOutcome) (a : World App.State) : Prop :=
  app_messages (fst (App.sendMessage now reply later a))
    = JArr (l ++ [user_message text now; m]) /\
  app_loading (fst (App.sendMessage now reply later a)) = false /\
  App.inputText (component (fst (App.sendMessage now reply later a))) = [].

(** A chat component whose conversation is the object [{}]. *)
Definition chat_broken : World ChatInterface.State :=
  with_component (ChatInterface.set_inputText text_x)
    (fst (ChatInterface.loadHistory chat_stored_object)).

(** ** What the batch runners submit *)

(** The request App.vue sends for [text] with the user id [uid]. *)
Definition app_request (text uid : list N) : Request :=
  {| req_method := s_POST;
     req_path := s_query_path;
     req_body :=
       JSON.stringify
         (JObj [(k_question, JStr text);
                (k_user_id, js_or (JStr uid) JUndefined)]) |}.

(** The request ChatInterface.vue sends for [text] in the world [w]. *)
Definition chat_request (text : list N) (w : World ChatInterface.State)
  : Request :=
  Api.query_request
    (JObj [(k_question, JStr text);
           (k_user_id,
            js_or (ChatInterface.props_userId (component w)) (JStr s_anonymous));
           (k_session_id,
            match present (items (localStorage w) !! k_session_id) with
            | Some s => JStr s
            | None => JUndefined
            end)])
    JUndefined.

(** The turn of the loop from [l] to [l'] is the call of [sendMessage]
    that [loadExamples] makes for the question [q] at the instant [at_]:
    the input holds [q]; a call that finds a send in flight changes
    nothing and sends nothing; a call that finds none appends the user
    message for [q], clears the input, turns loading on, and leaves one
    request for [q] in flight. *)
Definition app_call (env : Env) (q : list N) (at_ : N)
    (l l' : Loop AppLoop.Page AppLoop.Task App.Pending) : Prop :=
  let w := AppLoop.app (world l) in
  log l' = log l ++ [(at_, AppLoop.Fire, AppLoop.busy (world l))] /\
  App.inputText (component w) = q /\
  if AppLoop.busy (world l)
  then AppLoop.app (world l') = w /\
       inflight l' = inflight l /\
       issued l' = issued l
  else exists msgs,
    app_messages w = JArr msgs /\
    AppLoop.app (world l') =
      with_component
        (fun s => App.set_loading true
                    (App.set_inputText []
                       (App.set_messages
                          (JArr (msgs ++ [user_message q (iso env at_)])) s)))
        w /\
    inflight l' =
      [(option_map (fun d => (at_ + d)%N) (latency (reply_of env (issued l))),
        {| App.sent_text := q;
           App.request := app_request q (App.userId (component w)) |},
        result (reply_of env (issued l)))] /\
    issued l' = S (issued l).

(** Every example question of App.vue gets its call of [sendMessage]: in
    the run of [loadExamples] started at [t0] there is a turn that runs
    the callback for question [i], and every such turn is the call
    described by [app_call], 2100 i + 100 ms after the start. *)
Definition app_batch_calls (env : Env) (t0 : N) (a : World App.State) : Prop :=
  let start := AppLoop.loadExamples env (AppLoop.idle_at t0 a) in
  forall i : nat, (i < length App.exampleQuestions)%nat ->
    (exists m l',
        AppLoop.step env (AppLoop.run env m start) = Some l' /\
        length (log (AppLoop.run env m start)) = (2 * i + 1)%nat /\
        length (log l') = (2 * i + 2)%nat) /\
    (forall m l',
        AppLoop.step env (AppLoop.run env m start) = Some l' ->
        length (log (AppLoop.run env m start)) = (2 * i + 1)%nat ->
        length (log l') = (2 * i + 2)%nat ->
        app_call env (nth i App.exampleQuestions [])
          (t0 + 2100 * N.of_nat i + 100) (AppLoop.run env m start) l').

(** The chat component as HomeView.vue's [sendExampleQuestion] leaves it
    for [sendMessage]: the parent's user id as prop, [q] in the input. *)
Definition home_chat (q : list N) (w : World HomeView.State)
  : World ChatInterface.State :=
  {| localStorage := localStorage w;
     component := ChatInterface.set_inputText q (HomeView.chat_of (component w)) |}.

Definition home_messages (w : World HomeView.State) : JsValue :=
  ChatInterface.messages (HomeView.chat (component w)).

(** The turn of the loop from [l] to [l'] is the call that
    [loadExampleQuestions] makes for the question [q] at the instant
    [at_]: a call that finds a send in flight leaves the conversation
    and the requests alone; a call that finds none appends the user
    message for [q], saves the conversation, turns loading on, and
    leaves one request for [q] in flight. *)
Definition home_call (env : Env) (q : list N) (at_ : N)
    (l l' : Loop (World HomeView.State) HomeLoop.Task Request) : Prop :=
  log l' = log l ++ [(at_, HomeLoop.Example q, HomeLoop.busy (world l))] /\
  if HomeLoop.busy (world l)
  then home_messages (world l') = home_messages (world l) /\
       localStorage (world l') = localStorage (world l) /\
       inflight l' = inflight l /\
       issued l' = issued l
  else exists msgs,
    home_messages (world l) = JArr msgs /\
    home_messages (world l') = JArr (msgs ++ [user_message q (iso env at_)]) /\
    stored_history (world l')
      = Some (history_text (JArr (msgs ++ [user_message q (iso env at_)]))) /\
    HomeLoop.busy (world l') = true /\
    inflight l' =
      [(option_map (fun d => (at_ + d)%N) (latency (reply_of env (issued l))),
        chat_request q (home_chat q (world l)),
        result (reply_of env (issued l)))] /\
    issued l' = S (issued l).

(** Every example question of HomeView.vue gets its call, 2000 i ms
    after the start. *)
Definition home_batch_calls (env : Env) (t0 : N) (h : World HomeView.State)
  : Prop :=
  let start := HomeLoop.loadExampleQuestions (HomeLoop.idle_at t0 h) in
  forall i : nat, (i < length HomeView.exampleQuestions)%nat ->
    (exists m l',
        HomeLoop.step env (HomeLoop.run env m start) = Some l' /\
        length (log (HomeLoop.run env m start)) = i /\
        length (log l') = S i) /\
    (forall m l',
        HomeLoop.step env (HomeLoop.run env m start) = Some l' ->
        length (log (HomeLoop.run env m start)) = i ->
        length (log l') = S i ->
        home_call env (nth i HomeView.exampleQuestions [])
          (t0 + N.of_nat i * 2000) (HomeLoop.run env m start) l').

(** What holds of the page of App.vue while [loadExamples] runs: it is
    on its timetable, the conversation is a list, and between the
    staging of question [i] and its send the input holds that question. *)
Definition app_staged (t0 : N) (l : Loop AppLoop.Page AppLoop.Task App.Pending)
  : Prop :=
  app_running t0 l /\
  is_array (app_messages (AppLoop.app (world l))) = true /\
  forall i : nat,
    length (log l) = (2 * i + 1)%nat ->
    (i < length App.exampleQuestions)%nat ->
    App.inputText (component (AppLoop.app (world l)))
      = nth i App.exampleQuestions [].

(** What holds of HomeView.vue while [loadExampleQuestions] runs: it is
    on its timetable, the store stays usable and the conversation a
    list. *)
Definition home_sound (t0 : N)
    (l : Loop (World HomeView.State) HomeLoop.Task Request) : Prop :=
  home_running t0 l /\
  usable (localStorage (world l)) /\
  is_array (home_messages (world l)) = true.

(** A chat component opened on a store whose history is the text of an
    empty object, with " x " typed. *)
Definition chat_object_typed : World ChatInterface.State :=
  with_component (ChatInterface.set_inputText [32; 120; 32]%N) chat_stored_object.

(** The page of HomeView.vue on a store whose history is not JSON. *)
Definition home_garbled : World HomeView.State := home_with (store_with garbled_text).

(** ['user_' + Math.random().toString(36).substr(2, 9)] *)
Definition random_user_id (rnd : list N) : list N := js "user_" ++ substr rnd 2 9.

(** The session id a stored value stands for: [null] and the empty
    string count as none. *)
Definition stored_session {C : Type} (w : World C) : option (list N) :=
  present (items (localStorage w) !! k_session_id).

Definition stored_user_id {C : Type} (w : World C) : option (list N) :=
  items (localStorage w) !! k_user_id.

Definition sample_stamp : list N := Eval vm_compute in js "1714550400000".
Definition later_stamp : list N := Eval vm_compute in js "1714550407250".

(** ** Sessions *)

(** What can happen on the page of App.vue: it is opened at rest; the
    user sends a text; the user starts the example questions; the event
    loop takes a turn. *)
Inductive app_session (env : Env)
  : Loop AppLoop.Page AppLoop.Task App.Pending -> Prop :=
| app_opened (t : N) (w : World App.State) :
    app_loading w = false -> app_session env (AppLoop.idle_at t w)
| app_user_sends (text : list N) l :
    app_session env l -> app_session env (AppLoop.user_send env text l)
| app_examples_started l :
    app_session env l -> app_session env (AppLoop.loadExamples env l)
| app_turn l l' :
    app_session env l -> AppLoop.step env l = Some l' -> app_session env l'.

(** The same for HomeView.vue with its chat component. *)
Inductive home_session (env : Env)
  : Loop (World HomeView.State) HomeLoop.Task Request -> Prop :=
| home_opened (t : N) (w : World HomeView.State) :
    HomeLoop.busy w = false -> home_session env (HomeLoop.idle_at t w)
| home_user_sends (text : list N) l :
    home_session env l -> home_session env (HomeLoop.user_send env text l)
| home_examples_started l :
    home_session env l -> home_session env (HomeLoop.loadExampleQuestions l)
| home_turn l l' :
    home_session env l -> HomeLoop.step env l = Some l' -> home_session env l'.

(** A session on App.vue: the examples are started, the user sends a
    text at once, and the loop takes three turns. *)
Definition app_busy_session : Loop AppLoop.Page AppLoop.Task App.Pending :=
  AppLoop.run env_slow 3
    (AppLoop.user_send env_slow text_x
       (AppLoop.loadExamples env_slow (AppLoop.idle_at 0 app_idle))).

Definition home_busy_session : Loop (World HomeView.State) HomeLoop.Task Request :=
  HomeLoop.run env_slow 3
    (HomeLoop.user_send env_slow text_x
       (HomeLoop.loadExampleQuestions (HomeLoop.idle_at 0 home_idle))).

(** What the service reads from the body of a request of App.vue: the
    question, and the user id when the page has one. *)
Definition app_body (text uid : list N) : JsValue :=
  JObj ((k_question, JStr text) ::
        match uid with
        | [] => []
        | _ => [(k_user_id, JStr uid)]
        end).

(** What it reads from a request of ChatInterface.vue, sent through
    [api.query] with one argument: the whole argument under
    [question], and no [user_id] beside it. *)
Definition chat_body (text uid : list N) (session : option (list N)) : JsValue :=
  JObj [(k_question,
         JObj ([(k_question, JStr text); (k_user_id, JStr uid)] ++
               match session with
               | Some s => [(k_session_id, JStr s)]
               | None => []
               end))].

(** ** The example questions with a quick service *)

(** Every request is answered within [bound] milliseconds. *)
Definition replies_within (env : Env) (bound : N) : Prop :=
  forall n, exists d, latency (reply_of env n) = Some d /\ (d <= bound)%N.

(** When [loadExamples], started at [t0], calls [sendMessage] for
    question [i]. *)
Definition app_fire_time (t0 : N) (i : nat) : N :=
  (t0 + 2100 * N.of_nat i + 100)%N.

(** The time at which request [i] settles, counted from [sent]. *)
Definition settle_time (env : Env) (sent : N) (i : nat) : N :=
  (sent + default 0 (latency (reply_of env i)))%N.

(** The first [k] example questions of App.vue with their answers, as
    they stand in the conversation. *)
Fixpoint app_dialogue (env : Env) (t0 : N) (k : nat) : list JsValue :=
  match k with
  | O => []
  | S i =>
    app_dialogue env t0 i ++
    [user_message (nth i App.exampleQuestions []) (iso env (app_fire_time t0 i));
     app_reply (nth i App.exampleQuestions []) (result (reply_of env i))
       (iso env (settle_time env (app_fire_time t0 i) i))]
  end.

(** What holds while [loadExamples] runs against a quick service, the
    conversation having been [before] at the start: every request so
    far came from a callback that found the page at rest; either all
    are answered, or the last one is in flight since its callback. *)
Definition app_answering (env : Env) (t0 : N) (before : list JsValue)
    (l : Loop AppLoop.Page AppLoop.Task App.Pending) : Prop :=
  issued l = (length (log l) / 2)%nat /\
  Forall (fun e => snd e = false) (log l) /\
  ((inflight l = [] /\
    app_messages (AppLoop.app (world l))
      = JArr (before ++ app_dialogue env t0 (length (log l) / 2))) \/
   (exists (i : nat) (d : N) (request : Request),
       length (log l) = (2 * i + 2)%nat /\
       latency (reply_of env i) = Some d /\
       clock l = app_fire_time t0 i /\
       inflight l =
         [(Some (app_fire_time t0 i + d)%N,
           {| App.sent_text := nth i App.exampleQuestions [];
              App.request := request |},
           result (reply_of env i))] /\
       app_messages (AppLoop.app (world l))
         = JArr (before ++ app_dialogue env t0 i ++
                 [user_message (nth i App.exampleQuestions [])
                    (iso env (app_fire_time t0 i))]))).

(** The outcome of [loadExamples] against a quick service. *)
Definition app_all_answered (env : Env) (t0 : N) (n : nat)
    (before : list JsValue) (a : World App.State) : Prop :=
  let final := AppLoop.run env n (AppLoop.loadExamples env (AppLoop.idle_at t0 a)) in
  AppLoop.step env final = None /\
  issued final = length App.exampleQuestions /\
  inflight final = [] /\
  AppLoop.busy (world final) = false /\
  Forall (fun e => snd e = false) (log final) /\
  app_messages (AppLoop.app (world final))
    = JArr (before ++ app_dialogue env t0 (length App.exampleQuestions)).

(** When [loadExampleQuestions], started at [t0], sends question [i]. *)
Definition home_fire_time (t0 : N) (i : nat) : N := (t0 + N.of_nat i * 2000)%N.

(** The first [k] example questions of HomeView.vue with their answers. *)
Fixpoint home_dialogue (env : Env) (t0 : N) (k : nat) : list JsValue :=
  match k with
  | O => []
  | S i =>
    home_dialogue env t0 i ++
    [user_message (nth i HomeView.exampleQuestions [])
       (iso env (home_fire_time t0 i));
     chat_reply (result (reply_of env i))
       (iso env (settle_time env (home_fire_time t0 i) i))]
  end.

Definition home_answering (env : Env) (t0 : N) (before : list JsValue)
    (l : Loop (World HomeView.State) HomeLoop.Task Request) : Prop :=
  issued l = length (log l) /\
  Forall (fun e => snd e = false) (log l) /\
  ((inflight l = [] /\
    home_messages (world l)
      = JArr (before ++ home_dialogue env t0 (length (log l)))) \/
   (exists (i : nat) (d : N) (request : Request),
       length (log l) = S i /\
       latency (reply_of env i) = Some d /\
       clock l = home_fire_time t0 i /\
       inflight l =
         [(Some (home_fire_time t0 i + d)%N, request, result (reply_of env i))] /\
       home_messages (world l)
         = JArr (before ++ home_dialogue env t0 i ++
                 [user_message (nth i HomeView.exampleQuestions [])
                    (iso env (home_fire_time t0 i))]))).

(** The outcome of [loadExampleQuestions] against a quick service. *)
Definition home_all_answered (env : Env) (t0 : N) (n : nat)
    (before : list JsValue) (h : World HomeView.State) : Prop :=
  let final :=
    HomeLoop.run env n (HomeLoop.loadExampleQuestions (HomeLoop.idle_at t0 h)) in
  HomeLoop.step env final = None /\
  issued final = length HomeView.exampleQuestions /\
  inflight final = [] /\
  HomeLoop.busy (world final) = false /\
  Forall (fun e => snd e = false) (log final) /\
  home_messages (world final)
    = JArr (before ++ home_dialogue env t0 (length HomeView.exampleQuestions)).

(** [messageCount.value] of HomeView.vue. *)
Definition home_count (w : World HomeView.State) : nat :=
  HomeView.messageCount (component w).

(** ** Proofs *)

Arguments JSON.stringify : simpl never.
Arguments JSON.parse : simpl never.
Arguments trim : simpl never.

Ltac unfold_m :=
  unfold bind, ret, throw, gets, modify, lift, read, write, when_,
         try_catch, try_finally, getItem, setItem, removeItem in *.

Lemma chat_rejected now (w : World ChatInterface.State) :
  rejects (ChatInterface.inputText (component w))
          (ChatInterface.loading (component w)) ->
  ChatInterface.sendMessage_start now w = (w, Return None).
Proof.
  intros H. unfold ChatInterface.sendMessage_start, bind, read, gets. simpl.
  destruct H as [H|H]; rewrite H; simpl; [reflexivity|].
  destruct (bool_decide _); reflexivity.
Qed.

Lemma app_rejected now (w : World App.State) :
  rejects (App.inputText (component w)) (App.loading (component w)) ->
  App.sendMessage_start now w = (w, Return None).
Proof.
  intros H. unfold App.sendMessage_start, bind, read, gets. simpl.
  destruct H as [H|H]; rewrite H; simpl; [reflexivity|].
  destruct (bool_decide _); reflexivity.
Qed.

(** C2: a submit whose text trims to the empty string, or that is made
    while a request is in flight, returns at once without a request and
    leaves the whole world, the message list included, as it was; in
    ChatInterface.vue and in App.vue alike. *)
Theorem submit_rejected_is_noop (now : list N)
    (c : World ChatInterface.State) (a : World App.State) :
  (rejects (ChatInterface.inputText (component c))
           (ChatInterface.loading (component c)) ->
   ChatInterface.sendMessage_start now c = (c, Return None)) /\
  (rejects (App.inputText (component a)) (App.loading (component a)) ->
   App.sendMessage_start now a = (a, Return None)).
Proof. split; [apply chat_rejected | apply app_rejected]. Qed.

Lemma submit_rejected_is_noop_witness :
  ChatInterface.sendMessage_start sample_time chat_waiting
    = (chat_waiting, Return None) /\
  App.sendMessage_start sample_time app_blank_input
    = (app_blank_input, Return None).
Proof.
  split.
  - apply (proj1 (submit_rejected_is_noop sample_time chat_waiting app_blank_input)).
    right. reflexivity.
  - apply (proj2 (submit_rejected_is_noop sample_time chat_waiting app_blank_input)).
    left. reflexivity.
Defined.

Lemma present_unreadable saved text :
  unreadable saved -> present saved = Some text -> JSON.parse text = None.
Proof.
  intros [->|(t & -> & Hp)] H; [discriminate|].
  destruct t; simpl in H; [discriminate|]. congruence.
Qed.

Lemma chat_load_unreadable (w : World ChatInterface.State) :
  denied (localStorage w) = false ->
  unreadable (stored_history w) ->
  ChatInterface.loadHistory w =
    (with_component
       (ChatInterface.set_messages
          (JArr (ChatInterface.initialMessages (component w)))) w,
     Return tt).
Proof.
  intros Hd Hu. unfold ChatInterface.loadHistory, ChatInterface.reset_messages.
  unfold_m. rewrite Hd. fold (stored_history w).
  destruct (present (stored_history w)) as [text|] eqn:Hp; [|reflexivity].
  unfold JSON_parse. rewrite (present_unreadable _ _ Hu Hp). reflexivity.
Qed.

Lemma app_load_unreadable (w : World App.State) :
  denied (localStorage w) = false ->
  unreadable (stored_history w) ->
  App.loadHistory w = (w, Return tt).
Proof.
  intros Hd Hu. unfold App.loadHistory. unfold_m. rewrite Hd.
  fold (stored_history w).
  destruct (present (stored_history w)) as [text|] eqn:Hp; [|reflexivity].
  unfold JSON_parse. rewrite (present_unreadable _ _ Hu Hp). reflexivity.
Qed.

(** C7: when the persisted history does not parse, [loadHistory] returns
    normally and the conversation is exactly the one greeting message
    (role assistant, the fixed text, the time the page was set up); the
    result is the same when there is no persisted history at all. In
    App.vue the load leaves the conversation as the script set it up,
    which is that greeting. *)
Theorem load_malformed_gives_greeting (t : list N)
    (c : World ChatInterface.State) (a : World App.State) :
  (denied (localStorage c) = false ->
   unreadable (stored_history c) ->
   ChatInterface.initialMessages (component c) = [ChatInterface.greeting t] ->
   snd (ChatInterface.loadHistory c) = Return tt /\
   chat_messages (fst (ChatInterface.loadHistory c))
     = JArr [message s_assistant (JStr ChatInterface.greeting_content) (JStr t) []]) /\
  (denied (localStorage a) = false ->
   unreadable (stored_history a) ->
   app_messages a = JArr [App.greeting t] ->
   snd (App.loadHistory a) = Return tt /\
   app_messages (fst (App.loadHistory a))
     = JArr [message s_assistant (JStr App.greeting_content) (JStr t) []]).
Proof.
  split.
  - intros Hd Hu Hi. rewrite (chat_load_unreadable c Hd Hu), Hi. split; reflexivity.
  - intros Hd Hu Hm. rewrite (app_load_unreadable a Hd Hu). split; [reflexivity|exact Hm].
Qed.

Lemma load_malformed_gives_greeting_witness :
  (snd (ChatInterface.loadHistory chat_garbled) = Return tt /\
   chat_messages (fst (ChatInterface.loadHistory chat_garbled))
     = JArr [message s_assistant (JStr ChatInterface.greeting_content) (JStr sample_time) []]) /\
  (snd (App.loadHistory app_garbled) = Return tt /\
   app_messages (fst (App.loadHistory app_garbled))
     = JArr [message s_assistant (JStr App.greeting_content) (JStr sample_time) []]).
Proof.
  split.
  - apply (proj1 (load_malformed_gives_greeting sample_time chat_garbled app_garbled)).
    + reflexivity.
    + right. exists garbled_text. split; vm_compute; reflexivity.
    + reflexivity.
  - apply (proj2 (load_malformed_gives_greeting sample_time chat_garbled app_garbled)).
    + reflexivity.
    + right. exists garbled_text. split; vm_compute; reflexivity.
    + reflexivity.
Defined.

Lemma app_load_not_a_history (w : World App.State) text v :
  denied (localStorage w) = false ->
  stored_history w = Some text ->
  JSON.parse text = Some v ->
  App.nonempty_array v = false ->
  App.loadHistory w = (w, Return tt).
Proof.
  intros Hd Hs Hp Hn. unfold App.loadHistory. unfold_m. rewrite Hd.
  fold (stored_history w). rewrite Hs.
  destruct text as [|ch r]; [reflexivity|]. simpl.
  unfold JSON_parse. rewrite Hp. rewrite Hn, andb_false_r. reflexivity.
Qed.

Lemma chat_load_installs (w : World ChatInterface.State) text v :
  denied (localStorage w) = false ->
  stored_history w = Some text ->
  JSON.parse text = Some v ->
  ChatInterface.loadHistory w =
    (with_component (ChatInterface.set_messages v) w, Return tt).
Proof.
  intros Hd Hs Hp. unfold ChatInterface.loadHistory. unfold_m. rewrite Hd.
  fold (stored_history w). rewrite Hs.
  destruct text as [|ch r]; [vm_compute in Hp; discriminate|]. simpl.
  unfold JSON_parse. rewrite Hp. reflexivity.
Qed.

(** C10, where ChatInterface.vue departs from it: with the text of an
    empty object persisted, [loadHistory] installs that object as the
    conversation in place of the greeting, and the next [sendMessage]
    throws a TypeError at its first [push]. App.vue keeps the greeting
    ([app_load_not_a_history]). *)
Theorem chat_loadHistory_installs_object :
  stored_history chat_stored_object = Some empty_object_text /\
  chat_messages (fst (ChatInterface.loadHistory chat_stored_object)) = JObj [] /\
  snd (ChatInterface.sendMessage_start later_time
         (with_component (ChatInterface.set_inputText [120%N])
            (fst (ChatInterface.loadHistory chat_stored_object))))
    = Throw TypeError.
Proof. vm_compute. repeat split; reflexivity. Qed.

Lemma chat_clear_confirmed (w : World ChatInterface.State) :
  denied (localStorage w) = false ->
  ChatInterface.clearChat true w =
    (with_items (delete k_chat_history)
       (with_component
          (ChatInterface.set_messages
             (JArr (ChatInterface.initialMessages (component w)))) w),
     Return tt).
Proof.
  intros Hd. unfold ChatInterface.clearChat, ChatInterface.reset_messages,
    ChatInterface.scrollToBottom.
  unfold_m. simpl. rewrite Hd. reflexivity.
Qed.

Lemma app_clear_confirmed now (w : World App.State) :
  denied (localStorage w) = false ->
  App.clearChat true now w =
    (with_items (delete k_chat_history)
       (with_component (App.set_messages (JArr [App.greeting now])) w),
     Return tt).
Proof.
  intros Hd. unfold App.clearChat. unfold_m. simpl. rewrite Hd. reflexivity.
Qed.

Lemma stored_history_deleted {C : Type} (w : World C) :
  stored_history (with_items (delete k_chat_history) w) = None.
Proof. unfold stored_history. simpl. apply lookup_delete_eq. Qed.

(** C8: after a confirmed [clearChat] on a usable store the conversation
    is exactly the one greeting message and the store holds no history.
    A [loadHistory] that follows returns normally and gives the greeting
    again: on the page as it stands, and on a page opened anew on the
    store the reset left, whatever its refs hold before the load (a new
    ChatInterface.vue starts from an empty list and takes the greeting
    from its initial messages; a new App.vue starts from its greeting
    and the load leaves it). *)
Theorem reset_gives_greeting_and_clears (t t' now : list N)
    (c : World ChatInterface.State) (a : World App.State)
    (chat_new : ChatInterface.State) (app_new : App.State) :
  (denied (localStorage c) = false ->
   ChatInterface.initialMessages (component c) = [ChatInterface.greeting t] ->
   ChatInterface.initialMessages chat_new = [ChatInterface.greeting t'] ->
   let c' := fst (ChatInterface.clearChat true c) in
   let again := ChatInterface.loadHistory (reopened (localStorage c') chat_new) in
   snd (ChatInterface.clearChat true c) = Return tt /\
   chat_messages c' = JArr [ChatInterface.greeting t] /\
   stored_history c' = None /\
   snd (ChatInterface.loadHistory c') = Return tt /\
   chat_messages (fst (ChatInterface.loadHistory c'))
     = JArr [ChatInterface.greeting t] /\
   snd again = Return tt /\
   chat_messages (fst again) = JArr [ChatInterface.greeting t']) /\
  (denied (localStorage a) = false ->
   App.messages app_new = JArr [App.greeting t'] ->
   let a' := fst (App.clearChat true now a) in
   let again := App.loadHistory (reopened (localStorage a') app_new) in
   snd (App.clearChat true now a) = Return tt /\
   app_messages a' = JArr [App.greeting now] /\
   stored_history a' = None /\
   snd (App.loadHistory a') = Return tt /\
   app_messages (fst (App.loadHistory a')) = JArr [App.greeting now] /\
   snd again = Return tt /\
   app_messages (fst again) = JArr [App.greeting t']).
Proof.
  split.
  - intros Hd Hi Hn. rewrite (chat_clear_confirmed c Hd). cbn zeta. simpl fst. simpl snd.
    rewrite chat_load_unreadable.
    + rewrite chat_load_unreadable.
      * simpl. rewrite Hi, Hn. split_and!; try reflexivity.
        apply stored_history_deleted.
      * exact Hd.
      * left. apply (stored_history_deleted c).
    + exact Hd.
    + left. apply stored_history_deleted.
  - intros Hd Hn. rewrite (app_clear_confirmed now a Hd). cbn zeta. simpl fst. simpl snd.
    rewrite app_load_unreadable.
    + rewrite app_load_unreadable.
      * simpl. split_and!; try reflexivity; try exact Hn.
        apply stored_history_deleted.
      * exact Hd.
      * left. apply (stored_history_deleted a).
    + exact Hd.
    + left. apply stored_history_deleted.
Qed.

Lemma healthCheck_reachable (reply : FetchOutcome) :
  Api.healthCheck_result reply = true <->
  exists status body, reply = FetchResponse status body /\ response_ok status = true.
Proof.
  destruct reply as [|status body]; simpl.
  - split; [discriminate|]. intros (? & ? & ? & _). discriminate.
  - split; [eauto|]. intros (s & b & H & Hok). congruence.
Qed.

Lemma app_checkConnection (reply : FetchOutcome) (w : World App.State) :
  App.checkConnection_resume reply w =
    (with_component
       (App.set_connectionStatus
          (if Api.healthCheck_result reply then App.connected
           else App.disconnected)) w,
     Return tt).
Proof.
  unfold App.checkConnection_resume. unfold_m.
  destruct reply as [|status body]; simpl; [reflexivity|].
  destruct (response_ok status); reflexivity.
Qed.

Lemma home_refreshStatus_always_disconnected (reply : FetchOutcome)
    (w : World HomeView.State) :
  HomeView.refreshStatus_resume reply w =
    (with_component
       (HomeView.set_status HomeView.disconnected HomeView.text_abnormal) w,
     Return tt).
Proof. reflexivity. Qed.

(** C9, where HomeView.vue departs from it: the health request is
    answered 200, [api.healthCheck] resolves to [true] and App.vue's
    [checkConnection] reports connected, but [refreshStatus] reads
    [.status] of that boolean, finds [undefined], and reports
    disconnected. *)
Theorem home_refreshStatus_healthy_reports_disconnected :
  Api.healthCheck_result health_ok = true /\
  App.connectionStatus
    (component (fst (App.checkConnection_resume health_ok
                       (app_with blank_store [] false))))
    = App.connected /\
  HomeView.systemStatus
    (component (fst (HomeView.refreshStatus_resume health_ok
                       (home_with blank_store))))
    = HomeView.disconnected.
Proof. repeat split; reflexivity. Qed.

Lemma chat_save_unavailable (w : World ChatInterface.State) :
  unavailable (localStorage w) ->
  ChatInterface.saveHistory w = (w, Throw StorageError).
Proof.
  intros H. unfold ChatInterface.saveHistory. unfold_m. simpl.
  destruct H as [H|H]; rewrite H; [|rewrite orb_true_r]; reflexivity.
Qed.

Lemma app_save_unavailable (w : World App.State) :
  unavailable (localStorage w) ->
  App.saveHistory w = (w, Throw StorageError).
Proof.
  intros H. unfold App.saveHistory. unfold_m. simpl.
  destruct H as [H|H]; rewrite H; [|rewrite orb_true_r]; reflexivity.
Qed.

Lemma home_saveUserId_unavailable (w : World HomeView.State) :
  unavailable (localStorage w) ->
  HomeView.saveUserId w = (w, Throw StorageError).
Proof.
  intros H. unfold HomeView.saveUserId. unfold_m. simpl.
  destruct H as [H|H]; rewrite H; [|rewrite orb_true_r]; reflexivity.
Qed.

Lemma app_saveUserId_unavailable (w : World App.State) :
  unavailable (localStorage w) ->
  App.saveUserId w = (w, Throw StorageError).
Proof.
  intros H. unfold App.saveUserId. unfold_m. simpl.
  destruct H as [H|H]; rewrite H; [|rewrite orb_true_r]; reflexivity.
Qed.

Lemma chat_load_denied (w : World ChatInterface.State) :
  denied (localStorage w) = true ->
  ChatInterface.loadHistory w = (w, Throw StorageError).
Proof.
  intros H. unfold ChatInterface.loadHistory. unfold_m. rewrite H. reflexivity.
Qed.

Lemma app_load_denied (w : World App.State) :
  denied (localStorage w) = true ->
  App.loadHistory w = (w, Throw StorageError).
Proof.
  intros H. unfold App.loadHistory. unfold_m. rewrite H. reflexivity.
Qed.

Lemma query_fails_throws (reply : FetchOutcome) :
  query_fails reply -> exists e, Api.query_result reply = Throw e.
Proof.
  intros [->|(status & body & -> & [H|H])]; simpl.
  - eauto.
  - rewrite H. simpl. eauto.
  - destruct (response_ok status); simpl; [|eauto].
    unfold response_json, JSON_parse. rewrite H. eauto.
Qed.

Lemma chat_send_failed (now later text : list N) (l : list JsValue)
    (reply : FetchOutcome) (w : World ChatInterface.State) :
  query_fails reply ->
  text <> [] ->
  usable (localStorage w) ->
  chat_messages w = JArr l ->
  chat_loading w = false ->
  trim (ChatInterface.inputText (component w)) = text ->
  snd (ChatInterface.sendMessage now reply later w) = Return tt /\
  chat_messages (fst (ChatInterface.sendMessage now reply later w))
    = JArr (l ++ [user_message text now; ChatInterface.error_message later]) /\
  chat_loading (fst (ChatInterface.sendMessage now reply later w)) = false.
Proof.
  intros Hf Hne [Hd Hfull] Hm Hl Ht.
  destruct (query_fails_throws reply Hf) as [e He].
  destruct w as [[d f it] [init msgs inp ld uid]].
  unfold chat_messages, chat_loading in *. simpl in *. subst d f msgs ld.
  unfold ChatInterface.sendMessage, ChatInterface.sendMessage_start,
    ChatInterface.sendMessage_resume, ChatInterface.settle,
    ChatInterface.push, ChatInterface.saveHistory, ChatInterface.query_argument,
    ChatInterface.emit, ChatInterface.scrollToBottom, ChatInterface.console_error.
  unfold_m. simpl. rewrite Ht.
  rewrite bool_decide_eq_false_2 by exact Hne. simpl.
  rewrite He. simpl.
  rewrite <- app_assoc. simpl. repeat split; reflexivity.
Qed.

Lemma app_send_failed (now later text : list N) (l : list JsValue)
    (reply : FetchOutcome) (w : World App.State) :
  query_fails reply ->
  text <> [] ->
  usable (localStorage w) ->
  app_messages w = JArr l ->
  app_loading w = false ->
  trim (App.inputText (component w)) = text ->
  snd (App.sendMessage now reply later w) = Return tt /\
  app_messages (fst (App.sendMessage now reply later w))
    = JArr (l ++ [user_message text now; App.mock_message text later]) /\
  app_loading (fst (App.sendMessage now reply later w)) = false.
Proof.
  intros Hf Hne [Hd Hfull] Hm Hl Ht.
  destruct w as [[d f it] [msgs inp ld cs uid]].
  unfold app_messages, app_loading in *. simpl in *. subst d f msgs ld.
  unfold App.sendMessage, App.sendMessage_start, App.sendMessage_resume,
    App.push, App.saveHistory, App.autoResize, App.scrollToBottom,
    App.console_error.
  unfold_m. simpl. rewrite Ht.
  rewrite bool_decide_eq_false_2 by exact Hne. simpl.
  destruct Hf as [->|(status & body & -> & [H|H])]; simpl.
  - rewrite <- app_assoc. repeat split; reflexivity.
  - rewrite H. simpl. rewrite <- app_assoc. repeat split; reflexivity.
  - destruct (response_ok status); simpl.
    + unfold response_json, JSON_parse. rewrite H. simpl.
      rewrite <- app_assoc. repeat split; reflexivity.
    + rewrite <- app_assoc. repeat split; reflexivity.
Qed.

(** C1 as the code has it: a submit of text that trims to something, made
    at rest on a usable store, whose query fails (fetch rejected, status
    not a success, or body not JSON) returns normally, leaves exactly the
    user message and one assistant message appended, and ends with
    [loading] false. In ChatInterface.vue the assistant message is the
    fixed apology with empty retrieval context; in App.vue it is the
    stand-in answer that quotes the question. *)
Theorem failed_query_appends_one_reply (now later text : list N)
    (l : list JsValue) (reply : FetchOutcome)
    (c : World ChatInterface.State) (a : World App.State) :
  query_fails reply ->
  text <> [] ->
  (usable (localStorage c) -> chat_messages c = JArr l ->
   chat_loading c = false ->
   trim (ChatInterface.inputText (component c)) = text ->
   snd (ChatInterface.sendMessage now reply later c) = Return tt /\
   chat_messages (fst (ChatInterface.sendMessage now reply later c))
     = JArr (l ++ [user_message text now; ChatInterface.error_message later]) /\
   chat_loading (fst (ChatInterface.sendMessage now reply later c)) = false) /\
  (usable (localStorage a) -> app_messages a = JArr l ->
   app_loading a = false ->
   trim (App.inputText (component a)) = text ->
   snd (App.sendMessage now reply later a) = Return tt /\
   app_messages (fst (App.sendMessage now reply later a))
     = JArr (l ++ [user_message text now; App.mock_message text later]) /\
   app_loading (fst (App.sendMessage now reply later a)) = false).
Proof.
  intros Hf Hne. split; intros; [apply chat_send_failed | apply app_send_failed];
    assumption.
Qed.

Lemma failed_query_appends_one_reply_witness :
  (snd (ChatInterface.sendMessage sample_time server_error later_time chat_asking)
     = Return tt /\
   chat_messages (fst (ChatInterface.sendMessage sample_time server_error
                         later_time chat_asking))
     = JArr ([ChatInterface.greeting sample_time] ++
             [user_message text_x sample_time;
              ChatInterface.error_message later_time]) /\
   chat_loading (fst (ChatInterface.sendMessage sample_time server_error
                        later_time chat_asking)) = false) /\
  (snd (App.sendMessage sample_time server_error later_time app_asking)
     = Return tt /\
   app_messages (fst (App.sendMessage sample_time server_error later_time
                        app_asking))
     = JArr ([App.greeting sample_time] ++
             [user_message text_x sample_time;
              App.mock_message text_x later_time]) /\
   app_loading (fst (App.sendMessage sample_time server_error later_time
                       app_asking)) = false).
Proof.
  assert (Hf : query_fails server_error).
  { right. exists 500%Z, []. split; [reflexivity | left; reflexivity]. }
  assert (Hne : text_x <> []) by discriminate.
  split.
  - apply (proj1 (failed_query_appends_one_reply sample_time later_time text_x
                    [ChatInterface.greeting sample_time] server_error
                    chat_asking app_asking Hf Hne)).
    + split; reflexivity.
    + reflexivity.
    + reflexivity.
    + reflexivity.
  - apply (proj2 (failed_query_appends_one_reply sample_time later_time text_x
                    [App.greeting sample_time] server_error
                    chat_asking app_asking Hf Hne)).
    + split; reflexivity.
    + reflexivity.
    + reflexivity.
    + reflexivity.
Defined.

(** C1 as stated fails in App.vue: with the fetch rejected, the assistant
    message appended is not the apology, and its retrieval context is not
    empty. *)
Lemma app_failed_query_is_not_the_apology :
  let m := last_message
             (app_messages (fst (App.sendMessage sample_time FetchRejected
                                   later_time app_asking))) in
  get_prop_opt m k_role = JStr s_assistant /\
  get_prop_opt m k_content <> JStr ChatInterface.error_content /\
  get_prop_opt (get_prop_opt m k_context) k_knowledge <> JArr [] /\
  get_prop_opt (get_prop_opt m k_context) k_subQuestions <> JArr [].
Proof. vm_compute. repeat split; discriminate. Qed.

Lemma home_generateUserId_unavailable rnd (w : World HomeView.State) :
  unavailable (localStorage w) ->
  HomeView.generateUserId rnd w =
    (with_component (HomeView.set_userId (js "user_" ++ substr rnd 2 9)) w,
     Throw StorageError).
Proof.
  intros H. unfold HomeView.generateUserId, HomeView.saveUserId. unfold_m.
  simpl. destruct H as [H|H]; rewrite H; [|rewrite orb_true_r]; reflexivity.
Qed.

(** C4 as the code has it: nothing catches a failing store. With the
    store denied or full, saving the history and saving the user id throw
    the storage error to their caller with the refs and the store as they
    were, and generating a user id sets the ref and then throws; with the
    store denied, loading the history throws as well. *)
Theorem storage_failure_is_thrown (rnd : list N)
    (c : World ChatInterface.State) (a : World App.State)
    (h : World HomeView.State) :
  (unavailable (localStorage c) ->
   ChatInterface.saveHistory c = (c, Throw StorageError)) /\
  (unavailable (localStorage a) ->
   App.saveHistory a = (a, Throw StorageError) /\
   App.saveUserId a = (a, Throw StorageError)) /\
  (unavailable (localStorage h) ->
   HomeView.saveUserId h = (h, Throw StorageError) /\
   HomeView.generateUserId rnd h =
     (with_component (HomeView.set_userId (js "user_" ++ substr rnd 2 9)) h,
      Throw StorageError)) /\
  (denied (localStorage c) = true ->
   ChatInterface.loadHistory c = (c, Throw StorageError)) /\
  (denied (localStorage a) = true ->
   App.loadHistory a = (a, Throw StorageError)).
Proof.
  split; [|split; [|split; [|split]]].
  - apply chat_save_unavailable.
  - intros H. split; [by apply app_save_unavailable | by apply app_saveUserId_unavailable].
  - intros H. split; [by apply home_saveUserId_unavailable
                     | by apply home_generateUserId_unavailable].
  - apply chat_load_denied.
  - apply app_load_denied.
Qed.

Lemma storage_failure_is_thrown_witness :
  ChatInterface.saveHistory (chat_with full_store [] false)
    = (chat_with full_store [] false, Throw StorageError) /\
  App.saveHistory (app_with sealed_store [] false)
    = (app_with sealed_store [] false, Throw StorageError) /\
  HomeView.saveUserId (home_with full_store)
    = (home_with full_store, Throw StorageError) /\
  ChatInterface.loadHistory (chat_with sealed_store [] false)
    = (chat_with sealed_store [] false, Throw StorageError) /\
  App.loadHistory (app_with sealed_store [] false)
    = (app_with sealed_store [] false, Throw StorageError).
Proof.
  pose proof (storage_failure_is_thrown random_text
                (chat_with full_store [] false) (app_with sealed_store [] false)
                (home_with full_store)) as (Hc & Ha & Hh & _ & Hal).
  pose proof (storage_failure_is_thrown random_text
                (chat_with sealed_store [] false) (app_with sealed_store [] false)
                (home_with full_store)) as (_ & _ & _ & Hcl & _).
  split; [|split; [|split; [|split]]].
  - apply Hc. right. reflexivity.
  - apply Ha. left. reflexivity.
  - apply Hh. right. reflexivity.
  - apply Hcl. reflexivity.
  - apply Hal. reflexivity.
Defined.

(** C4 as stated fails: on a store with no room left, saving the user id
    and saving the history signal the error to their caller, and a
    [sendMessage] in ChatInterface.vue is rejected after it has appended
    the user message, before any request is made. *)
Lemma full_store_signals_error :
  snd (HomeView.saveUserId (home_with full_store)) = Throw StorageError /\
  snd (ChatInterface.saveHistory (chat_with full_store [] false))
    = Throw StorageError /\
  ChatInterface.sendMessage_start sample_time
    (chat_with full_store text_x false)
    = (with_component
         (fun s => ChatInterface.set_inputText []
                     (ChatInterface.set_messages
                        (JArr [ChatInterface.greeting sample_time;
                               user_message text_x sample_time]) s))
         (chat_with full_store text_x false),
       Throw StorageError).
Proof. repeat split; reflexivity. Qed.

Lemma reset_gives_greeting_and_clears_witness :
  (snd (ChatInterface.clearChat true chat_talked) = Return tt /\
   chat_messages (fst (ChatInterface.clearChat true chat_talked))
     = JArr [ChatInterface.greeting sample_time] /\
   stored_history (fst (ChatInterface.clearChat true chat_talked)) = None /\
   snd (ChatInterface.loadHistory (fst (ChatInterface.clearChat true chat_talked)))
     = Return tt /\
   chat_messages
     (fst (ChatInterface.loadHistory (fst (ChatInterface.clearChat true chat_talked))))
     = JArr [ChatInterface.greeting sample_time] /\
   snd (ChatInterface.loadHistory
          (reopened (localStorage (fst (ChatInterface.clearChat true chat_talked)))
             (ChatInterface.setup later_time JUndefined)))
     = Return tt /\
   chat_messages
     (fst (ChatInterface.loadHistory
             (reopened (localStorage (fst (ChatInterface.clearChat true chat_talked)))
                (ChatInterface.setup later_time JUndefined))))
     = JArr [ChatInterface.greeting later_time]) /\
  (snd (App.clearChat true later_time app_talked) = Return tt /\
   app_messages (fst (App.clearChat true later_time app_talked))
     = JArr [App.greeting later_time] /\
   stored_history (fst (App.clearChat true later_time app_talked)) = None /\
   snd (App.loadHistory (fst (App.clearChat true later_time app_talked)))
     = Return tt /\
   app_messages
     (fst (App.loadHistory (fst (App.clearChat true later_time app_talked))))
     = JArr [App.greeting later_time] /\
   snd (App.loadHistory
          (reopened (localStorage (fst (App.clearChat true later_time app_talked)))
             app_fresh))
     = Return tt /\
   app_messages
     (fst (App.loadHistory
             (reopened (localStorage (fst (App.clearChat true later_time app_talked)))
                app_fresh)))
     = JArr [App.greeting later_time]).
Proof.
  split.
  - apply (proj1 (reset_gives_greeting_and_clears sample_time later_time later_time
                    chat_talked app_talked
                    (ChatInterface.setup later_time JUndefined) app_fresh));
      reflexivity.
  - apply (proj2 (reset_gives_greeting_and_clears sample_time later_time later_time
                    chat_talked app_talked
                    (ChatInterface.setup later_time JUndefined) app_fresh));
      reflexivity.
Defined.

(** *** The event loop *)

Section EventLoopFacts.

Context {W Task K : Type}.
Variable on_timer : Task -> list N -> W -> W * list (N * Task) * option K.
Variable on_reply : K -> FetchOutcome -> list N -> W -> W.
Variable busy : W -> bool.
Variable env : Env.

Local Abbreviation stepL := (step on_timer on_reply busy env).
Local Abbreviation runL := (run on_timer on_reply busy env).
Local Abbreviation fireL := (fire on_timer busy env).
Local Abbreviation deliverL := (@deliver W Task K on_reply env).
Local Abbreviation orderly := (@one_at_a_time W Task K busy).

Lemma pick_reply_length (rs : list (option N * K * FetchOutcome)) x rest :
  pick_reply rs = Some (x, rest) -> length rs = S (length rest).
Proof.
  revert x rest. induction rs as [|[[[t|] k] o] r IH]; intros x rest H; simpl in H.
  - discriminate.
  - destruct (pick_reply r) as [[[[t' k'] o'] r']|] eqn:E.
    + destruct (t' <? t)%N; inversion H; subst; simpl; [|reflexivity].
      f_equal. eapply IH. reflexivity.
    + inversion H; subst. reflexivity.
  - destruct (pick_reply r) as [[u r']|] eqn:E; [|discriminate].
    inversion H; subst. simpl. f_equal. eapply IH. reflexivity.
Qed.

(** A turn of the loop delivers a reply, due no later than the first
    timer, or runs a timer callback. *)
Lemma step_cases (l l' : Loop W Task K) :
  stepL l = Some l' ->
  (exists t k o rest,
      pick_reply (inflight l) = Some ((t, k, o), rest) /\
      l' = deliverL t k o rest l /\
      (forall due task ts,
          pick_timer (timers l) = Some ((due, task), ts) -> (t <= due)%N)) \/
  (exists due task ts,
      pick_timer (timers l) = Some ((due, task), ts) /\
      l' = fireL due task ts l).
Proof.
  unfold step. intros H.
  destruct (pick_reply (inflight l)) as [[[[t k] o] rest]|] eqn:Er;
    destruct (pick_timer (timers l)) as [[[due task] ts]|] eqn:Et.
  - destruct (N.leb_spec t due); inversion H; subst.
    + left. exists t, k, o, rest. repeat split. intros ? ? ? [= -> _ _]. assumption.
    + right. eauto.
  - inversion H; subst. left. exists t, k, o, rest. repeat split. discriminate.
  - inversion H; subst. right. eauto.
  - discriminate.
Qed.

(** The senders keep to one request at a time when a callback starts a
    request only while not busy, turning busy, and otherwise leaves
    [busy] alone, and when a reply ends the business. *)
Hypothesis start_discipline :
  forall task now w w' new started,
    on_timer task now w = (w', new, started) ->
    match started with
    | Some _ => busy w = false /\ busy w' = true
    | None => busy w' = busy w
    end.

Hypothesis reply_discipline :
  forall k o now w, busy (on_reply k o now w) = false.

Lemma fire_orderly due task ts (l : Loop W Task K) :
  orderly l -> orderly (fireL due task ts l).
Proof.
  intros Hl. unfold fire.
  destruct (on_timer task _ (world l)) as [[w new] started] eqn:E.
  apply start_discipline in E. unfold one_at_a_time in *. simpl.
  destruct started as [k|].
  - destruct E as [Hb Hb']. destruct Hl as [[Hi _]|(x & _ & Hx)]; [|congruence].
    right. rewrite Hi. simpl. eauto.
  - rewrite E, app_nil_r. exact Hl.
Qed.

Lemma deliver_orderly t k o rest (l : Loop W Task K) :
  orderly l -> pick_reply (inflight l) = Some ((t, k, o), rest) ->
  orderly (deliverL t k o rest l).
Proof.
  intros Hl Hp. unfold one_at_a_time, deliver in *. simpl.
  left. split; [|apply reply_discipline].
  apply pick_reply_length in Hp.
  destruct Hl as [[Hi _]|(x & Hi & _)]; rewrite Hi in Hp; simpl in Hp.
  - discriminate.
  - destruct rest; [reflexivity | discriminate].
Qed.

Lemma step_orderly (l l' : Loop W Task K) :
  orderly l -> stepL l = Some l' -> orderly l'.
Proof.
  intros Hl Hs. destruct (step_cases l l' Hs)
    as [(t & k & o & rest & Hp & -> & _)|(due & task & ts & _ & ->)].
  - by apply deliver_orderly.
  - by apply fire_orderly.
Qed.

Lemma run_orderly n (l : Loop W Task K) :
  orderly l -> orderly (runL n l).
Proof.
  revert l. induction n as [|n IH]; intros l Hl; simpl; [exact Hl|].
  destruct (stepL l) as [l'|] eqn:E; [|exact Hl].
  apply IH. eapply step_orderly; eassumption.
Qed.

Lemma orderly_length (l : Loop W Task K) :
  orderly l -> (length (inflight l) <= 1)%nat.
Proof. intros [[-> _]|(x & -> & _)]; simpl; lia. Qed.

(** The loop comes to rest when every turn lowers a measure. *)
Variable Inv : Loop W Task K -> Prop.
Variable potential : Loop W Task K -> nat.

Hypothesis step_lowers :
  forall l l', Inv l -> stepL l = Some l' ->
               Inv l' /\ (potential l' < potential l)%nat.

Lemma run_comes_to_rest n (l : Loop W Task K) :
  Inv l -> (potential l <= n)%nat ->
  Inv (runL n l) /\ stepL (runL n l) = None.
Proof.
  revert l. induction n as [|n IH]; intros l Hl Hn; simpl.
  - split; [exact Hl|]. destruct (stepL l) as [l'|] eqn:E; [|reflexivity].
    destruct (step_lowers l l' Hl E). lia.
  - destruct (stepL l) as [l'|] eqn:E; [|by split].
    destruct (step_lowers l l' Hl E). apply IH; [assumption | lia].
Qed.

Lemma run_keeps n (l : Loop W Task K) : Inv l -> Inv (runL n l).
Proof.
  revert l. induction n as [|n IH]; intros l Hl; simpl; [exact Hl|].
  destruct (stepL l) as [l'|] eqn:E; [|exact Hl].
  apply IH. by destruct (step_lowers l l' Hl E).
Qed.

End EventLoopFacts.

(** *** App.vue in the loop *)

Lemma app_start_discipline now (w : World App.State) :
  match App.sendMessage_start now w with
  | (w', Return (Some _)) => app_loading w = false /\ app_loading w' = true
  | (w', _) => app_loading w' = app_loading w
  end.
Proof.
  destruct w as [s [msgs inp ld cs uid]]. unfold app_loading.
  unfold App.sendMessage_start, App.push, App.autoResize, App.scrollToBottom.
  unfold_m. simpl.
  destruct (bool_decide (trim inp = [])); simpl; [reflexivity|].
  destruct ld; simpl; [reflexivity|].
  destruct msgs; simpl; try reflexivity. split; reflexivity.
Qed.

Lemma app_resume_idle text reply now (w : World App.State) :
  app_loading (fst (App.sendMessage_resume text reply now w)) = false.
Proof.
  unfold App.sendMessage_resume, try_finally.
  match goal with |- context [try_catch ?b ?h w] =>
    destruct (try_catch b h w) as [w1 o1] end.
  unfold App.saveHistory, App.scrollToBottom. unfold_m. simpl.
  destruct (denied (localStorage w1) || full (localStorage w1)); reflexivity.
Qed.

Lemma app_on_timer_discipline task now p p' new started :
  AppLoop.on_timer task now p = (p', new, started) ->
  match started with
  | Some _ => AppLoop.busy p = false /\ AppLoop.busy p' = true
  | None => AppLoop.busy p' = AppLoop.busy p
  end.
Proof.
  unfold AppLoop.on_timer, AppLoop.call_sendMessage, AppLoop.busy.
  destruct task as [| |text].
  - destruct (_ <? _)%nat; intros [= <- <- <-]; reflexivity.
  - pose proof (app_start_discipline now (AppLoop.app p)) as H.
    destruct (App.sendMessage_start now (AppLoop.app p)) as [w' [[k|]|e]];
      intros [= <- <- <-]; exact H.
  - pose proof (app_start_discipline now
                  (with_component (App.set_inputText text) (AppLoop.app p))) as H.
    destruct (App.sendMessage_start now _) as [w' [[k|]|e]];
      intros [= <- <- <-]; exact H.
Qed.

Lemma app_on_reply_discipline k o now p :
  AppLoop.busy (AppLoop.on_reply k o now p) = false.
Proof. apply app_resume_idle. Qed.

Lemma app_run_orderly env n l :
  one_at_a_time AppLoop.busy l ->
  one_at_a_time AppLoop.busy (AppLoop.run env n l).
Proof.
  apply run_orderly.
  - apply app_on_timer_discipline.
  - apply app_on_reply_discipline.
Qed.

Arguments app_schedule : simpl never.
Arguments app_callbacks : simpl never.

Lemma take_schedule_snoc (t0 : N) (p : nat) :
  (p < app_callbacks)%nat ->
  take (S p) (app_schedule t0) = take p (app_schedule t0) ++ [app_entry t0 p].
Proof.
  intros Hp. unfold app_schedule. erewrite take_S_r; [reflexivity|].
  rewrite list_lookup_fmap, lookup_seq_lt by exact Hp. reflexivity.
Qed.

Lemma log_length {W Task K : Type} (l : Loop W Task K) (sched : list (N * Task)) p :
  map fst (log l) = take p sched -> (p <= length sched)%nat ->
  length (log l) = p.
Proof.
  intros H Hp. apply (f_equal length) in H.
  rewrite length_map, length_take in H. lia.
Qed.

Lemma parity_cases (p : nat) :
  (exists k, p = (2 * k)%nat /\ Nat.even p = true /\ (p / 2 = k)%nat /\
             Nat.even (S p) = false /\ (S p / 2 = k)%nat) \/
  (exists k, p = (2 * k + 1)%nat /\ Nat.even p = false /\ (p / 2 = k)%nat /\
             Nat.even (S p) = true /\ (S p / 2 = S k)%nat).
Proof.
  destruct (Nat.Even_or_Odd p) as [[k ->]|[k ->]]; [left|right]; exists k.
  - assert (He : Nat.even (2 * k) = true) by (apply Nat.even_spec; by exists k).
    split_and!.
    + reflexivity.
    + exact He.
    + symmetry. apply Nat.div_unique with 0%nat; lia.
    + rewrite Nat.even_succ, <- Nat.negb_even, He. reflexivity.
    + symmetry. apply Nat.div_unique with 1%nat; lia.
  - assert (Ho : Nat.odd (2 * k + 1) = true) by (apply Nat.odd_spec; by exists k).
    split_and!.
    + reflexivity.
    + rewrite <- Nat.negb_odd, Ho. reflexivity.
    + symmetry. apply Nat.div_unique with 1%nat; lia.
    + rewrite Nat.even_succ. exact Ho.
    + symmetry. apply Nat.div_unique with 0%nat; lia.
Qed.

(** A turn of the loop keeps [loadExamples] on its timetable and lowers
    the number of things left to happen. *)
Lemma app_step_running env t0 l l' :
  app_running t0 l -> AppLoop.step env l = Some l' ->
  app_running t0 l' /\
  (loop_potential app_callbacks l' < loop_potential app_callbacks l)%nat.
Proof.
  intros [Ho (p & Hp & Hlog & Htm & Hidx & Hclk)] Hs.
  assert (Hlen : length (log l) = p).
  { eapply log_length; [exact Hlog|]. unfold app_schedule.
    rewrite length_map, length_seq. exact Hp. }
  assert (Ho' : one_at_a_time AppLoop.busy l').
  { eapply step_orderly; [apply app_on_timer_discipline
                         |apply app_on_reply_discipline|exact Ho|exact Hs]. }
  split; [split; [exact Ho'|]|].
  - destruct (step_cases _ _ _ _ _ _ Hs)
      as [(t & k & o & rest & Hpick & -> & Hdue)|(due & task & ts & Hpick & ->)].
    + exists p. simpl. repeat split; try assumption.
      intros Hlt. specialize (Hclk Hlt).
      rewrite Htm in Hdue. apply Nat.ltb_lt in Hlt. rewrite Hlt in Hdue.
      destruct (app_entry t0 p) as [d tk] eqn:E. simpl in *.
      specialize (Hdue d tk [] eq_refl). lia.
    + rewrite Htm in Hpick.
      destruct (p <? app_callbacks)%nat eqn:Hlt; [|discriminate].
      apply Nat.ltb_lt in Hlt. specialize (Hclk Hlt).
      simpl in Hpick. injection Hpick as Hd <-.
      exists (S p). unfold fire.
      destruct (AppLoop.on_timer task _ (world l)) as [[w new] started] eqn:Eon.
      cbn [log timers world clock inflight issued].
      rewrite Hd in Hclk. cbn [fst] in Hclk.
      assert (Hnow : N.max (clock l) due = due) by lia.
      rewrite Hnow in *. clear Hnow.
      rewrite map_app, Hlog, take_schedule_snoc, Hd by exact Hlt.
      cbn [map fst app].
      unfold app_entry in *. unfold app_callbacks in *.
      change (length App.exampleQuestions) with 7%nat in *.
      destruct (parity_cases p)
        as [(k & -> & Hev & Hdiv & Hev' & Hdiv')|(k & -> & Hev & Hdiv & Hev' & Hdiv')];
        rewrite Hev' , Hdiv'; rewrite Hev, Hdiv in Hd; rewrite Hdiv in Hidx;
        injection Hd as <- <-.
      * unfold AppLoop.on_timer in Eon. rewrite Hidx in Eon.
        change (length App.exampleQuestions) with 7%nat in Eon.
        destruct (Nat.ltb_spec k 7); injection Eon as <- <- <-;
          cbn [map fst snd AppLoop.index];
          destruct (Nat.ltb_spec (S (2 * k)) (2 * 7 + 1)); try lia;
          split_and!; try reflexivity; try lia.
      * unfold AppLoop.on_timer in Eon.
        destruct (AppLoop.call_sendMessage _ _) as [w1 st1].
        injection Eon as <- <- <-.
        cbn [map fst snd AppLoop.index].
        destruct (Nat.ltb_spec (S (2 * k + 1)) (2 * 7 + 1)); [|lia].
        split_and!; try reflexivity; try lia;
          try (rewrite Hidx; reflexivity).
        do 2 f_equal. lia.
  - unfold loop_potential.
    destruct (step_cases _ _ _ _ _ _ Hs)
      as [(t & k & o & rest & Hpick & -> & Hdue)|(due & task & ts & Hpick & ->)].
    + cbn [deliver log inflight]. apply pick_reply_length in Hpick. lia.
    + rewrite Htm in Hpick.
      destruct (p <? app_callbacks)%nat eqn:Hlt; [|discriminate].
      apply Nat.ltb_lt in Hlt.
      unfold fire.
      destruct (AppLoop.on_timer task _ (world l)) as [[w new] started].
      cbn [log inflight]. rewrite !length_app. cbn [length].
      destruct started; cbn [length]; lia.
Qed.

Lemma app_loadExamples_running env t0 (w : World App.State) :
  app_loading w = false ->
  app_running t0 (AppLoop.loadExamples env (AppLoop.idle_at t0 w)).
Proof.
  intros Hl. split.
  - left. split; [reflexivity | exact Hl].
  - exists 1%nat. unfold AppLoop.loadExamples, AppLoop.fire, fire, AppLoop.idle_at.
    cbn [clock timers inflight issued world log AppLoop.on_timer AppLoop.index
         AppLoop.app].
    change (0 <? length App.exampleQuestions)%nat with true. cbv iota.
    cbn [clock timers inflight issued world log app map fst snd AppLoop.index].
    rewrite N.max_id. unfold app_callbacks.
    change (length App.exampleQuestions) with 7%nat.
    split_and!.
    + lia.
    + unfold app_schedule, app_callbacks. cbn. do 2 f_equal. lia.
    + cbn. do 2 f_equal. lia.
    + reflexivity.
    + intros _. cbn. lia.
Qed.

Lemma app_run_running env t0 n l :
  app_running t0 l -> app_running t0 (AppLoop.run env n l).
Proof.
  apply (run_keeps AppLoop.on_timer AppLoop.on_reply AppLoop.busy env
           (app_running t0) (loop_potential app_callbacks)).
  intros. by apply (app_step_running env t0).
Qed.

Lemma app_loadExamples_potential env t0 (w : World App.State) :
  loop_potential app_callbacks (AppLoop.loadExamples env (AppLoop.idle_at t0 w))
    = 28%nat.
Proof. reflexivity. Qed.

(** [loadExamples] on App.vue: whatever the replies, the loop comes to
    rest with no timer left, all seven questions passed, every callback
    run at its place in the timetable, and never two requests in flight. *)
Lemma app_batch_run env t0 n (w : World App.State) :
  app_loading w = false -> (28 <= n)%nat ->
  let start := AppLoop.loadExamples env (AppLoop.idle_at t0 w) in
  let final := AppLoop.run env n start in
  AppLoop.step env final = None /\
  timers final = [] /\
  map fst (log final) = app_schedule t0 /\
  AppLoop.index (world final) = length App.exampleQuestions /\
  (forall m, (length (inflight (AppLoop.run env m start)) <= 1)%nat).
Proof.
  intros Hl Hn start final.
  pose proof (app_loadExamples_running env t0 w Hl) as Hstart. fold start in Hstart.
  destruct (run_comes_to_rest AppLoop.on_timer AppLoop.on_reply AppLoop.busy env
              (app_running t0) (loop_potential app_callbacks)
              (fun l l' => app_step_running env t0 l l') n start Hstart)
    as [[Ho (p & Hp & Hlog & Htm & Hidx & Hclk)] Hrest].
  { unfold start. rewrite app_loadExamples_potential. exact Hn. }
  fold (AppLoop.run env n start) in *. fold final in Ho, Hlog, Htm, Hidx, Hclk, Hrest.
  assert (Hp15 : p = app_callbacks).
  { destruct (Nat.ltb_spec p app_callbacks) as [Hlt|Hge]; [|lia].
    exfalso. unfold AppLoop.step, step in Hrest. rewrite Htm in Hrest.
    cbn [pick_timer] in Hrest.
    destruct (pick_reply (inflight final)) as [[[[? ?] ?] ?]|];
      destruct (app_entry t0 p); try destruct (_ <=? _)%N; discriminate. }
  subst p. split_and!.
  - exact Hrest.
  - rewrite Htm. rewrite Nat.ltb_irrefl. reflexivity.
  - rewrite Hlog. unfold app_schedule. apply take_ge.
    rewrite length_map, length_seq. lia.
  - rewrite Hidx. reflexivity.
  - intros m. apply (orderly_length AppLoop.busy).
    apply app_run_orderly. destruct Hstart as [H _]. exact H.
Qed.

(** *** HomeView.vue and its chat component in the loop *)

Lemma chat_start_discipline now (w : World ChatInterface.State) :
  match ChatInterface.sendMessage_start now w with
  | (w', Return (Some _)) => chat_loading w = false /\ chat_loading w' = true
  | (w', _) => chat_loading w' = chat_loading w
  end.
Proof.
  destruct w as [[d f it] [init msgs inp ld uid]]. unfold chat_loading.
  unfold ChatInterface.sendMessage_start, ChatInterface.settle,
    ChatInterface.push, ChatInterface.saveHistory, ChatInterface.query_argument,
    ChatInterface.emit, ChatInterface.scrollToBottom, ChatInterface.console_error.
  unfold_m. simpl.
  destruct (bool_decide (trim inp = [])); simpl; [reflexivity|].
  destruct ld; simpl; [reflexivity|].
  destruct msgs; simpl; try reflexivity.
  destruct d, f; simpl; try reflexivity. split; reflexivity.
Qed.

Lemma chat_resume_idle reply now (w : World ChatInterface.State) :
  chat_loading (fst (ChatInterface.sendMessage_resume reply now w)) = false.
Proof.
  unfold ChatInterface.sendMessage_resume, ChatInterface.settle, try_finally.
  match goal with |- context [try_catch ?b ?h w] =>
    destruct (try_catch b h w) as [w1 o1] end.
  unfold ChatInterface.saveHistory, ChatInterface.scrollToBottom. unfold_m. simpl.
  destruct (denied (localStorage w1) || full (localStorage w1)); reflexivity.
Qed.

Lemma home_on_timer_discipline task now w w' new started :
  HomeLoop.on_timer task now w = (w', new, started) ->
  match started with
  | Some _ => HomeLoop.busy w = false /\ HomeLoop.busy w' = true
  | None => HomeLoop.busy w' = HomeLoop.busy w
  end.
Proof.
  assert (H : forall q,
    match HomeView.sendExampleQuestion q now w with
    | (w1, Return (Some _)) => HomeLoop.busy w = false /\ HomeLoop.busy w1 = true
    | (w1, _) => HomeLoop.busy w1 = HomeLoop.busy w
    end).
  { intros q. unfold HomeView.sendExampleQuestion, HomeView.in_chat, zoom, bind, write,
      modify, HomeLoop.busy.
    cbn [fst snd with_component component localStorage].
    match goal with |- context [ChatInterface.sendMessage_start now ?x] =>
      pose proof (chat_start_discipline now x) as Hd;
      destruct (ChatInterface.sendMessage_start now x) as [w1 [[k|]|e]] end;
      cbn [component HomeView.chat HomeView.set_chat]; exact Hd. }
  unfold HomeLoop.on_timer.
  destruct task as [q|q]; specialize (H q);
    destruct (HomeView.sendExampleQuestion q now w) as [w1 [[k|]|e]];
    intros [= <- <- <-]; exact H.
Qed.

Lemma home_on_reply_discipline k o now w :
  HomeLoop.busy (HomeLoop.on_reply k o now w) = false.
Proof.
  unfold HomeLoop.on_reply, HomeLoop.busy, HomeView.in_chat, zoom.
  match goal with |- context [ChatInterface.sendMessage_resume o now ?x] =>
    pose proof (chat_resume_idle o now x) as H;
    destruct (ChatInterface.sendMessage_resume o now x) as [w1 o1] end.
  exact H.
Qed.

Lemma home_run_orderly env n l :
  one_at_a_time HomeLoop.busy l ->
  one_at_a_time HomeLoop.busy (HomeLoop.run env n l).
Proof.
  apply run_orderly.
  - apply home_on_timer_discipline.
  - apply home_on_reply_discipline.
Qed.

Lemma home_on_timer_new task now w :
  snd (fst (HomeLoop.on_timer task now w)) = [].
Proof.
  unfold HomeLoop.on_timer.
  destruct task; destruct (HomeView.sendExampleQuestion _ _ _) as [? [?|?]];
    reflexivity.
Qed.

Lemma pick_timer_elem {Task : Type} (ts : list (N * Task)) u rest :
  pick_timer ts = Some (u, rest) -> u ∈ ts.
Proof.
  revert u rest. induction ts as [|t r IH]; intros u rest H; simpl in H.
  - discriminate.
  - destruct (pick_timer r) as [[v r']|] eqn:E.
    + destruct (fst v <? fst t)%N; inversion H; subst.
      * right. eapply IH. reflexivity.
      * left.
    + inversion H; subst. left.
Qed.

(** The first timer is picked when none after it is due earlier. *)
Lemma pick_timer_head {Task : Type} (e : N * Task) (r : list (N * Task)) :
  (forall x, x ∈ r -> (fst e <= fst x)%N) ->
  pick_timer (e :: r) = Some (e, r).
Proof.
  intros H. simpl. destruct (pick_timer r) as [[v r']|] eqn:E.
  - apply pick_timer_elem in E. specialize (H v E).
    destruct (N.ltb_spec (fst v) (fst e)); [lia | reflexivity].
  - destruct r; [reflexivity|]. simpl in E.
    destruct (pick_timer r) as [[? ?]|]; [destruct (_ <? _)%N|]; discriminate.
Qed.

Lemma home_schedule_due t0 i e :
  home_schedule t0 !! i = Some e -> fst e = (t0 + N.of_nat i * 2000)%N.
Proof.
  unfold home_schedule, HomeLoop.example_timers. rewrite list_lookup_imap.
  destruct (HomeView.exampleQuestions !! i); [|discriminate].
  intros [= <-]. reflexivity.
Qed.

Lemma home_schedule_length t0 :
  length (home_schedule t0) = length HomeView.exampleQuestions.
Proof. unfold home_schedule, HomeLoop.example_timers. apply length_imap. Qed.

Lemma home_pick t0 p e :
  home_schedule t0 !! p = Some e ->
  pick_timer (drop p (home_schedule t0)) = Some (e, drop (S p) (home_schedule t0)).
Proof.
  intros He. rewrite (drop_S _ _ _ He). apply pick_timer_head.
  intros x Hx. apply list_elem_of_lookup in Hx as [j Hj].
  rewrite lookup_drop in Hj.
  rewrite (home_schedule_due _ _ _ He), (home_schedule_due _ _ _ Hj). lia.
Qed.

Arguments home_schedule : simpl never.

Lemma take_home_schedule_snoc t0 p e :
  home_schedule t0 !! p = Some e ->
  take (S p) (home_schedule t0) = take p (home_schedule t0) ++ [e].
Proof. intros H. by apply take_S_r. Qed.

(** A turn of the loop keeps [loadExampleQuestions] on its timetable and
    lowers the number of things left to happen. *)
Lemma home_step_running env t0 l l' :
  home_running t0 l -> HomeLoop.step env l = Some l' ->
  home_running t0 l' /\
  (loop_potential (length HomeView.exampleQuestions) l'
   < loop_potential (length HomeView.exampleQuestions) l)%nat.
Proof.
  intros [Ho (p & Hp & Hlog & Htm & Hclk)] Hs.
  assert (Hlen : length (log l) = p).
  { eapply log_length; [exact Hlog|]. rewrite home_schedule_length. exact Hp. }
  assert (Ho' : one_at_a_time HomeLoop.busy l').
  { eapply step_orderly; [apply home_on_timer_discipline
                         |apply home_on_reply_discipline|exact Ho|exact Hs]. }
  destruct (step_cases _ _ _ _ _ _ Hs)
    as [(t & k & o & rest & Hpick & -> & Hdue)|(due & task & ts & Hpick & ->)].
  - split; [split; [exact Ho'|]|].
    + exists p. cbn [deliver log timers clock]. split_and!; try assumption.
      intros e He. specialize (Hclk e He).
      rewrite Htm in Hdue. destruct e as [d tk].
      specialize (Hdue d tk _ (home_pick t0 p _ He)). simpl in *. lia.
    + unfold loop_potential. cbn [deliver log inflight].
      apply pick_reply_length in Hpick. lia.
  - rewrite Htm in Hpick.
    assert (Hlt : (p < length HomeView.exampleQuestions)%nat).
    { rewrite <- (home_schedule_length t0).
      destruct (Nat.lt_ge_cases p (length (home_schedule t0))) as [H|H]; [exact H|].
      rewrite drop_ge in Hpick by exact H. discriminate. }
    destruct (lookup_lt_is_Some_2 (home_schedule t0) p) as [e He].
    { rewrite home_schedule_length. exact Hlt. }
    rewrite (home_pick t0 p e He) in Hpick.
    injection Hpick as He1 He2. subst e ts.
    specialize (Hclk _ He). cbn [fst] in Hclk.
    pose proof (home_on_timer_new task (iso env (N.max (clock l) due)) (world l)) as Hnew.
    unfold fire in *.
    destruct (HomeLoop.on_timer task _ (world l)) as [[w new] started].
    cbn [fst snd] in Hnew. subst new.
    split; [split; [exact Ho'|]|].
    + exists (S p). cbn [log timers clock map]. rewrite app_nil_r.
      replace (N.max (clock l) due) with due by lia.
      split_and!.
      * lia.
      * rewrite map_app, Hlog, (take_home_schedule_snoc _ _ _ He). reflexivity.
      * reflexivity.
      * intros e' He'. rewrite (home_schedule_due _ _ _ He').
        pose proof (home_schedule_due _ _ _ He) as Hd. cbn [fst] in Hd. lia.
    + unfold loop_potential. cbn [log inflight]. rewrite !length_app.
      destruct started; cbn [length]; lia.
Qed.

Lemma home_loadExampleQuestions_running t0 (w : World HomeView.State) :
  HomeLoop.busy w = false ->
  home_running t0 (HomeLoop.loadExampleQuestions (HomeLoop.idle_at t0 w)).
Proof.
  intros Hl. split.
  - left. split; [reflexivity | exact Hl].
  - exists 0%nat. cbn [HomeLoop.loadExampleQuestions HomeLoop.idle_at log timers clock app].
    split_and!.
    + lia.
    + reflexivity.
    + reflexivity.
    + intros e He. rewrite (home_schedule_due _ _ _ He). lia.
Qed.

(** [loadExampleQuestions] on HomeView.vue: whatever the replies, the
    loop comes to rest with no timer left, every question's callback run
    at its place in the timetable, and never two requests in flight. *)
Lemma home_batch_run env t0 n (w : World HomeView.State) :
  HomeLoop.busy w = false -> (10 <= n)%nat ->
  let start := HomeLoop.loadExampleQuestions (HomeLoop.idle_at t0 w) in
  let final := HomeLoop.run env n start in
  HomeLoop.step env final = None /\
  timers final = [] /\
  map fst (log final) = home_schedule t0 /\
  (forall m, (length (inflight (HomeLoop.run env m start)) <= 1)%nat).
Proof.
  intros Hl Hn start final.
  pose proof (home_loadExampleQuestions_running t0 w Hl) as Hstart.
  fold start in Hstart.
  destruct (run_comes_to_rest HomeLoop.on_timer HomeLoop.on_reply HomeLoop.busy env
              (home_running t0) (loop_potential (length HomeView.exampleQuestions))
              (fun l l' => home_step_running env t0 l l') n start Hstart)
    as [[Ho (p & Hp & Hlog & Htm & Hclk)] Hrest].
  { unfold start. cbn. lia. }
  fold (HomeLoop.run env n start) in *. fold final in Ho, Hlog, Htm, Hclk, Hrest.
  assert (Hp5 : p = length HomeView.exampleQuestions).
  { destruct (Nat.lt_ge_cases p (length HomeView.exampleQuestions)) as [Hlt|Hge];
      [|lia].
    exfalso.
    destruct (lookup_lt_is_Some_2 (home_schedule t0) p) as [e He].
    { rewrite home_schedule_length. exact Hlt. }
    unfold HomeLoop.step, step in Hrest.
    rewrite Htm, (home_pick t0 p e He) in Hrest.
    destruct (pick_reply (inflight final)) as [[[[? ?] ?] ?]|];
      destruct e; try destruct (_ <=? _)%N; discriminate. }
  subst p. split_and!.
  - exact Hrest.
  - rewrite Htm. apply drop_ge. rewrite home_schedule_length. lia.
  - rewrite Hlog. apply take_ge. rewrite home_schedule_length. lia.
  - intros m. apply (orderly_length HomeLoop.busy).
    apply home_run_orderly. destruct Hstart as [H _]. exact H.
Qed.

Lemma app_busy_dropped : app_busy_call_is_dropped.
Proof.
  intros now p Hb. unfold AppLoop.on_timer, AppLoop.call_sendMessage.
  rewrite app_rejected; [reflexivity|]. right. exact Hb.
Qed.

Lemma home_busy_dropped : home_busy_call_is_dropped.
Proof.
  intros now q w Hb. unfold HomeLoop.on_timer, HomeView.sendExampleQuestion,
    HomeView.in_chat, zoom.
  unfold bind, write, modify.
  rewrite chat_rejected; [split_and!; reflexivity|]. right. exact Hb.
Qed.

(** C5 as stated fails: with each reply taking 5 s, [loadExamples] calls
    [sendMessage] for the second question at 2200 ms while the first
    request is in flight, and [loadExampleQuestions] does so at 2000 ms;
    the run ends with three of the seven, and two of the five, questions
    in the conversation. *)
Lemma batch_runner_submits_while_sending :
  let app_final :=
    AppLoop.run env_slow 28 (AppLoop.loadExamples env_slow (AppLoop.idle_at 0 app_idle)) in
  let home_final :=
    HomeLoop.run env_slow 10 (HomeLoop.loadExampleQuestions (HomeLoop.idle_at 0 home_idle)) in
  log app_final !! 3%nat = Some (2200%N, AppLoop.Fire, true) /\
  issued app_final = 3%nat /\
  log home_final !! 1%nat
    = Some (2000%N, HomeLoop.Example (nth 1 HomeView.exampleQuestions []), true) /\
  issued home_final = 2%nat.
Proof. vm_compute. split_and!; reflexivity. Qed.

Lemma app_start_accepts now text (w : World App.State) :
  app_loading w = false ->
  trim text <> [] ->
  is_array (app_messages w) = true ->
  exists w1 k,
    App.sendMessage_start now (with_component (App.set_inputText text) w)
      = (w1, Return (Some k)) /\
    app_loading w1 = true.
Proof.
  intros Hl Ht Hm. destruct w as [s [msgs inp ld cs uid]].
  unfold app_loading, app_messages in *. simpl in *. subst ld.
  destruct msgs; try discriminate.
  unfold App.sendMessage_start, App.push, App.autoResize, App.scrollToBottom.
  unfold_m. simpl. rewrite bool_decide_eq_false_2 by exact Ht. simpl.
  eexists _, _. split; reflexivity.
Qed.

Lemma chat_start_accepts now text (w : World ChatInterface.State) :
  chat_loading w = false ->
  trim text <> [] ->
  is_array (chat_messages w) = true ->
  usable (localStorage w) ->
  exists w1 k,
    ChatInterface.sendMessage_start now
      (with_component (ChatInterface.set_inputText text) w)
      = (w1, Return (Some k)) /\
    chat_loading w1 = true.
Proof.
  intros Hl Ht Hm [Hd Hf]. destruct w as [[d f it] [init msgs inp ld uid]].
  unfold chat_loading, chat_messages in *. simpl in *. subst ld d f.
  destruct msgs; try discriminate.
  unfold ChatInterface.sendMessage_start, ChatInterface.settle,
    ChatInterface.push, ChatInterface.saveHistory, ChatInterface.query_argument,
    ChatInterface.emit, ChatInterface.scrollToBottom, ChatInterface.console_error.
  unfold_m. simpl. rewrite bool_decide_eq_false_2 by exact Ht. simpl.
  eexists _, _. split; reflexivity.
Qed.

Lemma app_wait env t text (a : World App.State) :
  app_loading a = false ->
  trim text <> [] ->
  is_array (app_messages a) = true ->
  app_wait_result env t text a.
Proof.
  intros Hl Ht Hm. unfold app_wait_result.
  destruct (app_start_accepts (iso env t) text a Hl Ht Hm) as (w1 & k & Hs & Hb).
  unfold AppLoop.user_send, AppLoop.fire, fire, AppLoop.idle_at.
  cbn [clock timers inflight issued world log]. rewrite N.max_id.
  unfold AppLoop.on_timer, AppLoop.call_sendMessage. cbn [AppLoop.app AppLoop.index].
  rewrite Hs. cbn [clock timers inflight issued world log app map AppLoop.busy AppLoop.app].
  split_and!; [exact Hb | reflexivity |].
  destruct (latency (reply_of env 0)) as [d|]; cbn [option_map].
  - eexists. split; [reflexivity|]. cbn [deliver clock world timers inflight].
    split_and!.
    + lia.
    + apply app_on_reply_discipline.
    + reflexivity.
  - reflexivity.
Qed.

Lemma home_wait env t text (h : World HomeView.State) :
  HomeLoop.busy h = false ->
  trim text <> [] ->
  is_array (ChatInterface.messages (HomeView.chat (component h))) = true ->
  usable (localStorage h) ->
  home_wait_result env t text h.
Proof.
  intros Hl Ht Hm Hu. unfold home_wait_result.
  destruct (chat_start_accepts (iso env t) text
              {| localStorage := localStorage h;
                 component := HomeView.chat_of (component h) |})
    as (w1 & k & Hs & Hb); try assumption.
  unfold HomeLoop.user_send, HomeLoop.fire, fire, HomeLoop.idle_at.
  cbn [clock timers inflight issued world log]. rewrite N.max_id.
  unfold HomeLoop.on_timer, HomeView.sendExampleQuestion, HomeView.in_chat, zoom.
  unfold bind, write, modify. rewrite Hs.
  cbn [clock timers inflight issued world log app map HomeLoop.busy component
       HomeView.chat HomeView.set_chat].
  split_and!; [exact Hb | reflexivity |].
  destruct (latency (reply_of env 0)) as [d|]; cbn [option_map].
  - eexists. split; [reflexivity|]. cbn [deliver clock world timers inflight].
    split_and!.
    + lia.
    + apply home_on_reply_discipline.
    + reflexivity.
  - reflexivity.
Qed.

(** C3 as the code has it: no timeout bounds the wait. After a send the
    controller is busy and no timer is set; [loading] goes back to false
    at the turn of the loop that delivers the reply, whenever that is,
    and if the request never settles the loop is at rest with [loading]
    still true. *)
Theorem wait_for_reply_has_no_timeout (env : Env) (t : N) (text : list N)
    (a : World App.State) (h : World HomeView.State) :
  trim text <> [] ->
  (app_loading a = false -> is_array (app_messages a) = true ->
   app_wait_result env t text a) /\
  (HomeLoop.busy h = false ->
   is_array (ChatInterface.messages (HomeView.chat (component h))) = true ->
   usable (localStorage h) ->
   home_wait_result env t text h).
Proof.
  intros Ht. split; intros; [by apply app_wait | by apply home_wait].
Qed.

Lemma wait_for_reply_has_no_timeout_witness :
  (app_wait_result env_silent 0 text_x app_idle /\
   home_wait_result env_silent 0 text_x home_idle) /\
  (app_wait_result env_quick 0 text_x app_idle /\
   home_wait_result env_quick 0 text_x home_idle).
Proof.
  assert (Ht : trim text_x <> []) by (vm_compute; discriminate).
  split; split.
  - apply (proj1 (wait_for_reply_has_no_timeout env_silent 0%N text_x
                    app_idle home_idle Ht)); reflexivity.
  - apply (proj2 (wait_for_reply_has_no_timeout env_silent 0%N text_x
                    app_idle home_idle Ht)); [reflexivity | reflexivity |].
    split; reflexivity.
  - apply (proj1 (wait_for_reply_has_no_timeout env_quick 0%N text_x
                    app_idle home_idle Ht)); reflexivity.
  - apply (proj2 (wait_for_reply_has_no_timeout env_quick 0%N text_x
                    app_idle home_idle Ht)); [reflexivity | reflexivity |].
    split; reflexivity.
Defined.

(** C3 as stated fails: when the request is never answered, the loop is
    at rest right after the send, with no timer that could end the wait,
    and [loading] is true; it stays so however many turns are taken. *)
Lemma unanswered_request_leaves_loading_true :
  let app_sent := AppLoop.user_send env_silent text_x (AppLoop.idle_at 0 app_idle) in
  let home_sent := HomeLoop.user_send env_silent text_x (HomeLoop.idle_at 0 home_idle) in
  (timers app_sent = [] /\ AppLoop.step env_silent app_sent = None /\
   AppLoop.busy (world (AppLoop.run env_silent 1000 app_sent)) = true) /\
  (timers home_sent = [] /\ HomeLoop.step env_silent home_sent = None /\
   HomeLoop.busy (world (HomeLoop.run env_silent 1000 home_sent)) = true).
Proof. vm_compute. split_and!; reflexivity. Qed.

(** *** JSON: what is written is read back *)

Local Open Scope N_scope.

Lemma hex_val_hex_digit (n : N) :
  n < 16 -> JSON.hex_val (JSON.hex_digit n) = Some n.
Proof.
  intros H. rewrite <- (N2Nat.id n).
  assert (Hm : (N.to_nat n < 16)%nat) by lia.
  revert Hm. generalize (N.to_nat n). intros m Hm.
  do 16 (destruct m as [|m]; [reflexivity|]). lia.
Qed.

Lemma hex4_unicode_escape (c : N) (rest : list N) :
  c < 65536 ->
  exists h1 h2 h3 h4,
    JSON.unicode_escape c = [92; 117; h1; h2; h3; h4] /\
    JSON.hex4 h1 h2 h3 h4 = Some c.
Proof.
  intros Hc. unfold JSON.unicode_escape. eexists _, _, _, _. split; [reflexivity|].
  unfold JSON.hex4.
  change 15 with (N.ones 4). rewrite !N.land_ones, !N.shiftr_div_pow2.
  change (2 ^ 12) with 4096. change (2 ^ 8) with 256. change (2 ^ 4) with 16.
  assert (H1 : c / 4096 < 16) by (apply N.Div0.div_lt_upper_bound; lia).
  assert (H2 : (c / 256) mod 16 < 16) by (apply N.mod_lt; lia).
  assert (H3 : (c / 16) mod 16 < 16) by (apply N.mod_lt; lia).
  assert (H4 : c mod 16 < 16) by (apply N.mod_lt; lia).
  rewrite !hex_val_hex_digit by assumption.
  f_equal.
  pose proof (N.div_mod c 16 ltac:(lia)) as E1.
  pose proof (N.div_mod (c / 16) 16 ltac:(lia)) as E2.
  pose proof (N.div_mod (c / 16 / 16) 16 ltac:(lia)) as E3.
  rewrite !N.Div0.div_div in E2, E3. change (16 * 16) with 256 in *.
  rewrite N.Div0.div_div in E3. change (256 * 16) with 4096 in E3. lia.
Qed.

Lemma parse_escape (c : N) (tail : list N) :
  c < 65536 ->
  JSON.parse_string_body (JSON.unicode_escape c ++ tail)
    = JSON.prepend c (JSON.parse_string_body tail).
Proof.
  intros Hc. destruct (hex4_unicode_escape c tail Hc) as (h1 & h2 & h3 & h4 & -> & Hh).
  cbn [app JSON.parse_string_body]. change (92 =? 34) with false.
  change (92 =? 92) with true. change (117 =? 117) with true. cbv iota.
  rewrite Hh. reflexivity.
Qed.

Lemma parse_raw (c : N) (tail : list N) :
  c <> 34 -> c <> 92 -> 32 <= c ->
  JSON.parse_string_body (c :: tail)
    = JSON.prepend c (JSON.parse_string_body tail).
Proof.
  intros H1 H2 H3. cbn [JSON.parse_string_body].
  destruct (N.eqb_spec c 34); [contradiction|].
  destruct (N.eqb_spec c 92); [contradiction|].
  destruct (N.ltb_spec c 32); [lia|]. reflexivity.
Qed.

Lemma parse_quote_unit (c : N) (tail : list N) :
  JSON.is_high_surrogate c = false -> JSON.is_low_surrogate c = false ->
  JSON.parse_string_body (JSON.quote_unit c ++ tail)
    = JSON.prepend c (JSON.parse_string_body tail).
Proof.
  intros _ _. unfold JSON.quote_unit.
  destruct (N.eqb_spec c 8) as [->|?]; [reflexivity|].
  destruct (N.eqb_spec c 9) as [->|?]; [reflexivity|].
  destruct (N.eqb_spec c 10) as [->|?]; [reflexivity|].
  destruct (N.eqb_spec c 12) as [->|?]; [reflexivity|].
  destruct (N.eqb_spec c 13) as [->|?]; [reflexivity|].
  destruct (N.eqb_spec c 34) as [->|?]; [reflexivity|].
  destruct (N.eqb_spec c 92) as [->|?]; [reflexivity|].
  destruct (N.ltb_spec c 32).
  - apply parse_escape. lia.
  - apply parse_raw; assumption.
Qed.

Lemma surrogate_bounds (c : N) :
  JSON.is_high_surrogate c = true \/ JSON.is_low_surrogate c = true ->
  c <> 34 /\ c <> 92 /\ 32 <= c /\ c < 65536.
Proof.
  unfold JSON.is_high_surrogate, JSON.is_low_surrogate.
  intros [H|H]; apply andb_true_iff in H as [H1 H2];
    apply N.leb_le in H1, H2; lia.
Qed.

(** A quoted string is read back, up to its closing quote. *)
Lemma parse_quote_body (s rest : list N) :
  JSON.parse_string_body (JSON.quote_body s ++ 34 :: rest) = Some (s, rest).
Proof.
  remember (length s) as n eqn:Hn.
  assert (Hle : (length s <= n)%nat) by lia. clear Hn.
  revert s Hle. induction n as [|n IH]; intros s Hle.
  - destruct s; [reflexivity | simpl in Hle; lia].
  - destruct s as [|c r]; [reflexivity|]. simpl in Hle.
    cbn [JSON.quote_body].
    destruct (JSON.is_high_surrogate c) eqn:Hh.
    + destruct (surrogate_bounds c (or_introl Hh)) as (? & ? & ? & ?).
      destruct r as [|d r'].
      * rewrite parse_escape by assumption. reflexivity.
      * destruct (JSON.is_low_surrogate d) eqn:Hl.
        -- destruct (surrogate_bounds d (or_intror Hl)) as (? & ? & ? & ?).
           cbn [app]. rewrite !parse_raw by assumption.
           rewrite IH by (simpl in Hle; lia). reflexivity.
        -- rewrite <- app_assoc, parse_escape by assumption.
           rewrite IH by lia. reflexivity.
    + destruct (JSON.is_low_surrogate c) eqn:Hl.
      * destruct (surrogate_bounds c (or_intror Hl)) as (? & ? & ? & ?).
        rewrite <- app_assoc, parse_escape by assumption.
        rewrite IH by lia. reflexivity.
      * rewrite <- app_assoc, parse_quote_unit by assumption.
        rewrite IH by lia. reflexivity.
Qed.

Lemma parse_quote (s rest : list N) :
  JSON.quote s ++ rest = 34 :: (JSON.quote_body s ++ 34 :: rest).
Proof. unfold JSON.quote. cbn [app]. rewrite <- app_assoc. reflexivity. Qed.

Lemma span_spec (p : N -> bool) (s a b : list N) :
  JSON.span p s = (a, b) -> s = a ++ b /\ forallb p a = true.
Proof.
  revert a b. induction s as [|c r IH]; intros a b H; simpl in H.
  - injection H as <- <-. split; reflexivity.
  - destruct (p c) eqn:Hc.
    + destruct (JSON.span p r) as [a' b'] eqn:E. injection H as <- <-.
      destruct (IH a' b' eq_refl) as [-> Ha]. split; [reflexivity|].
      simpl. rewrite Hc, Ha. reflexivity.
    + injection H as <- <-. split; reflexivity.
Qed.

Lemma span_app (p : N -> bool) (a rest : list N) :
  forallb p a = true ->
  match rest with [] => True | c :: _ => p c = false end ->
  JSON.span p (a ++ rest) = (a, rest).
Proof.
  intros Ha Hr. induction a as [|c a IH]; simpl.
  - destruct rest as [|c r]; [reflexivity|]. simpl. rewrite Hr. reflexivity.
  - simpl in Ha. apply andb_true_iff in Ha as [Hc Ha]. rewrite Hc, (IH Ha).
    reflexivity.
Qed.

Lemma digits_numchars (s : list N) :
  forallb is_digit s = true -> forallb JSON.is_numchar s = true.
Proof.
  induction s as [|c r IH]; simpl; [reflexivity|].
  intros H. apply andb_true_iff in H as [Hc Hr].
  unfold JSON.is_numchar at 1. rewrite Hc, (IH Hr). reflexivity.
Qed.

Lemma all_digits1_numchars (s : list N) :
  JSON.all_digits1 s = true -> forallb JSON.is_numchar s = true.
Proof.
  unfold JSON.all_digits1. intros H. apply andb_true_iff in H as [_ H].
  by apply digits_numchars.
Qed.

Lemma valid_exponent_numchars (s : list N) :
  JSON.valid_exponent s = true -> forallb JSON.is_numchar s = true.
Proof.
  destruct s as [|c r]; [reflexivity|]. cbn [JSON.valid_exponent].
  intros H. apply andb_true_iff in H as [Hc H].
  cbn [forallb]. apply andb_true_iff. split.
  { unfold JSON.is_numchar. apply orb_true_iff in Hc as [->| ->];
      rewrite ?orb_true_r; reflexivity. }
  destruct r as [|d r']; [discriminate|].
  destruct ((d =? 43) || (d =? 45)) eqn:Hd.
  - cbn [forallb]. rewrite (all_digits1_numchars _ H), andb_true_r.
    unfold JSON.is_numchar. apply orb_true_iff in Hd as [->| ->];
      rewrite ?orb_true_r; reflexivity.
  - by apply all_digits1_numchars.
Qed.

Lemma valid_fraction_numchars (s : list N) :
  JSON.valid_fraction s = true -> forallb JSON.is_numchar s = true.
Proof.
  destruct s as [|c r]; [reflexivity|]. cbn [JSON.valid_fraction].
  destruct (N.eqb_spec c 46) as [->|Hc].
  - destruct (JSON.span is_digit r) as [ds r'] eqn:E.
    destruct (span_spec _ _ _ _ E) as [-> Hds].
    intros H. apply andb_true_iff in H as [_ H].
    cbn [forallb]. rewrite forallb_app, (digits_numchars _ Hds),
      (valid_exponent_numchars _ H). reflexivity.
  - apply valid_exponent_numchars.
Qed.

Lemma valid_number_numchars (lit : list N) :
  JSON.valid_number lit = true -> forallb JSON.is_numchar lit = true.
Proof.
  assert (Hbody : forall body,
    match body with
    | d :: r =>
      if d =? 48 then JSON.valid_fraction r
      else if is_digit d then JSON.valid_fraction (snd (JSON.span is_digit r))
      else false
    | [] => false
    end = true -> forallb JSON.is_numchar body = true).
  { intros [|d r]; [discriminate|].
    destruct (N.eqb_spec d 48) as [->|Hd].
    - intros H. cbn [forallb]. rewrite (valid_fraction_numchars _ H). reflexivity.
    - destruct (is_digit d) eqn:Hdig; [|discriminate].
      destruct (JSON.span is_digit r) as [ds r'] eqn:E.
      destruct (span_spec _ _ _ _ E) as [-> Hds]. cbn [snd].
      intros H. cbn [forallb].
      rewrite forallb_app, (digits_numchars _ Hds), (valid_fraction_numchars _ H).
      unfold JSON.is_numchar. rewrite Hdig. reflexivity. }
  unfold JSON.valid_number. destruct lit as [|c r]; [discriminate|].
  destruct (N.eqb_spec c 45) as [->|Hc].
  - intros H. cbn [forallb]. rewrite (Hbody _ H). reflexivity.
  - apply (Hbody (c :: r)).
Qed.

(** A number starts with a digit or a minus sign. *)
Lemma valid_number_head (lit : list N) :
  JSON.valid_number lit = true ->
  exists c r, lit = c :: r /\ (is_digit c = true \/ c = 45).
Proof.
  unfold JSON.valid_number. destruct lit as [|c r]; [discriminate|].
  intros H. exists c, r. split; [reflexivity|].
  destruct (N.eqb_spec c 45) as [->|Hc]; [by right|].
  left. destruct (N.eqb_spec c 48) as [->|?]; [reflexivity|].
  destruct (is_digit c); [reflexivity | discriminate].
Qed.

Lemma plain_number_valid (lit : list N) :
  plain_number lit = true -> JSON.valid_number lit = true.
Proof.
  unfold plain_number. intros H.
  repeat (apply andb_true_iff in H as [H _]). exact H.
Qed.

Lemma assoc_not_in (k : list N) (ps : list (list N * JsValue)) :
  k ∉ map fst ps -> assoc k ps = None.
Proof.
  induction ps as [|[k' v] r IH]; [reflexivity|]. simpl. intros H.
  apply not_elem_of_cons in H as [Hne Hr].
  rewrite bool_decide_eq_false_2 by exact Hne. by apply IH.
Qed.

(** Members with plain keys make the object that lists them in order. *)
Lemma build_object_plain (ps : list (list N * JsValue)) :
  plain_keys (map fst ps) = true -> JSON.build_object ps = ps.
Proof.
  unfold plain_keys, JSON.build_object. intros H.
  apply andb_true_iff in H as [Hnd Hidx].
  apply bool_decide_eq_true in Hnd.
  assert (Hgen : forall acc,
    NoDup (map fst (acc ++ ps)) ->
    fold_left (fun ps m => JSON.define_prop ps (fst m) (snd m)) ps acc = acc ++ ps).
  { clear Hnd. induction ps as [|[k v] r IH]; intros acc Hacc.
    - simpl. by rewrite app_nil_r.
    - simpl in Hidx. apply andb_true_iff in Hidx as [Hk Hr].
      apply bool_decide_eq_true in Hk.
      cbn [fold_left fst snd]. unfold JSON.define_prop at 2.
      rewrite assoc_not_in, Hk.
      + rewrite IH; [by rewrite <- app_assoc | exact Hr |].
        by rewrite <- app_assoc.
      + rewrite map_app in Hacc. apply NoDup_app in Hacc as (_ & Hdis & _).
        intros Hin. apply (Hdis k Hin). simpl. left. }
  apply (Hgen []). exact Hnd.
Qed.

Lemma number_start (c : N) :
  is_digit c = true \/ c = 45 ->
  JSON.is_json_ws c = false /\ (c =? 91) = false /\ (c =? 123) = false /\
  (c =? 34) = false /\ (c =? 116) = false /\ (c =? 102) = false /\
  (c =? 110) = false.
Proof.
  unfold is_digit, JSON.is_json_ws. intros [H| ->]; [|repeat split; reflexivity].
  apply andb_true_iff in H as [H1 H2]. apply N.leb_le in H1, H2.
  repeat split; rewrite ?orb_false_iff; repeat split; apply N.eqb_neq; lia.
Qed.

(** The text of a safe value starts with a character that is neither
    white space nor a closing bracket. *)
Lemma text_head (v : JsValue) :
  json_safe v = true ->
  exists c t, text_of v = c :: t /\ JSON.is_json_ws c = false /\
              (c =? 93) = false /\ (c =? 125) = false.
Proof.
  destruct v as [| |[|]|lit|s|l|ps]; cbn [json_safe]; intros H;
    try discriminate; try (eexists _, _; repeat split; reflexivity).
  apply plain_number_valid, valid_number_head in H as (c & r & -> & Hc).
  exists c, r. unfold text_of. cbn [JSON.serialize default].
  destruct (number_start c Hc) as (Hws & _).
  repeat split; try assumption.
  - destruct Hc as [Hd| ->]; [|reflexivity]. unfold is_digit in Hd.
    apply andb_true_iff in Hd as [H1 H2]. apply N.leb_le in H1, H2.
    apply N.eqb_neq. lia.
  - destruct Hc as [Hd| ->]; [|reflexivity]. unfold is_digit in Hd.
    apply andb_true_iff in Hd as [H1 H2]. apply N.leb_le in H1, H2.
    apply N.eqb_neq. lia.
Qed.

Lemma skip_ws_head (c : N) (t : list N) :
  JSON.is_json_ws c = false -> JSON.skip_ws (c :: t) = c :: t.
Proof. intros H. simpl. rewrite H. reflexivity. Qed.

Lemma json_safe_serialize (v : JsValue) :
  json_safe v = true -> JSON.serialize v = Some (text_of v).
Proof.
  unfold text_of. destruct v; try discriminate; reflexivity.
Qed.

Lemma join_comma_cons (t : list N) (ts : list (list N)) (tail : list N) :
  JSON.join_comma (t :: ts) ++ tail =
  t ++ match ts with
       | [] => tail
       | _ :: _ => 44 :: (JSON.join_comma ts ++ tail)
       end.
Proof.
  destruct ts as [|t' ts]; [reflexivity|].
  cbn [JSON.join_comma]. rewrite <- app_assoc. reflexivity.
Qed.

Lemma parse_elements_ok (l : list JsValue) :
  l <> [] -> Forall reads_back l -> forallb json_safe l = true ->
  forall (fuel : nat) (rest : list N),
    (list_sum (map (fun e => S (size e)) l) <= fuel)%nat ->
    JSON.parse_elements fuel (JSON.join_comma (map text_of l) ++ 93 :: rest)
      = Some (l, rest).
Proof.
  intros Hne Hall Hsafe. induction l as [|v vs IH]; [contradiction|].
  intros fuel rest Hfuel.
  apply Forall_cons in Hall as [Hv Hvs].
  cbn [forallb] in Hsafe. apply andb_true_iff in Hsafe as [Sv Svs].
  cbn [map list_sum fold_right] in Hfuel.
  destruct fuel as [|f]; [lia|].
  cbn [map]. rewrite join_comma_cons. cbn [JSON.parse_elements].
  destruct vs as [|v' vs'].
  - cbn [map]. rewrite (Hv Sv f (93 :: rest)); [reflexivity|reflexivity|lia].
  - cbn [map]. rewrite (Hv Sv f); [|reflexivity|lia].
    rewrite skip_ws_head by reflexivity. change (44 =? 44) with true.
    cbv iota. change (text_of v' :: map text_of vs') with (map text_of (v' :: vs')).
    rewrite (IH ltac:(discriminate) Hvs Svs f rest); [reflexivity|].
    cbn [map list_sum fold_right] in *. lia.
Qed.

Lemma parse_members_ok (ps : list (list N * JsValue)) :
  ps <> [] -> Forall (fun p => reads_back (snd p)) ps ->
  forallb (fun p => json_safe (snd p)) ps = true ->
  forall (fuel : nat) (rest : list N),
    (list_sum (map (fun p => S (size (snd p))) ps) <= fuel)%nat ->
    JSON.parse_members fuel (JSON.join_comma (map member_text ps) ++ 125 :: rest)
      = Some (ps, rest).
Proof.
  intros Hne Hall Hsafe. induction ps as [|[k v] r IH]; [contradiction|].
  intros fuel rest Hfuel.
  apply Forall_cons in Hall as [Hv Hr]. cbn [snd] in Hv.
  cbn [forallb snd] in Hsafe. apply andb_true_iff in Hsafe as [Sv Sr].
  cbn [map list_sum fold_right snd] in Hfuel.
  destruct fuel as [|f]; [lia|].
  cbn [map]. rewrite join_comma_cons. unfold member_text at 1. cbn [fst snd].
  rewrite <- (app_assoc (JSON.quote k)), parse_quote. cbn [JSON.parse_members].
  rewrite skip_ws_head by reflexivity. change (34 =? 34) with true. cbv iota.
  rewrite parse_quote_body. cbn [app].
  rewrite skip_ws_head by reflexivity. change (58 =? 58) with true. cbv iota.
  destruct r as [|p' r']; cbn [map].
  - rewrite (Hv Sv f (125 :: rest)); [reflexivity|reflexivity|lia].
  - rewrite (Hv Sv f); [|reflexivity|lia].
    rewrite skip_ws_head by reflexivity. change (44 =? 44) with true. cbv iota.
    change (member_text p' :: map member_text r') with (map member_text (p' :: r')).
    rewrite (IH ltac:(discriminate) Hr Sr f rest); [reflexivity|].
    cbn [map list_sum fold_right] in *. lia.
Qed.

Lemma text_of_array (l : list JsValue) :
  text_of (JArr l) = 91 :: JSON.join_comma (map text_of l) ++ [93].
Proof. reflexivity. Qed.

Lemma text_of_object (ps : list (list N * JsValue)) :
  forallb (fun p => json_safe (snd p)) ps = true ->
  text_of (JObj ps) = 123 :: JSON.join_comma (map member_text ps) ++ [125].
Proof.
  intros H.
  assert (Hm : omap (fun p : list N * JsValue =>
                       match JSON.serialize (snd p) with
                       | Some t => Some (JSON.quote (fst p) ++ 58 :: t)
                       | None => None
                       end) ps = map member_text ps).
  { induction ps as [|[k v] r IH]; [reflexivity|].
    cbn [forallb snd] in H. apply andb_true_iff in H as [Hv Hr].
    cbn [omap list_omap map fst snd]. rewrite (json_safe_serialize v Hv).
    f_equal. apply (IH Hr). }
  unfold text_of. cbn [JSON.serialize]. rewrite Hm. reflexivity.
Qed.

Lemma join_comma_head (l : list JsValue) (tail : list N) :
  l <> [] -> forallb json_safe l = true ->
  exists c t, JSON.join_comma (map text_of l) ++ tail = c :: t /\
              JSON.is_json_ws c = false /\ (c =? 93) = false.
Proof.
  destruct l as [|v vs]; [contradiction|]. intros _ H.
  cbn [forallb] in H. apply andb_true_iff in H as [Hv _].
  destruct (text_head v Hv) as (c & t & Ht & Hws & H93 & _).
  cbn [map]. rewrite join_comma_cons, Ht. cbn [app]. eauto.
Qed.

Lemma members_head (ps : list (list N * JsValue)) (tail : list N) :
  ps <> [] ->
  exists t, JSON.join_comma (map member_text ps) ++ tail = 34 :: t.
Proof.
  destruct ps as [|p r]; [contradiction|]. intros _.
  cbn [map]. rewrite join_comma_cons. unfold member_text at 1.
  unfold JSON.quote. cbn [app]. eauto.
Qed.

(** Every safe value is read back from its text. *)
Lemma safe_values_read_back (v : JsValue) : reads_back v.
Proof.
  induction v as [| |b|lit|s|l IH|ps IH] using JsValue_nested_ind;
    intros Hsafe fuel rest Hrest Hfuel; cbn [json_safe] in Hsafe;
    try discriminate; (destruct fuel as [|f]; [simpl in Hfuel; lia|]).
  - reflexivity.
  - destruct b; reflexivity.
  - pose proof (plain_number_valid _ Hsafe) as Hvalid.
    destruct (valid_number_head _ Hvalid) as (c & r & -> & Hc).
    destruct (number_start c Hc) as (Hws & H1 & H2 & H3 & H4 & H5 & H6).
    change (text_of (JNum (c :: r))) with (c :: r).
    cbn [app JSON.parse_value].
    rewrite skip_ws_head by exact Hws. rewrite H1, H2, H3, H4, H5, H6.
    change (c :: r ++ rest) with ((c :: r) ++ rest).
    rewrite span_app; [rewrite Hvalid; reflexivity| |exact Hrest].
    by apply valid_number_numchars.
  - change (text_of (JStr s)) with (JSON.quote s). rewrite parse_quote.
    cbn [JSON.parse_value]. rewrite skip_ws_head by reflexivity.
    change (34 =? 91) with false. change (34 =? 123) with false.
    change (34 =? 34) with true. cbv iota.
    rewrite parse_quote_body. reflexivity.
  - rewrite text_of_array. cbn [app]. rewrite <- app_assoc. cbn [app].
    cbn [JSON.parse_value]. rewrite skip_ws_head by reflexivity.
    change (91 =? 91) with true. cbv iota.
    destruct l as [|v vs].
    + reflexivity.
    + destruct (join_comma_head (v :: vs) (93 :: rest) ltac:(discriminate) Hsafe)
        as (c & t & Ht & Hws & H93).
      rewrite Ht, skip_ws_head, H93 by exact Hws. rewrite <- Ht.
      rewrite (parse_elements_ok (v :: vs) ltac:(discriminate) IH Hsafe);
        [reflexivity|].
      cbn [size] in Hfuel. lia.
  - apply andb_true_iff in Hsafe as [Hvals Hkeys].
    rewrite (text_of_object _ Hvals). cbn [app]. rewrite <- app_assoc. cbn [app].
    cbn [JSON.parse_value]. rewrite skip_ws_head by reflexivity.
    change (123 =? 91) with false. change (123 =? 123) with true. cbv iota.
    destruct ps as [|[k v] r].
    + reflexivity.
    + destruct (members_head ((k, v) :: r) (125 :: rest) ltac:(discriminate))
        as (t & Ht).
      rewrite Ht, skip_ws_head by reflexivity. change (34 =? 125) with false.
      cbv iota. rewrite <- Ht.
      rewrite (parse_members_ok ((k, v) :: r) ltac:(discriminate) IH Hvals)
        by (cbn [size] in Hfuel; lia).
      rewrite (build_object_plain _ Hkeys). reflexivity.
Qed.

Lemma length_join_comma (ts : list (list N)) :
  (list_sum (map (fun t => S (length t)) ts) <= S (length (JSON.join_comma ts)))%nat.
Proof.
  induction ts as [|t r IH]; [simpl; lia|].
  destruct r as [|t' r'].
  - simpl. lia.
  - change (JSON.join_comma (t :: t' :: r'))
      with (t ++ 44 :: JSON.join_comma (t' :: r')).
    rewrite length_app. cbn [length].
    change (list_sum (map (fun t => S (length t)) (t :: t' :: r')))
      with (S (length t) + list_sum (map (fun t => S (length t)) (t' :: r')))%nat.
    lia.
Qed.

Lemma sum_le {A : Type} (f g : A -> nat) (l : list A) :
  Forall (fun x => (f x <= g x)%nat) l ->
  (list_sum (map f l) <= list_sum (map g l))%nat.
Proof.
  induction 1 as [|x r Hx _ IH]; [reflexivity|].
  cbv beta in Hx. unfold list_sum in *. cbn [map fold_right]. lia.
Qed.

(** The text of a safe value has at least as many characters as the
    value has parts, so the fuel [JSON.parse] takes is enough. *)
Lemma size_le_text (v : JsValue) :
  json_safe v = true -> (size v <= length (text_of v))%nat.
Proof.
  induction v as [| |b|lit|s|l IH|ps IH] using JsValue_nested_ind;
    cbn [json_safe]; intros Hsafe; try discriminate.
  - simpl. lia.
  - destruct b; simpl; lia.
  - apply plain_number_valid, valid_number_head in Hsafe as (c & r & -> & _).
    simpl. lia.
  - change (text_of (JStr s)) with (JSON.quote s). unfold JSON.quote.
    simpl. lia.
  - rewrite text_of_array. cbn [size length]. rewrite length_app. cbn [length].
    pose proof (length_join_comma (map text_of l)) as Hj.
    rewrite map_map in Hj.
    assert (Hs : (list_sum (map (fun e => S (size e)) l)
                  <= list_sum (map (fun e => S (length (text_of e))) l))%nat).
    { apply sum_le. rewrite Forall_forall in IH. apply Forall_forall.
      intros e He. apply le_n_S. apply IH; [exact He|].
      rewrite forallb_forall in Hsafe. apply Hsafe. by apply list_elem_of_In. }
    lia.
  - apply andb_true_iff in Hsafe as [Hvals _].
    rewrite (text_of_object _ Hvals). cbn [size length]. rewrite length_app.
    cbn [length].
    pose proof (length_join_comma (map member_text ps)) as Hj.
    rewrite map_map in Hj.
    assert (Hs : (list_sum (map (fun p => S (size (snd p))) ps)
                  <= list_sum (map (fun p => S (length (member_text p))) ps))%nat).
    { apply sum_le. rewrite Forall_forall in IH. apply Forall_forall.
      intros p Hp. unfold member_text. rewrite length_app. cbn [length].
      assert ((size (snd p) <= length (text_of (snd p)))%nat); [|lia].
      apply IH; [exact Hp|].
      rewrite forallb_forall in Hvals. apply Hvals. by apply list_elem_of_In. }
    lia.
Qed.

(** [JSON.parse(JSON.stringify(v))] is [v] for every safe value. *)
Theorem parse_stringify (v : JsValue) :
  json_safe v = true ->
  JSON.stringify v = Some (text_of v) /\ JSON.parse (text_of v) = Some v.
Proof.
  intros Hsafe. split; [by apply json_safe_serialize|].
  unfold JSON.parse.
  pose proof (safe_values_read_back v Hsafe (S (length (text_of v))) [] I) as H.
  rewrite app_nil_r in H. rewrite H; [reflexivity|].
  pose proof (size_le_text v Hsafe). lia.
Qed.

Local Close Scope N_scope.

(** *** Saving and loading the history *)

Lemma with_items_insert_id {C : Type} (w : World C) (k v : list N) :
  items (localStorage w) !! k = Some v ->
  with_items (fun m => <[k := v]> m) w = w.
Proof.
  intros H. destruct w as [[d f it] c]. unfold with_items. simpl in *.
  rewrite (insert_id it k v H). reflexivity.
Qed.

Lemma chat_save_usable (w : World ChatInterface.State) :
  usable (localStorage w) ->
  ChatInterface.saveHistory w =
    (with_items (fun m => <[k_chat_history :=
                             stored_text (JSON.stringify (chat_messages w))]> m) w,
     Return tt).
Proof.
  intros [Hd Hf]. unfold ChatInterface.saveHistory. unfold_m. simpl.
  rewrite Hd, Hf. reflexivity.
Qed.

Lemma app_save_usable (w : World App.State) :
  usable (localStorage w) ->
  App.saveHistory w =
    (with_items (fun m => <[k_chat_history :=
                             stored_text (JSON.stringify (app_messages w))]> m) w,
     Return tt).
Proof.
  intros [Hd Hf]. unfold App.saveHistory. unfold_m. simpl.
  rewrite Hd, Hf. reflexivity.
Qed.

Lemma chat_save_then_load (l : list JsValue) (c : World ChatInterface.State)
    (fresh : ChatInterface.State) :
  forallb json_safe l = true ->
  usable (localStorage c) -> chat_messages c = JArr l ->
  chat_round_trip l c fresh.
Proof.
  intros Hsafe Hu Hm. unfold chat_round_trip.
  destruct (parse_stringify (JArr l) Hsafe) as [Hstr Hparse].
  rewrite (chat_save_usable c Hu), Hm, Hstr. cbn [fst snd stored_text default].
  set (text := text_of (JArr l)) in *.
  set (w := reopened _ fresh).
  assert (Hd : denied (localStorage w) = false) by (destruct Hu; assumption).
  assert (Hs : stored_history w = Some text).
  { unfold stored_history, w, reopened. simpl. apply lookup_insert_eq. }
  rewrite (chat_load_installs w text (JArr l) Hd Hs Hparse). cbn [fst snd].
  split_and!; try reflexivity.
  rewrite chat_save_usable.
  - unfold chat_messages. cbn [component with_component ChatInterface.messages
                               ChatInterface.set_messages].
    rewrite Hstr. cbn [stored_text default]. fold text.
    rewrite with_items_insert_id; [reflexivity | exact Hs].
  - destruct Hu as [Hu1 Hu2]. split; assumption.
Qed.

Lemma app_load_installs (w : World App.State) text v :
  denied (localStorage w) = false ->
  stored_history w = Some text ->
  JSON.parse text = Some v ->
  App.nonempty_array v = true ->
  App.loadHistory w = (with_component (App.set_messages v) w, Return tt).
Proof.
  intros Hd Hs Hp Hn. unfold App.loadHistory. unfold_m. rewrite Hd.
  fold (stored_history w). rewrite Hs.
  destruct text as [|ch r]; [vm_compute in Hp; discriminate|]. simpl.
  unfold JSON_parse. rewrite Hp.
  destruct v; try discriminate. simpl in *. rewrite Hn. reflexivity.
Qed.

Lemma app_save_then_load (l : list JsValue) (a : World App.State)
    (fresh : App.State) :
  forallb json_safe l = true -> l <> [] ->
  usable (localStorage a) -> app_messages a = JArr l ->
  app_round_trip l a fresh.
Proof.
  intros Hsafe Hne Hu Hm. unfold app_round_trip.
  destruct (parse_stringify (JArr l) Hsafe) as [Hstr Hparse].
  rewrite (app_save_usable a Hu), Hm, Hstr. cbn [fst snd stored_text default].
  set (text := text_of (JArr l)) in *.
  set (w := reopened _ fresh).
  assert (Hd : denied (localStorage w) = false) by (destruct Hu; assumption).
  assert (Hs : stored_history w = Some text).
  { unfold stored_history, w, reopened. simpl. apply lookup_insert_eq. }
  rewrite (app_load_installs w text (JArr l) Hd Hs Hparse)
    by (destruct l; [contradiction | reflexivity]).
  cbn [fst snd]. split_and!; try reflexivity.
  rewrite app_save_usable.
  - unfold app_messages. cbn [component with_component App.messages App.set_messages].
    rewrite Hstr. cbn [stored_text default]. fold text.
    rewrite with_items_insert_id; [reflexivity | exact Hs].
  - destruct Hu as [Hu1 Hu2]. split; assumption.
Qed.




(** The messages the engine builds are carried without loss: the user's,
    the apology and the stand-in answer, whatever the text and the time. *)
Lemma engine_messages_safe (text now : list N) :
  json_safe (user_message text now) = true /\
  json_safe (ChatInterface.greeting now) = true /\
  json_safe (ChatInterface.error_message now) = true /\
  json_safe (App.greeting now) = true /\
  json_safe (App.mock_message text now) = true.
Proof. split_and!; reflexivity. Qed.

(** ** A send from start to end *)

Lemma chat_start_accepted (now text : list N) (l : list JsValue)
    (w : World ChatInterface.State) :
  usable (localStorage w) ->
  chat_messages w = JArr l ->
  chat_loading w = false ->
  trim (ChatInterface.inputText (component w)) = text ->
  text <> [] ->
  exists request,
    ChatInterface.sendMessage_start now w =
      (with_items
         (fun m => <[k_chat_history :=
                      history_text (JArr (l ++ [user_message text now]))]> m)
         (with_component
            (fun s => ChatInterface.set_loading true
                        (ChatInterface.set_inputText []
                           (ChatInterface.set_messages
                              (JArr (l ++ [user_message text now])) s))) w),
       Return (Some request)).
Proof.
  intros [Hd Hf] Hm Hl Ht Hne.
  destruct w as [[d f it] [init msgs inp ld uid]].
  unfold chat_messages, chat_loading in *. simpl in *. subst d f msgs ld.
  unfold ChatInterface.sendMessage_start, ChatInterface.settle,
    ChatInterface.push, ChatInterface.saveHistory, ChatInterface.query_argument,
    ChatInterface.emit, ChatInterface.scrollToBottom, ChatInterface.console_error.
  unfold_m. simpl. rewrite Ht.
  rewrite bool_decide_eq_false_2 by exact Hne. simpl.
  eexists. reflexivity.
Qed.

Lemma chat_resume_appends (reply : FetchOutcome) (later : list N)
    (l : list JsValue) (w : World ChatInterface.State) :
  usable (localStorage w) ->
  chat_messages w = JArr l ->
  ChatInterface.sendMessage_resume reply later w =
    (with_items
       (fun m => <[k_chat_history :=
                    history_text (JArr (l ++ [chat_reply reply later]))]> m)
       (with_component
          (fun s => ChatInterface.set_loading false
                      (ChatInterface.set_messages
                         (JArr (l ++ [chat_reply reply later])) s)) w),
     Return tt).
Proof.
  intros [Hd Hf] Hm.
  destruct w as [[d f it] [init msgs inp ld uid]].
  unfold chat_messages in *. simpl in *. subst d f msgs.
  unfold chat_reply, ChatInterface.sendMessage_resume, ChatInterface.settle,
    ChatInterface.push, ChatInterface.saveHistory,
    ChatInterface.emit, ChatInterface.scrollToBottom, ChatInterface.console_error.
  unfold_m. simpl.
  destruct (Api.query_result reply) as [response|e]; simpl; [|reflexivity].
  destruct (ChatInterface.assistant_message response later) as [m|e]; reflexivity.
Qed.

Lemma app_start_accepted (now text : list N) (l : list JsValue)
    (w : World App.State) :
  app_messages w = JArr l ->
  app_loading w = false ->
  trim (App.inputText (component w)) = text ->
  text <> [] ->
  exists request,
    App.sendMessage_start now w =
      (with_component
         (fun s => App.set_loading true
                     (App.set_inputText []
                        (App.set_messages (JArr (l ++ [user_message text now])) s)))
         w,
       Return (Some {| App.sent_text := text; App.request := request |})).
Proof.
  intros Hm Hl Ht Hne.
  destruct w as [s [msgs inp ld cs uid]].
  unfold app_messages, app_loading in *. simpl in *. subst msgs ld.
  unfold App.sendMessage_start, App.push, App.autoResize, App.scrollToBottom.
  unfold_m. simpl. rewrite Ht.
  rewrite bool_decide_eq_false_2 by exact Hne. simpl.
  eexists. reflexivity.
Qed.

(** The refs of App.vue after the reply, whatever the store does. *)
Lemma app_resume_refs (text : list N) (reply : FetchOutcome) (later : list N)
    (l : list JsValue) (w : World App.State) :
  app_messages w = JArr l ->
  component (fst (App.sendMessage_resume text reply later w)) =
    App.set_loading false
      (App.set_connectionStatus (app_reply_status reply later)
         (App.set_messages (JArr (l ++ [app_reply text reply later]))
            (component w))).
Proof.
  intros Hm.
  destruct w as [[d f it] [msgs inp ld cs uid]].
  unfold app_messages in *. simpl in *. subst msgs.
  unfold app_reply, app_reply_status, App.sendMessage_resume, App.push,
    App.saveHistory, App.scrollToBottom, App.console_error.
  unfold_m. simpl.
  destruct reply as [|status body]; simpl.
  - destruct (d || f); reflexivity.
  - destruct (response_ok status); simpl; [|destruct (d || f); reflexivity].
    destruct (response_json body) as [data|e]; simpl;
      [|destruct (d || f); reflexivity].
    destruct (App.assistant_message data later) as [m|e]; simpl;
      destruct (d || f); reflexivity.
Qed.

Lemma app_resume_appends (text : list N) (reply : FetchOutcome) (later : list N)
    (l : list JsValue) (w : World App.State) :
  usable (localStorage w) ->
  app_messages w = JArr l ->
  App.sendMessage_resume text reply later w =
    (with_items
       (fun m => <[k_chat_history :=
                    history_text (JArr (l ++ [app_reply text reply later]))]> m)
       (with_component
          (fun s => App.set_loading false
                      (App.set_connectionStatus (app_reply_status reply later)
                         (App.set_messages
                            (JArr (l ++ [app_reply text reply later])) s))) w),
     Return tt).
Proof.
  intros [Hd Hf] Hm.
  destruct w as [[d f it] [msgs inp ld cs uid]].
  unfold app_messages in *. simpl in *. subst d f msgs.
  unfold app_reply, app_reply_status, App.sendMessage_resume, App.push,
    App.saveHistory, App.scrollToBottom, App.console_error.
  unfold_m. simpl.
  destruct reply as [|status body]; simpl; [reflexivity|].
  destruct (response_ok status); simpl; [|reflexivity].
  destruct (response_json body) as [data|e]; simpl; [|reflexivity].
  destruct (App.assistant_message data later) as [m|e]; reflexivity.
Qed.

Lemma assistant_role_chat (response : JsValue) (later : list N) (m : JsValue) :
  ChatInterface.assistant_message response later = Return m ->
  role_of m = JStr s_assistant.
Proof.
  unfold ChatInterface.assistant_message.
  destruct (get_prop response k_response); [|discriminate].
  destruct (get_prop response k_timestamp); [|discriminate].
  destruct (get_prop response k_retrieval_context); [|discriminate].
  destruct (get_prop response k_sub_questions); [|discriminate].
  intros [= <-]. reflexivity.
Qed.

Lemma assistant_role_app (data : JsValue) (later : list N) (m : JsValue) :
  App.assistant_message data later = Return m ->
  role_of m = JStr s_assistant.
Proof.
  unfold App.assistant_message.
  destruct (get_prop data k_response); [|discriminate].
  destruct (get_prop data k_timestamp); [|discriminate].
  destruct (get_prop data k_retrieval_context); [|discriminate].
  destruct (get_prop data k_sub_questions); [|discriminate].
  intros [= <-]. reflexivity.
Qed.

Lemma chat_reply_role (reply : FetchOutcome) (later : list N) :
  role_of (chat_reply reply later) = JStr s_assistant.
Proof.
  unfold chat_reply. destruct (Api.query_result reply) as [response|e];
    [|reflexivity].
  destruct (ChatInterface.assistant_message response later) as [m|e] eqn:E;
    [|reflexivity].
  by apply assistant_role_chat in E.
Qed.

Lemma app_reply_role (text : list N) (reply : FetchOutcome) (later : list N) :
  role_of (app_reply text reply later) = JStr s_assistant.
Proof.
  unfold app_reply. destruct (Api.query_result reply) as [data|e];
    [|reflexivity].
  destruct (App.assistant_message data later) as [m|e] eqn:E; [|reflexivity].
  by apply assistant_role_app in E.
Qed.
Lemma parse_value_defined fuel s v r :
  JSON.parse_value fuel s = Some (v, r) -> v <> JUndefined.
Proof.
  destruct fuel as [|f]; [discriminate|]. cbn [JSON.parse_value].
  intros H.
  repeat match type of H with
         | match ?x with _ => _ end = _ => destruct x; try discriminate
         | (if ?b then _ else _) = _ => destruct b; try discriminate
         | (let '(_, _) := ?x in _) = _ => destruct x; try discriminate
         end;
    injection H as <- _; discriminate.
Qed.

Lemma parse_defined (text : list N) (v : JsValue) :
  JSON.parse text = Some v -> v <> JUndefined.
Proof.
  unfold JSON.parse.
  destruct (JSON.parse_value _ text) as [[v' r]|] eqn:E; [|discriminate].
  destruct (JSON.skip_ws r); [|discriminate].
  intros [= <-]. by apply parse_value_defined in E.
Qed.

Lemma get_prop_total (data : JsValue) (k : list N) :
  data <> JNull -> data <> JUndefined ->
  get_prop data k = Return (get_prop_opt data k).
Proof. destruct data; try contradiction; reflexivity. Qed.

Lemma answered_query_result (reply : FetchOutcome) (data : JsValue) :
  answered reply data -> Api.query_result reply = Return data.
Proof.
  intros (status & body & -> & Hok & Hp). simpl. rewrite Hok. simpl.
  unfold response_json, JSON_parse. rewrite Hp. reflexivity.
Qed.

Lemma answered_defined (reply : FetchOutcome) (data : JsValue) :
  answered reply data -> data <> JUndefined.
Proof. intros (status & body & _ & _ & Hp). by apply parse_defined in Hp. Qed.

Lemma chat_reply_answered (reply : FetchOutcome) (data : JsValue) (later : list N) :
  answered reply data -> data <> JNull ->
  chat_reply reply later = answer_message k_retrievalContext data later.
Proof.
  intros Ha Hn. pose proof (answered_defined _ _ Ha) as Hu.
  unfold chat_reply, ChatInterface.assistant_message.
  rewrite (answered_query_result _ _ Ha), !get_prop_total by assumption.
  reflexivity.
Qed.

Lemma app_reply_answered (text : list N) (reply : FetchOutcome) (data : JsValue)
    (later : list N) :
  answered reply data -> data <> JNull ->
  app_reply text reply later = answer_message k_context data later /\
  app_reply_status reply later = App.connected.
Proof.
  intros Ha Hn. pose proof (answered_defined _ _ Ha) as Hu.
  unfold app_reply, app_reply_status, App.assistant_message.
  rewrite (answered_query_result _ _ Ha), !get_prop_total by assumption.
  split; reflexivity.
Qed.

Lemma chat_send_whole (now later text : list N) (l : list JsValue)
    (reply : FetchOutcome) (w : World ChatInterface.State) :
  text <> [] ->
  usable (localStorage w) ->
  chat_messages w = JArr l ->
  chat_loading w = false ->
  trim (ChatInterface.inputText (component w)) = text ->
  ChatInterface.sendMessage now reply later w =
    (with_items
       (fun m => <[k_chat_history :=
                    history_text
                      (JArr (l ++ [user_message text now; chat_reply reply later]))]> m)
       (with_component
          (fun s => ChatInterface.set_loading false
                      (ChatInterface.set_inputText []
                         (ChatInterface.set_messages
                            (JArr (l ++ [user_message text now;
                                         chat_reply reply later])) s))) w),
     Return tt).
Proof.
  intros Hne Hu Hm Hl Ht.
  destruct (chat_start_accepted now text l w Hu Hm Hl Ht Hne) as [req Hs].
  unfold ChatInterface.sendMessage, bind. rewrite Hs.
  rewrite (chat_resume_appends reply later (l ++ [user_message text now]));
    [| destruct Hu; split; assumption | reflexivity].
  rewrite <- app_assoc. cbn [app].
  destruct w as [[d f it] c]. unfold with_items, with_component. simpl.
  rewrite insert_insert_eq. reflexivity.
Qed.

Lemma app_send_whole_refs (now later text : list N) (l : list JsValue)
    (reply : FetchOutcome) (w : World App.State) :
  text <> [] ->
  app_messages w = JArr l ->
  app_loading w = false ->
  trim (App.inputText (component w)) = text ->
  component (fst (App.sendMessage now reply later w)) =
    App.set_loading false
      (App.set_connectionStatus (app_reply_status reply later)
         (App.set_inputText []
            (App.set_messages
               (JArr (l ++ [user_message text now; app_reply text reply later]))
               (component w)))).
Proof.
  intros Hne Hm Hl Ht.
  destruct (app_start_accepted now text l w Hm Hl Ht Hne) as [req Hs].
  unfold App.sendMessage, bind. rewrite Hs. cbn [App.sent_text].
  rewrite (app_resume_refs text reply later (l ++ [user_message text now]))
    by reflexivity.
  rewrite <- app_assoc. reflexivity.
Qed.

Lemma app_send_whole (now later text : list N) (l : list JsValue)
    (reply : FetchOutcome) (w : World App.State) :
  text <> [] ->
  usable (localStorage w) ->
  app_messages w = JArr l ->
  app_loading w = false ->
  trim (App.inputText (component w)) = text ->
  App.sendMessage now reply later w =
    (with_items
       (fun m => <[k_chat_history :=
                    history_text
                      (JArr (l ++ [user_message text now;
                                   app_reply text reply later]))]> m)
       (with_component
          (fun s => App.set_loading false
                      (App.set_connectionStatus (app_reply_status reply later)
                         (App.set_inputText []
                            (App.set_messages
                               (JArr (l ++ [user_message text now;
                                            app_reply text reply later])) s)))) w),
     Return tt).
Proof.
  intros Hne Hu Hm Hl Ht.
  destruct (app_start_accepted now text l w Hm Hl Ht Hne) as [req Hs].
  unfold App.sendMessage, bind. rewrite Hs. cbn [App.sent_text].
  rewrite (app_resume_appends text reply later (l ++ [user_message text now]));
    [| exact Hu | reflexivity].
  rewrite <- app_assoc. reflexivity.
Qed.


(** *** What the batch runners submit *)

Section EventLoopTurns.

Context {W Task K : Type}.
Variable on_timer : Task -> list N -> W -> W * list (N * Task) * option K.
Variable on_reply : K -> FetchOutcome -> list N -> W -> W.
Variable busy : W -> bool.
Variable env : Env.

Local Abbreviation stepT := (step on_timer on_reply busy env).
Local Abbreviation runT := (run on_timer on_reply busy env).

(** A turn runs one callback or none. *)
Lemma step_log_length (l l' : Loop W Task K) :
  stepT l = Some l' ->
  length (log l') = length (log l) \/ length (log l') = S (length (log l)).
Proof.
  intros Hs. destruct (step_cases _ _ _ _ _ _ Hs)
    as [(t & k & o & rest & _ & -> & _)|(due & task & ts & _ & ->)].
  - left. reflexivity.
  - right. unfold fire.
    destruct (on_timer task _ (world l)) as [[w new] started].
    cbn [log]. rewrite length_app. cbn [length]. lia.
Qed.

(** The callback number [p] of a run is run in one of its turns. *)
Lemma run_passes (n p : nat) (l : Loop W Task K) :
  (length (log l) <= p)%nat ->
  (p < length (log (runT n l)))%nat ->
  exists m l',
    stepT (runT m l) = Some l' /\
    length (log (runT m l)) = p /\
    length (log l') = S p.
Proof.
  revert l. induction n as [|n IH]; intros l Hlo Hhi; simpl in Hhi; [lia|].
  destruct (stepT l) as [l1|] eqn:E; [|lia].
  destruct (step_log_length l l1 E) as [Hsame|Hmore].
  - destruct (IH l1) as (m & l' & Hs & Hp & Hp'); [lia | exact Hhi |].
    exists (S m), l'. simpl. rewrite E. auto.
  - destruct (Nat.eq_dec (length (log l)) p) as [Heq|Hne].
    + exists 0%nat, l1. simpl. split_and!; [exact E | exact Heq | lia].
    + destruct (IH l1) as (m & l' & Hs & Hp & Hp'); [lia | exact Hhi |].
      exists (S m), l'. simpl. rewrite E. auto.
Qed.

End EventLoopTurns.

Lemma app_examples_plain (i : nat) :
  (i < length App.exampleQuestions)%nat ->
  trim (nth i App.exampleQuestions []) = nth i App.exampleQuestions [] /\
  nth i App.exampleQuestions [] <> [].
Proof.
  intros Hi. change (length App.exampleQuestions) with 7%nat in Hi.
  do 7 (destruct i as [|i]; [split; [vm_compute; reflexivity | discriminate]|]).
  lia.
Qed.

Lemma home_examples_plain (i : nat) :
  (i < length HomeView.exampleQuestions)%nat ->
  trim (nth i HomeView.exampleQuestions []) = nth i HomeView.exampleQuestions [] /\
  nth i HomeView.exampleQuestions [] <> [].
Proof.
  intros Hi. change (length HomeView.exampleQuestions) with 5%nat in Hi.
  do 5 (destruct i as [|i]; [split; [vm_compute; reflexivity | discriminate]|]).
  lia.
Qed.

Lemma app_start_request (now text : list N) (l : list JsValue)
    (w : World App.State) :
  app_messages w = JArr l ->
  app_loading w = false ->
  trim (App.inputText (component w)) = text ->
  text <> [] ->
  App.sendMessage_start now w =
    (with_component
       (fun s => App.set_loading true
                   (App.set_inputText []
                      (App.set_messages (JArr (l ++ [user_message text now])) s)))
       w,
     Return (Some {| App.sent_text := text;
                     App.request := app_request text (App.userId (component w)) |})).
Proof.
  intros Hm Hl Ht Hne.
  destruct w as [s [msgs inp ld cs uid]].
  unfold app_messages, app_loading in *. simpl in *. subst msgs ld.
  unfold App.sendMessage_start, App.push, App.autoResize, App.scrollToBottom.
  unfold_m. simpl. rewrite Ht.
  rewrite bool_decide_eq_false_2 by exact Hne. reflexivity.
Qed.

Lemma app_start_keeps_array now (w : World App.State) :
  is_array (app_messages w) = true ->
  is_array (app_messages (fst (App.sendMessage_start now w))) = true.
Proof.
  destruct w as [s [msgs inp ld cs uid]]. unfold app_messages.
  unfold App.sendMessage_start, App.push, App.autoResize, App.scrollToBottom.
  unfold_m. simpl.
  destruct (bool_decide (trim inp = [])); simpl; [tauto|].
  destruct ld; simpl; [tauto|].
  destruct msgs; simpl; try discriminate. reflexivity.
Qed.

Lemma app_call_keeps_array now (w : World App.State) :
  is_array (app_messages w) = true ->
  is_array (app_messages (fst (AppLoop.call_sendMessage now w))) = true.
Proof.
  intros H. pose proof (app_start_keeps_array now w H) as Hk.
  unfold AppLoop.call_sendMessage.
  destruct (App.sendMessage_start now w) as [w' [started|e]]; exact Hk.
Qed.

Lemma app_resume_keeps text reply now (w : World App.State) :
  is_array (app_messages w) = true ->
  is_array (app_messages (fst (App.sendMessage_resume text reply now w))) = true /\
  App.inputText (component (fst (App.sendMessage_resume text reply now w)))
    = App.inputText (component w).
Proof.
  intros H. destruct (app_messages w) as [| | | | |msgs|] eqn:Hm; try discriminate.
  unfold app_messages.
  rewrite (app_resume_refs text reply now msgs w Hm). split; reflexivity.
Qed.

(** A turn of the loop keeps what [app_staged] says. *)
Lemma app_step_staged env t0 l l' :
  app_staged t0 l -> AppLoop.step env l = Some l' ->
  app_staged t0 l' /\
  (loop_potential app_callbacks l' < loop_potential app_callbacks l)%nat.
Proof.
  intros (Hrun & Harr & Hin) Hs.
  destruct (app_step_running env t0 l l' Hrun Hs) as [Hrun' Hpot].
  split; [|exact Hpot]. split; [exact Hrun'|].
  destruct Hrun as [Ho (p & Hp & Hlog & Htm & Hidx & Hclk)].
  assert (Hlen : length (log l) = p).
  { eapply log_length; [exact Hlog|]. unfold app_schedule.
    rewrite length_map, length_seq. exact Hp. }
  destruct (step_cases _ _ _ _ _ _ Hs)
    as [(t & k & o & rest & Hpick & -> & Hdue)|(due & task & ts & Hpick & ->)].
  - cbn [deliver world log]. unfold AppLoop.on_reply. cbn [AppLoop.app].
    destruct (app_resume_keeps (App.sent_text k) o
                (iso env (N.max (clock l) t)) (AppLoop.app (world l)) Harr)
      as [Ha Hi].
    split; [exact Ha|]. intros i Hi1 Hi2. rewrite Hi. by apply Hin.
  - rewrite Htm in Hpick.
    destruct (p <? app_callbacks)%nat eqn:Hlt; [|discriminate].
    simpl in Hpick. injection Hpick as Hd <-.
    unfold fire.
    destruct (AppLoop.on_timer task _ (world l)) as [[w new] started] eqn:Eon.
    cbn [world log]. rewrite length_app, Hlen. cbn [length].
    unfold app_entry in Hd.
    destruct (parity_cases p)
      as [(k & -> & Hev & Hdiv & _ & _)|(k & -> & Hev & Hdiv & _ & _)];
      rewrite Hev in Hd; injection Hd as <- <-.
    + unfold AppLoop.on_timer in Eon. rewrite Hidx, Hdiv in Eon.
      destruct (Nat.ltb_spec k (length App.exampleQuestions)) as [Hk|Hk];
        injection Eon as <- <- <-; cbn [AppLoop.app].
      * split; [exact Harr|]. intros i Hi1 Hi2.
        assert (i = k) by lia. subst i. reflexivity.
      * split; [exact Harr|]. intros i Hi1 Hi2. lia.
    + unfold AppLoop.on_timer in Eon.
      match type of Eon with context [AppLoop.call_sendMessage ?n ?w0] =>
        pose proof (app_call_keeps_array n w0 Harr) as Hk end.
      destruct (AppLoop.call_sendMessage _ _) as [w1 st1].
      injection Eon as <- <- <-. cbn [AppLoop.app].
      split; [exact Hk|]. intros i Hi1 Hi2. lia.
Qed.

Lemma app_loadExamples_staged env t0 (w : World App.State) :
  app_loading w = false ->
  is_array (app_messages w) = true ->
  app_staged t0 (AppLoop.loadExamples env (AppLoop.idle_at t0 w)).
Proof.
  intros Hl Ha. split; [by apply app_loadExamples_running|].
  unfold AppLoop.loadExamples, AppLoop.fire, fire, AppLoop.idle_at.
  cbn [clock timers inflight issued world log AppLoop.on_timer AppLoop.index
       AppLoop.app].
  change (0 <? length App.exampleQuestions)%nat with true. cbv iota.
  cbn [world log AppLoop.app app length].
  split; [exact Ha|]. intros i Hi1 Hi2.
  assert (i = 0)%nat by lia. subst i. reflexivity.
Qed.

Lemma app_run_staged env t0 n l :
  app_staged t0 l -> app_staged t0 (AppLoop.run env n l).
Proof.
  apply (run_keeps AppLoop.on_timer AppLoop.on_reply AppLoop.busy env
           (app_staged t0) (loop_potential app_callbacks)).
  intros. by apply (app_step_staged env t0).
Qed.

Lemma app_entry_odd t0 i :
  app_entry t0 (2 * i + 1)
    = ((t0 + 2100 * N.of_nat i + 100)%N, AppLoop.Fire).
Proof.
  unfold app_entry.
  destruct (parity_cases (2 * i + 1))
    as [(k & Hk & _)|(k & Hk & Hev & Hdiv & _)]; [lia|].
  rewrite Hev, Hdiv. replace k with i by lia. reflexivity.
Qed.

(** The turn that runs the callback after the staging of question [i]
    is the call of [sendMessage] for that question. *)
Lemma app_turn_is_call env t0 i l l' :
  app_staged t0 l ->
  (i < length App.exampleQuestions)%nat ->
  AppLoop.step env l = Some l' ->
  length (log l) = (2 * i + 1)%nat ->
  length (log l') = (2 * i + 2)%nat ->
  app_call env (nth i App.exampleQuestions []) (t0 + 2100 * N.of_nat i + 100) l l'.
Proof.
  intros (Hrun & Harr & Hin) Hi Hs Hl Hl'.
  specialize (Hin i Hl Hi).
  destruct Hrun as [Ho (p & Hp & Hlog & Htm & Hidx & Hclk)].
  assert (Hlen : length (log l) = p).
  { eapply log_length; [exact Hlog|]. unfold app_schedule.
    rewrite length_map, length_seq. exact Hp. }
  assert (Hp2 : (p = 2 * i + 1)%nat) by lia. clear Hlen. subst p.
  destruct (step_cases _ _ _ _ _ _ Hs)
    as [(t & k & o & rest & Hpick & -> & Hdue)|(due & task & ts & Hpick & ->)].
  { cbn [deliver log] in Hl'. lia. }
  assert (Hlt : (2 * i + 1 < app_callbacks)%nat).
  { unfold app_callbacks. lia. }
  pose proof Hlt as Hltb. apply Nat.ltb_lt in Hltb.
  specialize (Hclk Hlt).
  rewrite Hltb, app_entry_odd in Htm. rewrite app_entry_odd in Hclk.
  rewrite Htm in Hpick. cbn [fst] in Hclk.
  cbn [pick_timer] in Hpick. injection Hpick as <- <- <-.
  unfold app_call, fire.
  replace (N.max (clock l) (t0 + 2100 * N.of_nat i + 100))
    with (t0 + 2100 * N.of_nat i + 100)%N by lia.
  unfold AppLoop.on_timer, AppLoop.call_sendMessage.
  destruct (AppLoop.busy (world l)) eqn:Hb.
  - rewrite app_rejected by (right; exact Hb).
    cbn [log world inflight issued AppLoop.app]. rewrite app_nil_r.
    split_and!; try reflexivity. exact Hin.
  - destruct (app_messages (AppLoop.app (world l))) as [| | | | |msgs|] eqn:Hm;
      try discriminate.
    destruct (app_examples_plain i Hi) as [Htrim Hne].
    rewrite (app_start_request _ (nth i App.exampleQuestions []) msgs
               (AppLoop.app (world l)) Hm Hb);
      [| rewrite Hin; exact Htrim | exact Hne].
    cbn [log world inflight issued AppLoop.app].
    split_and!; try reflexivity; [exact Hin|].
    exists msgs. split_and!; try reflexivity.
    destruct Ho as [[Hnone _]|(x & _ & Hx)]; [|congruence].
    rewrite Hnone. reflexivity.
Qed.

(** Every example question of App.vue gets its call. *)
Lemma app_calls env t0 (a : World App.State) :
  app_loading a = false ->
  is_array (app_messages a) = true ->
  app_batch_calls env t0 a.
Proof.
  intros Hl Ha. unfold app_batch_calls. cbv zeta.
  set (start := AppLoop.loadExamples env (AppLoop.idle_at t0 a)).
  intros i Hi.
  pose proof (app_loadExamples_staged env t0 a Hl Ha) as Hstart.
  fold start in Hstart. split.
  - destruct (app_batch_run env t0 28 a Hl (Nat.le_refl 28))
      as (_ & _ & Hlog & _ & _).
    apply (f_equal (@length _)) in Hlog.
    rewrite length_map in Hlog. unfold app_schedule in Hlog.
    rewrite length_map, length_seq in Hlog.
    destruct (run_passes AppLoop.on_timer AppLoop.on_reply AppLoop.busy env 28
                (2 * i + 1) start) as (m & l' & Hs & H1 & H2).
    + change (length (log start)) with 1%nat. lia.
    + fold (AppLoop.run env 28 start). unfold start. rewrite Hlog.
      unfold app_callbacks. lia.
    + exists m, l'. split_and!; [exact Hs | exact H1 | lia].
  - intros m l' Hs Hl1 Hl2.
    apply (app_turn_is_call env t0 i); try assumption.
    by apply app_run_staged.
Qed.

Lemma chat_start_request (now text : list N) (l : list JsValue)
    (w : World ChatInterface.State) :
  usable (localStorage w) ->
  chat_messages w = JArr l ->
  chat_loading w = false ->
  trim (ChatInterface.inputText (component w)) = text ->
  text <> [] ->
  ChatInterface.sendMessage_start now w =
    (with_items
       (fun m => <[k_chat_history :=
                    history_text (JArr (l ++ [user_message text now]))]> m)
       (with_component
          (fun s => ChatInterface.set_loading true
                      (ChatInterface.set_inputText []
                         (ChatInterface.set_messages
                            (JArr (l ++ [user_message text now])) s))) w),
     Return (Some (chat_request text w))).
Proof.
  intros [Hd Hf] Hm Hl Ht Hne.
  destruct w as [[d f it] [init msgs inp ld uid]].
  unfold chat_messages, chat_loading in *. simpl in *. subst d f msgs ld.
  unfold ChatInterface.sendMessage_start, ChatInterface.settle,
    ChatInterface.push, ChatInterface.saveHistory, ChatInterface.query_argument,
    ChatInterface.emit, ChatInterface.scrollToBottom, ChatInterface.console_error.
  unfold_m. simpl. rewrite Ht.
  rewrite bool_decide_eq_false_2 by exact Hne. simpl.
  unfold chat_request. simpl.
  rewrite lookup_insert_ne by discriminate. reflexivity.
Qed.

Lemma chat_start_keeps now (w : World ChatInterface.State) :
  usable (localStorage w) ->
  is_array (chat_messages w) = true ->
  usable (localStorage (fst (ChatInterface.sendMessage_start now w))) /\
  is_array (chat_messages (fst (ChatInterface.sendMessage_start now w))) = true.
Proof.
  intros [Hd Hf] Ha.
  destruct w as [[d f it] [init msgs inp ld uid]].
  unfold chat_messages, usable in *. simpl in *. subst d f.
  unfold ChatInterface.sendMessage_start, ChatInterface.settle,
    ChatInterface.push, ChatInterface.saveHistory, ChatInterface.query_argument,
    ChatInterface.emit, ChatInterface.scrollToBottom, ChatInterface.console_error.
  unfold_m. simpl.
  destruct (bool_decide (trim inp = [])); simpl; [by split_and!|].
  destruct ld; simpl; [by split_and!|].
  destruct msgs; simpl; try discriminate. by split_and!.
Qed.

(** The timer callback of [loadExampleQuestions] is the chat's
    [sendMessage] on the input [q], its promise dropped. *)
Lemma home_on_timer_example q now (w : World HomeView.State) :
  HomeLoop.on_timer (HomeLoop.Example q) now w =
    ({| localStorage :=
          localStorage (fst (ChatInterface.sendMessage_start now (home_chat q w)));
        component :=
          HomeView.set_chat
            (component (fst (ChatInterface.sendMessage_start now (home_chat q w))))
            (component w) |},
     [],
     match snd (ChatInterface.sendMessage_start now (home_chat q w)) with
     | Return r => r
     | Throw _ => None
     end).
Proof.
  unfold HomeLoop.on_timer, HomeView.sendExampleQuestion, HomeView.in_chat, zoom.
  unfold bind, write, modify.
  change (with_component (ChatInterface.set_inputText q)
            {| localStorage := localStorage w;
               component := HomeView.chat_of (component w) |})
    with (home_chat q w).
  destruct (ChatInterface.sendMessage_start now (home_chat q w)) as [c' [r|e]];
    reflexivity.
Qed.

Lemma home_on_timer_keeps task now (w : World HomeView.State) :
  usable (localStorage w) ->
  is_array (home_messages w) = true ->
  usable (localStorage (fst (fst (HomeLoop.on_timer task now w)))) /\
  is_array (home_messages (fst (fst (HomeLoop.on_timer task now w)))) = true.
Proof.
  intros Hu Ha.
  assert (H : forall q,
    usable (localStorage (fst (fst (HomeLoop.on_timer (HomeLoop.Example q) now w)))) /\
    is_array (home_messages
                (fst (fst (HomeLoop.on_timer (HomeLoop.Example q) now w)))) = true).
  { intros q. rewrite home_on_timer_example. cbn [fst].
    destruct (chat_start_keeps now (home_chat q w) Hu Ha) as [Hu' Ha'].
    split; [exact Hu' | exact Ha']. }
  destruct task as [q|q]; apply (H q).
Qed.

Lemma home_on_reply_keeps k reply now (w : World HomeView.State) :
  usable (localStorage w) ->
  is_array (home_messages w) = true ->
  usable (localStorage (HomeLoop.on_reply k reply now w)) /\
  is_array (home_messages (HomeLoop.on_reply k reply now w)) = true.
Proof.
  intros Hu Ha. unfold HomeLoop.on_reply, HomeView.in_chat, zoom.
  destruct (home_messages w) as [| | | | |msgs|] eqn:Hm; try discriminate.
  rewrite (chat_resume_appends reply now msgs
             {| localStorage := localStorage w;
                component := HomeView.chat_of (component w) |} Hu Hm).
  split; [exact Hu | reflexivity].
Qed.

Lemma home_step_sound env t0 l l' :
  home_sound t0 l -> HomeLoop.step env l = Some l' ->
  home_sound t0 l' /\
  (loop_potential (length HomeView.exampleQuestions) l'
   < loop_potential (length HomeView.exampleQuestions) l)%nat.
Proof.
  intros (Hrun & Hu & Ha) Hs.
  destruct (home_step_running env t0 l l' Hrun Hs) as [Hrun' Hpot].
  split; [|exact Hpot]. split; [exact Hrun'|].
  destruct (step_cases _ _ _ _ _ _ Hs)
    as [(t & k & o & rest & _ & -> & _)|(due & task & ts & _ & ->)].
  - cbn [deliver world]. by apply home_on_reply_keeps.
  - pose proof (home_on_timer_keeps task (iso env (N.max (clock l) due))
                  (world l) Hu Ha) as Hk.
    unfold fire.
    destruct (HomeLoop.on_timer task _ (world l)) as [[w new] started].
    exact Hk.
Qed.

Lemma home_run_sound env t0 n l :
  home_sound t0 l -> home_sound t0 (HomeLoop.run env n l).
Proof.
  apply (run_keeps HomeLoop.on_timer HomeLoop.on_reply HomeLoop.busy env
           (home_sound t0) (loop_potential (length HomeView.exampleQuestions))).
  intros. by apply (home_step_sound env t0).
Qed.

Lemma home_schedule_lookup t0 i :
  (i < length HomeView.exampleQuestions)%nat ->
  home_schedule t0 !! i
    = Some ((t0 + N.of_nat i * 2000)%N,
            HomeLoop.Example (nth i HomeView.exampleQuestions [])).
Proof.
  intros Hi. unfold home_schedule, HomeLoop.example_timers.
  rewrite list_lookup_imap.
  destruct (lookup_lt_is_Some_2 HomeView.exampleQuestions i Hi) as [q Hq].
  rewrite Hq. cbn. do 3 f_equal.
  symmetry. apply nth_lookup_Some with (d := []) in Hq. exact Hq.
Qed.

(** The turn that runs callback [i] of [loadExampleQuestions] is the
    call for question [i]. *)
Lemma home_turn_is_call env t0 i l l' :
  home_sound t0 l ->
  (i < length HomeView.exampleQuestions)%nat ->
  HomeLoop.step env l = Some l' ->
  length (log l) = i ->
  length (log l') = S i ->
  home_call env (nth i HomeView.exampleQuestions []) (t0 + N.of_nat i * 2000) l l'.
Proof.
  intros (Hrun & Hu & Ha) Hi Hs Hl Hl'.
  destruct Hrun as [Ho (p & Hp & Hlog & Htm & Hclk)].
  assert (Hlen : length (log l) = p).
  { eapply log_length; [exact Hlog|]. rewrite home_schedule_length. exact Hp. }
  assert (Hpi : p = i) by lia. clear Hlen. subst p.
  pose proof (home_schedule_lookup t0 i Hi) as He.
  destruct (home_examples_plain i Hi) as [Htrim Hne].
  remember (nth i HomeView.exampleQuestions []) as q eqn:Hq.
  specialize (Hclk _ He). cbn [fst] in Hclk.
  destruct (step_cases _ _ _ _ _ _ Hs)
    as [(t & k & o & rest & Hpick & -> & Hdue)|(due & task & ts & Hpick & ->)].
  { cbn [deliver log] in Hl'. lia. }
  rewrite Htm, (home_pick t0 _ _ He) in Hpick.
  injection Hpick as <- <- <-.
  unfold home_call, fire.
  replace (N.max (clock l) (t0 + N.of_nat i * 2000))
    with (t0 + N.of_nat i * 2000)%N by lia.
  rewrite home_on_timer_example.
  set (now := iso env (t0 + N.of_nat i * 2000)).
  cbn [log world inflight issued].
  split; [reflexivity|].
  destruct (HomeLoop.busy (world l)) eqn:Hb.
  - rewrite (chat_rejected now (home_chat q (world l))) by (right; exact Hb).
    cbn [fst snd]. rewrite app_nil_r. split_and!; reflexivity.
  - destruct (home_messages (world l)) as [| | | | |msgs|] eqn:Hm;
      try discriminate.
    rewrite (chat_start_request now q msgs (home_chat q (world l)) Hu Hm Hb Htrim Hne).
    cbn [fst snd].
    exists msgs. split_and!; try reflexivity.
    + unfold stored_history. cbn. apply lookup_insert_eq.
    + destruct Ho as [[Hnone _]|(x & _ & Hx)]; [|congruence].
      rewrite Hnone. reflexivity.
Qed.

Lemma home_loadExampleQuestions_sound t0 (h : World HomeView.State) :
  HomeLoop.busy h = false ->
  usable (localStorage h) ->
  is_array (home_messages h) = true ->
  home_sound t0 (HomeLoop.loadExampleQuestions (HomeLoop.idle_at t0 h)).
Proof.
  intros Hl Hu Ha. split; [by apply home_loadExampleQuestions_running|].
  split; [exact Hu | exact Ha].
Qed.

(** Every example question of HomeView.vue gets its call. *)
Lemma home_calls env t0 (h : World HomeView.State) :
  HomeLoop.busy h = false ->
  usable (localStorage h) ->
  is_array (home_messages h) = true ->
  home_batch_calls env t0 h.
Proof.
  intros Hl Hu Ha. unfold home_batch_calls. cbv zeta.
  set (start := HomeLoop.loadExampleQuestions (HomeLoop.idle_at t0 h)).
  intros i Hi.
  pose proof (home_loadExampleQuestions_sound t0 h Hl Hu Ha) as Hstart.
  fold start in Hstart. split.
  - destruct (home_batch_run env t0 10 h Hl (Nat.le_refl 10))
      as (_ & _ & Hlog & _).
    apply (f_equal (@length _)) in Hlog.
    rewrite length_map, home_schedule_length in Hlog.
    apply (run_passes HomeLoop.on_timer HomeLoop.on_reply HomeLoop.busy env 10).
    + change (length (log start)) with 0%nat. lia.
    + fold (HomeLoop.run env 10 start). unfold start. rewrite Hlog. exact Hi.
  - intros m l' Hs Hl1 Hl2.
    apply (home_turn_is_call env t0 i); try assumption.
    by apply home_run_sound.
Qed.

(** C5 as the code has it: the batch runners work on timers alone. The
    callbacks run at the instants of a fixed timetable whatever the
    replies are (App.vue: question i staged at 2100 i ms and sent 100 ms
    later, the next staging 2000 ms after that; HomeView.vue: question i
    sent at 2000 i ms), never are two requests in flight, and the loop
    comes to rest after the last question with no timer left. Every
    question gets its call of [sendMessage] in some turn of the run, with
    that question as the input: a call that finds a send in flight is
    dropped without a request and leaves the conversation alone; a call
    that finds none appends the user message for the question, turns
    loading on and leaves one request for that question in flight. The
    accepted call needs what a send needs: a conversation that is a
    list and, in ChatInterface.vue, a usable store. *)
Theorem batch_runner_follows_its_timers (env : Env) (t0 : N) (n : nat)
    (a : World App.State) (h : World HomeView.State) :
  (app_loading a = false -> (28 <= n)%nat -> app_batch_result env t0 n a) /\
  (HomeLoop.busy h = false -> (10 <= n)%nat -> home_batch_result env t0 n h) /\
  app_busy_call_is_dropped /\
  home_busy_call_is_dropped /\
  (app_loading a = false -> is_array (app_messages a) = true ->
   app_batch_calls env t0 a) /\
  (HomeLoop.busy h = false -> usable (localStorage h) ->
   is_array (home_messages h) = true ->
   home_batch_calls env t0 h).
Proof.
  split_and!.
  - intros Hl Hn. by apply app_batch_run.
  - intros Hl Hn. by apply home_batch_run.
  - apply app_busy_dropped.
  - apply home_busy_dropped.
  - intros Hl Ha. by apply app_calls.
  - intros Hl Hu Ha. by apply home_calls.
Qed.

Lemma batch_runner_follows_its_timers_witness :
  app_batch_result env_slow 0 28 app_idle /\
  home_batch_result env_slow 0 10 home_idle /\
  app_batch_calls env_slow 0 app_idle /\
  home_batch_calls env_slow 0 home_idle.
Proof.
  pose proof (batch_runner_follows_its_timers env_slow 0%N 28 app_idle home_idle)
    as (Ha & _ & _ & _ & Hac & Hhc).
  pose proof (batch_runner_follows_its_timers env_slow 0%N 10 app_idle home_idle)
    as (_ & Hh & _).
  split_and!.
  - apply Ha; [reflexivity | lia].
  - apply Hh; [reflexivity | lia].
  - apply Hac; reflexivity.
  - apply Hhc; [reflexivity | split; reflexivity | reflexivity].
Defined.
(** X1: a send of text that trims to something, made at rest, ends with
    exactly two messages appended after the untouched earlier ones: the
    user message holding the trimmed text, then one message of role
    assistant; this for every reply, success or failure. The input is
    cleared and loading is false. ChatInterface.vue needs the store
    usable (it saves before the request) and then returns normally;
    App.vue appends the pair even on a failing store. *)
Theorem send_appends_question_then_answer (now later text : list N)
    (l : list JsValue) (reply : FetchOutcome)
    (c : World ChatInterface.State) (a : World App.State) :
  text <> [] ->
  (usable (localStorage c) -> chat_messages c = JArr l ->
   chat_loading c = false ->
   trim (ChatInterface.inputText (component c)) = text ->
   exists m, role_of m = JStr s_assistant /\
             chat_sent now later text l m reply c) /\
  (app_messages a = JArr l -> app_loading a = false ->
   trim (App.inputText (component a)) = text ->
   exists m, role_of m = JStr s_assistant /\
             app_sent now later text l m reply a).
Proof.
  intros Hne. split.
  - intros Hu Hm Hl Ht. exists (chat_reply reply later).
    split; [apply chat_reply_role|]. unfold chat_sent.
    rewrite (chat_send_whole now later text l reply c Hne Hu Hm Hl Ht).
    split_and!; reflexivity.
  - intros Hm Hl Ht. exists (app_reply text reply later).
    split; [apply app_reply_role|]. unfold app_sent, app_messages, app_loading.
    rewrite (app_send_whole_refs now later text l reply a Hne Hm Hl Ht).
    split_and!; reflexivity.
Qed.

Lemma send_appends_question_then_answer_witness :
  (exists m, role_of m = JStr s_assistant /\
             chat_sent sample_time later_time text_x
               [ChatInterface.greeting sample_time] m answer_ok chat_asking) /\
  (exists m, role_of m = JStr s_assistant /\
             app_sent sample_time later_time text_x
               [App.greeting sample_time] m server_error
               (app_with full_store [32; 120; 32]%N false)).
Proof.
  assert (Hne : text_x <> []) by discriminate.
  split.
  - apply (proj1 (send_appends_question_then_answer sample_time later_time text_x
                    [ChatInterface.greeting sample_time] answer_ok chat_asking
                    (app_with full_store [32; 120; 32]%N false) Hne)).
    + split; reflexivity.
    + reflexivity.
    + reflexivity.
    + reflexivity.
  - apply (proj2 (send_appends_question_then_answer sample_time later_time text_x
                    [App.greeting sample_time] server_error chat_asking
                    (app_with full_store [32; 120; 32]%N false) Hne)).
    + reflexivity.
    + reflexivity.
    + reflexivity.
Defined.

(** X2: when the request is answered by a success whose body is the JSON
    text of a value other than null, the assistant message appended by
    the send is read off that value: content is its [response], the time
    stamp and the three context lists are its own when truthy and else
    the time of the reply and empty arrays. ChatInterface.vue keeps the
    lists under [retrievalContext], App.vue under [context]; App.vue
    also switches its connection indicator to connected. *)
Theorem answered_send_shows_the_answer (now later text : list N)
    (l : list JsValue) (reply : FetchOutcome) (data : JsValue)
    (c : World ChatInterface.State) (a : World App.State) :
  text <> [] -> answered reply data -> data <> JNull ->
  (usable (localStorage c) -> chat_messages c = JArr l ->
   chat_loading c = false ->
   trim (ChatInterface.inputText (component c)) = text ->
   chat_sent now later text l (answer_message k_retrievalContext data later)
     reply c) /\
  (app_messages a = JArr l -> app_loading a = false ->
   trim (App.inputText (component a)) = text ->
   app_sent now later text l (answer_message k_context data later) reply a /\
   App.connectionStatus (component (fst (App.sendMessage now reply later a)))
     = App.connected).
Proof.
  intros Hne Ha Hn. split.
  - intros Hu Hm Hl Ht. unfold chat_sent.
    rewrite (chat_send_whole now later text l reply c Hne Hu Hm Hl Ht).
    rewrite (chat_reply_answered reply data later Ha Hn).
    split_and!; reflexivity.
  - intros Hm Hl Ht. unfold app_sent, app_messages, app_loading.
    rewrite (app_send_whole_refs now later text l reply a Hne Hm Hl Ht).
    destruct (app_reply_answered text reply data later Ha Hn) as [-> ->].
    split_and!; reflexivity.
Qed.

Lemma sample_answered : answered answer_ok sample_answer.
Proof. exists 200%Z, (history_text sample_answer). split_and!; reflexivity. Qed.

Lemma answered_send_shows_the_answer_witness :
  chat_sent sample_time later_time text_x [ChatInterface.greeting sample_time]
    (answer_message k_retrievalContext sample_answer later_time)
    answer_ok chat_asking /\
  app_sent sample_time later_time text_x [App.greeting sample_time]
    (answer_message k_context sample_answer later_time) answer_ok app_asking /\
  App.connectionStatus
    (component (fst (App.sendMessage sample_time answer_ok later_time app_asking)))
    = App.connected.
Proof.
  assert (Hne : text_x <> []) by discriminate.
  assert (Hn : sample_answer <> JNull) by discriminate.
  split.
  - apply (proj1 (answered_send_shows_the_answer sample_time later_time text_x
                    [ChatInterface.greeting sample_time] answer_ok sample_answer
                    chat_asking app_asking Hne sample_answered Hn)).
    + split; reflexivity.
    + reflexivity.
    + reflexivity.
    + reflexivity.
  - apply (proj2 (answered_send_shows_the_answer sample_time later_time text_x
                    [App.greeting sample_time] answer_ok sample_answer
                    chat_asking app_asking Hne sample_answered Hn)).
    + reflexivity.
    + reflexivity.
    + reflexivity.
Defined.

Lemma null_reply_chat (reply : FetchOutcome) (later : list N) :
  answered reply JNull -> chat_reply reply later = ChatInterface.error_message later.
Proof.
  intros Ha. unfold chat_reply.
  rewrite (answered_query_result _ _ Ha). reflexivity.
Qed.

Lemma null_reply_app (text : list N) (reply : FetchOutcome) (later : list N) :
  answered reply JNull ->
  app_reply text reply later = App.mock_message text later /\
  app_reply_status reply later = App.disconnected.
Proof.
  intros Ha. unfold app_reply, app_reply_status.
  rewrite (answered_query_result _ _ Ha). split; reflexivity.
Qed.

(** X3: a success whose body is the JSON text null is handled as a
    failure. Reading [response] off null throws inside the try block, so
    ChatInterface.vue appends its apology and App.vue appends its mock
    answer and shows disconnected, although the service answered. *)
Theorem null_answer_is_handled_as_a_failure (now later text : list N)
    (l : list JsValue) (reply : FetchOutcome)
    (c : World ChatInterface.State) (a : World App.State) :
  text <> [] -> answered reply JNull ->
  (usable (localStorage c) -> chat_messages c = JArr l ->
   chat_loading c = false ->
   trim (ChatInterface.inputText (component c)) = text ->
   chat_sent now later text l (ChatInterface.error_message later) reply c) /\
  (app_messages a = JArr l -> app_loading a = false ->
   trim (App.inputText (component a)) = text ->
   app_sent now later text l (App.mock_message text later) reply a /\
   App.connectionStatus (component (fst (App.sendMessage now reply later a)))
     = App.disconnected).
Proof.
  intros Hne Ha. split.
  - intros Hu Hm Hl Ht. unfold chat_sent.
    rewrite (chat_send_whole now later text l reply c Hne Hu Hm Hl Ht).
    rewrite (null_reply_chat reply later Ha).
    split_and!; reflexivity.
  - intros Hm Hl Ht. unfold app_sent, app_messages, app_loading.
    rewrite (app_send_whole_refs now later text l reply a Hne Hm Hl Ht).
    destruct (null_reply_app text reply later Ha) as [-> ->].
    split_and!; reflexivity.
Qed.

Lemma null_answered : answered answer_null JNull.
Proof. exists 200%Z, JSON.s_null. split_and!; reflexivity. Qed.

Lemma null_answer_is_handled_as_a_failure_witness :
  chat_sent sample_time later_time text_x [ChatInterface.greeting sample_time]
    (ChatInterface.error_message later_time) answer_null chat_asking /\
  app_sent sample_time later_time text_x [App.greeting sample_time]
    (App.mock_message text_x later_time) answer_null app_asking /\
  App.connectionStatus
    (component (fst (App.sendMessage sample_time answer_null later_time app_asking)))
    = App.disconnected.
Proof.
  assert (Hne : text_x <> []) by discriminate.
  split.
  - apply (proj1 (null_answer_is_handled_as_a_failure sample_time later_time text_x
                    [ChatInterface.greeting sample_time] answer_null
                    chat_asking app_asking Hne null_answered)).
    + split; reflexivity.
    + reflexivity.
    + reflexivity.
    + reflexivity.
  - apply (proj2 (null_answer_is_handled_as_a_failure sample_time later_time text_x
                    [App.greeting sample_time] answer_null
                    chat_asking app_asking Hne null_answered)).
    + reflexivity.
    + reflexivity.
    + reflexivity.
Defined.

(** X4: when the history is written. ChatInterface.vue saves the
    conversation with the new question before it waits for the reply;
    App.vue leaves the store as it is until the reply settles. Once the
    send is over, on a usable store, both hold under [chat_history] the
    JSON text of exactly the conversation shown. *)
Theorem history_is_saved_around_the_wait (now later text : list N)
    (l : list JsValue) (reply : FetchOutcome)
    (c : World ChatInterface.State) (a : World App.State) :
  text <> [] ->
  (usable (localStorage c) -> chat_messages c = JArr l ->
   chat_loading c = false ->
   trim (ChatInterface.inputText (component c)) = text ->
   stored_history (fst (ChatInterface.sendMessage_start now c))
     = Some (history_text (JArr (l ++ [user_message text now]))) /\
   stored_history (fst (ChatInterface.sendMessage now reply later c))
     = Some (history_text
               (chat_messages (fst (ChatInterface.sendMessage now reply later c))))) /\
  (app_messages a = JArr l -> app_loading a = false ->
   trim (App.inputText (component a)) = text ->
   localStorage (fst (App.sendMessage_start now a)) = localStorage a /\
   (usable (localStorage a) ->
    stored_history (fst (App.sendMessage now reply later a))
      = Some (history_text
                (app_messages (fst (App.sendMessage now reply later a)))))).
Proof.
  intros Hne. split.
  - intros Hu Hm Hl Ht.
    destruct (chat_start_accepted now text l c Hu Hm Hl Ht Hne) as [req ->].
    rewrite (chat_send_whole now later text l reply c Hne Hu Hm Hl Ht).
    unfold stored_history. cbn. rewrite !lookup_insert_eq. split; reflexivity.
  - intros Hm Hl Ht.
    destruct (app_start_accepted now text l a Hm Hl Ht Hne) as [req ->].
    split; [reflexivity|]. intros Hu.
    rewrite (app_send_whole now later text l reply a Hne Hu Hm Hl Ht).
    unfold stored_history. cbn. rewrite !lookup_insert_eq. reflexivity.
Qed.

Lemma history_is_saved_around_the_wait_witness :
  (stored_history (fst (ChatInterface.sendMessage_start sample_time chat_asking))
     = Some (history_text (JArr ([ChatInterface.greeting sample_time]
                                   ++ [user_message text_x sample_time]))) /\
   stored_history
     (fst (ChatInterface.sendMessage sample_time answer_ok later_time chat_asking))
     = Some (history_text
               (chat_messages
                  (fst (ChatInterface.sendMessage sample_time answer_ok later_time
                          chat_asking))))) /\
  (localStorage (fst (App.sendMessage_start sample_time app_asking))
     = localStorage app_asking /\
   stored_history
     (fst (App.sendMessage sample_time answer_ok later_time app_asking))
     = Some (history_text
               (app_messages
                  (fst (App.sendMessage sample_time answer_ok later_time
                          app_asking))))).
Proof.
  assert (Hne : text_x <> []) by discriminate.
  split.
  - apply (proj1 (history_is_saved_around_the_wait sample_time later_time text_x
                    [ChatInterface.greeting sample_time] answer_ok
                    chat_asking app_asking Hne)).
    + split; reflexivity.
    + reflexivity.
    + reflexivity.
    + reflexivity.
  - destruct (proj2 (history_is_saved_around_the_wait sample_time later_time text_x
                      [App.greeting sample_time] answer_ok
                      chat_asking app_asking Hne)
                eq_refl eq_refl eq_refl) as [Hstart Hend].
    split; [exact Hstart | apply Hend; split; reflexivity].
Defined.

(** X5: ChatInterface.vue with a stored history that is JSON but not a
    list. [loadHistory] installs the value as the conversation; from
    then on every send of non-blank text throws a TypeError at its
    first push and changes nothing, so the question stays in the input
    and nothing is saved; loading the history again installs the same
    value. A confirmed [clearChat] ends this: the conversation is the
    initial messages again and the stored history is gone. *)
Theorem chat_without_a_list_is_stuck_until_reset (now text : list N)
    (v : JsValue) (w : World ChatInterface.State) :
  denied (localStorage w) = false ->
  stored_history w = Some text ->
  JSON.parse text = Some v ->
  is_array v = false ->
  chat_loading w = false ->
  trim (ChatInterface.inputText (component w)) <> [] ->
  chat_messages (fst (ChatInterface.loadHistory w)) = v /\
  ChatInterface.sendMessage_start now (fst (ChatInterface.loadHistory w))
    = (fst (ChatInterface.loadHistory w), Throw TypeError) /\
  ChatInterface.loadHistory (fst (ChatInterface.loadHistory w))
    = (fst (ChatInterface.loadHistory w), Return tt) /\
  chat_messages (fst (ChatInterface.clearChat true (fst (ChatInterface.loadHistory w))))
    = JArr (ChatInterface.initialMessages (component w)) /\
  stored_history (fst (ChatInterface.clearChat true (fst (ChatInterface.loadHistory w))))
    = None.
Proof.
  intros Hd Hs Hp Ha Hl Ht.
  rewrite (chat_load_installs w text v Hd Hs Hp). cbn [fst].
  split_and!.
  - reflexivity.
  - destruct w as [[d f it] [init msgs inp ld uid]].
    unfold chat_loading in Hl. simpl in *. subst ld.
    unfold ChatInterface.sendMessage_start, ChatInterface.push.
    unfold_m. simpl.
    rewrite bool_decide_eq_false_2 by exact Ht. simpl.
    destruct v; try discriminate; reflexivity.
  - rewrite (chat_load_installs (with_component (ChatInterface.set_messages v) w)
               text v Hd Hs Hp).
    destruct w as [s [init msgs inp ld uid]]. reflexivity.
  - rewrite chat_clear_confirmed by exact Hd. reflexivity.
  - rewrite chat_clear_confirmed by exact Hd. apply stored_history_deleted.
Qed.

Lemma chat_without_a_list_is_stuck_until_reset_witness :
  chat_messages (fst (ChatInterface.loadHistory chat_object_typed)) = JObj [] /\
  ChatInterface.sendMessage_start later_time
      (fst (ChatInterface.loadHistory chat_object_typed))
    = (fst (ChatInterface.loadHistory chat_object_typed), Throw TypeError) /\
  ChatInterface.loadHistory (fst (ChatInterface.loadHistory chat_object_typed))
    = (fst (ChatInterface.loadHistory chat_object_typed), Return tt) /\
  chat_messages
    (fst (ChatInterface.clearChat true
            (fst (ChatInterface.loadHistory chat_object_typed))))
    = JArr (ChatInterface.initialMessages (component chat_object_typed)) /\
  stored_history
    (fst (ChatInterface.clearChat true
            (fst (ChatInterface.loadHistory chat_object_typed))))
    = None.
Proof.
  apply (chat_without_a_list_is_stuck_until_reset later_time empty_object_text
           (JObj []) chat_object_typed).
  - reflexivity.
  - reflexivity.
  - vm_compute. reflexivity.
  - reflexivity.
  - reflexivity.
  - vm_compute. discriminate.
Defined.

(** X6: a reset made while a request is in flight. Neither [clearChat]
    looks at loading. The question asked before the reset is gone with
    the old conversation, but when the reply settles its assistant
    message is appended to the new conversation and the history, just
    removed, is written again. *)
Theorem reset_in_flight_keeps_the_answer (now mid later text : list N)
    (l : list JsValue) (reply : FetchOutcome)
    (c : World ChatInterface.State) (a : World App.State) :
  text <> [] ->
  (usable (localStorage c) -> chat_messages c = JArr l ->
   chat_loading c = false ->
   trim (ChatInterface.inputText (component c)) = text ->
   let sent := fst (ChatInterface.sendMessage_start now c) in
   let cleared := fst (ChatInterface.clearChat true sent) in
   let settled := fst (ChatInterface.sendMessage_resume reply later cleared) in
   chat_loading sent = true /\
   chat_messages cleared = JArr (ChatInterface.initialMessages (component c)) /\
   stored_history cleared = None /\
   chat_messages settled
     = JArr (ChatInterface.initialMessages (component c)
               ++ [chat_reply reply later]) /\
   chat_loading settled = false /\
   stored_history settled = Some (history_text (chat_messages settled))) /\
  (usable (localStorage a) -> app_messages a = JArr l ->
   app_loading a = false ->
   trim (App.inputText (component a)) = text ->
   let sent := fst (App.sendMessage_start now a) in
   let cleared := fst (App.clearChat true mid sent) in
   let settled := fst (App.sendMessage_resume text reply later cleared) in
   app_loading sent = true /\
   app_messages cleared = JArr [App.greeting mid] /\
   stored_history cleared = None /\
   app_messages settled
     = JArr [App.greeting mid; app_reply text reply later] /\
   app_loading settled = false /\
   stored_history settled = Some (history_text (app_messages settled))).
Proof.
  intros Hne. split.
  - intros Hu Hm Hl Ht. cbv zeta.
    rewrite (chat_start_request now text l c Hu Hm Hl Ht Hne). cbn [fst].
    rewrite chat_clear_confirmed by (destruct Hu as [Hd _]; exact Hd). cbn [fst].
    erewrite chat_resume_appends; [| exact Hu | reflexivity].
    cbn [fst]. split_and!; try reflexivity.
    + unfold stored_history. cbn. apply lookup_delete_eq.
    + unfold stored_history. cbn. apply lookup_insert_eq.
  - intros Hu Hm Hl Ht. cbv zeta.
    rewrite (app_start_request now text l a Hm Hl Ht Hne). cbn [fst].
    rewrite app_clear_confirmed by (destruct Hu as [Hd _]; exact Hd). cbn [fst].
    erewrite app_resume_appends; [| exact Hu | reflexivity].
    cbn [fst]. split_and!; try reflexivity.
    + unfold stored_history. cbn. apply lookup_delete_eq.
    + unfold stored_history. cbn. apply lookup_insert_eq.
Qed.

Lemma reset_in_flight_keeps_the_answer_witness :
  (chat_messages
     (fst (ChatInterface.sendMessage_resume answer_ok later_time
             (fst (ChatInterface.clearChat true
                     (fst (ChatInterface.sendMessage_start sample_time chat_asking))))))
   = JArr (ChatInterface.initialMessages (component chat_asking)
             ++ [chat_reply answer_ok later_time])) /\
  (app_messages
     (fst (App.sendMessage_resume text_x answer_ok later_time
             (fst (App.clearChat true later_time
                     (fst (App.sendMessage_start sample_time app_asking))))))
   = JArr [App.greeting later_time; app_reply text_x answer_ok later_time]).
Proof.
  assert (Hne : text_x <> []) by discriminate.
  split.
  - destruct (proj1 (reset_in_flight_keeps_the_answer sample_time later_time
                       later_time text_x [ChatInterface.greeting sample_time]
                       answer_ok chat_asking app_asking Hne))
      as (_ & _ & _ & H & _).
    + split; reflexivity.
    + reflexivity.
    + reflexivity.
    + reflexivity.
    + exact H.
  - destruct (proj2 (reset_in_flight_keeps_the_answer sample_time later_time
                       later_time text_x [App.greeting sample_time]
                       answer_ok chat_asking app_asking Hne))
      as (_ & _ & _ & H & _).
    + split; reflexivity.
    + reflexivity.
    + reflexivity.
    + reflexivity.
    + exact H.
Defined.

(** X7: HomeView.vue reads the stored history when it is mounted, and
    nothing catches what that throws. With a stored text that is not
    JSON [onMounted] ends in a SyntaxError, with one that is JSON but
    not a list in a TypeError; either way it stops after setting the
    status to checking: the message count is not updated, no user id is
    generated and nothing is written to the store. *)
Theorem home_mount_stops_at_unreadable_history (rnd text : list N)
    (w : World HomeView.State) :
  denied (localStorage w) = false ->
  stored_history w = Some text ->
  text <> [] ->
  (JSON.parse text = None ->
   HomeView.onMounted rnd w =
     (with_component (HomeView.set_status HomeView.checking HomeView.text_checking) w,
      Throw SyntaxError)) /\
  (forall v, JSON.parse text = Some v -> is_array v = false ->
   HomeView.onMounted rnd w =
     (with_component (HomeView.set_status HomeView.checking HomeView.text_checking) w,
      Throw TypeError)).
Proof.
  intros Hd Hs Hne.
  destruct text as [|ch r]; [congruence|].
  destruct w as [[d f it] s]. unfold stored_history in Hs. simpl in Hd, Hs.
  subst d.
  unfold HomeView.onMounted, HomeView.refreshStatus_start,
    HomeView.updateMessageCount.
  unfold_m. simpl. rewrite Hs. simpl. unfold JSON_parse.
  split.
  - intros Hp. rewrite Hp. reflexivity.
  - intros v Hp Ha. rewrite Hp.
    destruct v; try discriminate; reflexivity.
Qed.

Lemma home_mount_stops_at_unreadable_history_witness :
  HomeView.onMounted random_text home_garbled =
    (with_component (HomeView.set_status HomeView.checking HomeView.text_checking)
       home_garbled,
     Throw SyntaxError).
Proof.
  apply (proj1 (home_mount_stops_at_unreadable_history random_text garbled_text
                  home_garbled eq_refl eq_refl ltac:(discriminate))).
  vm_compute. reflexivity.
Defined.

Lemma app_load_returns (w : World App.State) :
  denied (localStorage w) = false ->
  snd (App.loadHistory w) = Return tt /\
  localStorage (fst (App.loadHistory w)) = localStorage w /\
  App.userId (component (fst (App.loadHistory w))) = App.userId (component w).
Proof.
  intros Hd. destruct w as [[d f it] [msgs inp ld cs uid]]. simpl in Hd. subst d.
  unfold App.loadHistory. unfold_m. simpl.
  destruct (present (it !! k_chat_history)) as [text|]; [|by split_and!].
  unfold JSON_parse. destruct (JSON.parse text) as [v|]; simpl; [|by split_and!].
  destruct (is_array v && App.nonempty_array v); by split_and!.
Qed.

Lemma chat_load_returns (w : World ChatInterface.State) :
  denied (localStorage w) = false ->
  snd (ChatInterface.loadHistory w) = Return tt /\
  localStorage (fst (ChatInterface.loadHistory w)) = localStorage w.
Proof.
  intros Hd. destruct w as [[d f it] [init msgs inp ld uid]]. simpl in Hd. subst d.
  unfold ChatInterface.loadHistory, ChatInterface.reset_messages. unfold_m. simpl.
  destruct (present (it !! k_chat_history)) as [text|]; [|by split].
  unfold JSON_parse. destruct (JSON.parse text) as [v|]; by split.
Qed.

Arguments random_user_id : simpl never.

Lemma random_user_id_nonempty (rnd : list N) : random_user_id rnd <> [].
Proof.
  unfold random_user_id.
  change (js "user_") with [117; 115; 101; 114; 95]%N. discriminate.
Qed.

(** [onMounted] of App.vue on a usable store. *)
Lemma app_onMounted_usable (rnd : list N) (w : World App.State) :
  usable (localStorage w) ->
  App.onMounted rnd w =
    (if bool_decide (App.userId (component w) = [])
     then with_items (fun m => <[k_user_id := random_user_id rnd]> m)
            (with_component (App.set_userId (random_user_id rnd))
               (fst (App.loadHistory w)))
     else fst (App.loadHistory w),
     Return tt).
Proof.
  intros [Hd Hf].
  destruct (app_load_returns w Hd) as (Ho & Hs & Hu).
  unfold App.onMounted, App.generateUserId, App.saveUserId, App.scrollToBottom.
  change (js "user_" ++ substr rnd 2 9) with (random_user_id rnd).
  unfold bind at 1.
  destruct (App.loadHistory w) as [w1 o1]. simpl in Ho, Hs, Hu. subst o1.
  rewrite <- Hu. rewrite <- Hs in Hd, Hf.
  destruct w1 as [[d1 f1 it1] [msgs1 inp1 ld1 cs1 uid1]].
  simpl in Hd, Hf. subst d1 f1.
  unfold_m. simpl.
  destruct (bool_decide (uid1 = [])); reflexivity.
Qed.

(** X8: the user id of App.vue. On a usable store [onMounted] returns
    normally and leaves the page with a user id that is not empty: an
    id the page already has is kept and the store's entry is not
    touched; a page without one gets 'user_' followed by up to nine
    characters of the random text, saved under [user_id], and that is
    the id a page opened later on this store starts with. *)
Theorem app_mount_settles_the_user_id (rnd t : list N) (w : World App.State) :
  usable (localStorage w) ->
  snd (App.onMounted rnd w) = Return tt /\
  App.userId (component (fst (App.onMounted rnd w))) <> [] /\
  (App.userId (component w) <> [] ->
   App.userId (component (fst (App.onMounted rnd w))) = App.userId (component w) /\
   stored_user_id (fst (App.onMounted rnd w)) = stored_user_id w) /\
  (App.userId (component w) = [] ->
   App.userId (component (fst (App.onMounted rnd w))) = random_user_id rnd /\
   stored_user_id (fst (App.onMounted rnd w)) = Some (random_user_id rnd) /\
   exists s,
     snd (App.setup t (reopened (localStorage (fst (App.onMounted rnd w))) tt))
       = Return s /\
     App.userId s = random_user_id rnd).
Proof.
  intros Hu. rewrite (app_onMounted_usable rnd w Hu).
  destruct Hu as [Hd Hf].
  destruct (app_load_returns w Hd) as (_ & Hs & Hid).
  pose proof (random_user_id_nonempty rnd) as Hnonempty.
  cbn [fst snd]. unfold stored_user_id.
  destruct (bool_decide_reflect (App.userId (component w) = [])) as [He|Hne].
  - cbn [with_items with_component localStorage component items App.userId
         App.set_userId].
    split_and!.
    + reflexivity.
    + exact Hnonempty.
    + intros H. congruence.
    + intros _. split_and!.
      * reflexivity.
      * apply lookup_insert_eq.
      * unfold App.setup. unfold_m.
        cbn [reopened localStorage denied items]. rewrite Hs, Hd.
        rewrite lookup_insert_eq.
        destruct (random_user_id rnd) as [|c r] eqn:E; [congruence|].
        eexists. split; reflexivity.
  - split_and!.
    + reflexivity.
    + rewrite Hid. exact Hne.
    + intros _. rewrite Hid, Hs. split; reflexivity.
    + intros H. congruence.
Qed.

Lemma app_mount_settles_the_user_id_witness :
  snd (App.onMounted random_text app_asking) = Return tt /\
  App.userId (component (fst (App.onMounted random_text app_asking))) <> [].
Proof.
  destruct (app_mount_settles_the_user_id random_text sample_time app_asking)
    as (H1 & H2 & _).
  - split; reflexivity.
  - split; [exact H1 | exact H2].
Defined.

(** [onMounted] of ChatInterface.vue on a usable store. *)
Lemma chat_onMounted_usable (stamp : list N) (w : World ChatInterface.State) :
  usable (localStorage w) ->
  ChatInterface.onMounted stamp w =
    (match stored_session w with
     | Some _ => fst (ChatInterface.loadHistory w)
     | None => with_items (fun m => <[k_session_id := stamp]> m)
                 (fst (ChatInterface.loadHistory w))
     end,
     Return tt).
Proof.
  intros [Hd Hf].
  destruct (chat_load_returns w Hd) as (Ho & Hs).
  unfold ChatInterface.onMounted, ChatInterface.scrollToBottom, stored_session.
  unfold bind at 1.
  destruct (ChatInterface.loadHistory w) as [w1 o1]. simpl in Ho, Hs. subst o1.
  rewrite <- Hs. rewrite <- Hs in Hd, Hf.
  destruct w1 as [[d1 f1 it1] c1]. simpl in Hd, Hf. subst d1 f1.
  unfold_m. simpl.
  destruct (present (it1 !! k_session_id)); reflexivity.
Qed.

Lemma chat_onMounted_session (stamp : list N) (w : World ChatInterface.State) :
  usable (localStorage w) ->
  stamp <> [] ->
  usable (localStorage (fst (ChatInterface.onMounted stamp w))) /\
  stored_session (fst (ChatInterface.onMounted stamp w))
    = Some (default stamp (stored_session w)).
Proof.
  intros Hu Hne. rewrite (chat_onMounted_usable stamp w Hu). cbn [fst].
  destruct Hu as [Hd Hf].
  destruct (chat_load_returns w Hd) as (_ & Hs).
  unfold stored_session, usable.
  destruct (present (items (localStorage w) !! k_session_id)) as [s|] eqn:E.
  - rewrite Hs, E. by split_and!.
  - cbn [with_items localStorage denied full items]. rewrite Hs.
    rewrite lookup_insert_eq. destruct stamp as [|ch r]; [congruence|].
    by split_and!.
Qed.

(** X9: the session id of ChatInterface.vue is made once. On a usable
    store [onMounted] returns normally; a session id found in the store
    is kept, and otherwise the time stamp of this mount is stored. A
    later mount on the store this leaves, with another stamp and
    whatever refs, keeps that id. *)
Theorem chat_session_id_is_made_once (stamp stamp' : list N)
    (w : World ChatInterface.State) (fresh : ChatInterface.State) :
  usable (localStorage w) ->
  stamp <> [] ->
  stamp' <> [] ->
  snd (ChatInterface.onMounted stamp w) = Return tt /\
  stored_session (fst (ChatInterface.onMounted stamp w))
    = Some (default stamp (stored_session w)) /\
  snd (ChatInterface.onMounted stamp'
         (reopened (localStorage (fst (ChatInterface.onMounted stamp w))) fresh))
    = Return tt /\
  stored_session
    (fst (ChatInterface.onMounted stamp'
            (reopened (localStorage (fst (ChatInterface.onMounted stamp w))) fresh)))
    = Some (default stamp (stored_session w)).
Proof.
  intros Hu Hne Hne'.
  destruct (chat_onMounted_session stamp w Hu Hne) as [Hu1 H1].
  split_and!.
  - rewrite (chat_onMounted_usable stamp w Hu). reflexivity.
  - exact H1.
  - rewrite chat_onMounted_usable by exact Hu1. reflexivity.
  - destruct (chat_onMounted_session stamp'
                (reopened (localStorage (fst (ChatInterface.onMounted stamp w))) fresh)
                Hu1 Hne') as [_ H2].
    rewrite H2.
    change (stored_session
              (reopened (localStorage (fst (ChatInterface.onMounted stamp w))) fresh))
      with (stored_session (fst (ChatInterface.onMounted stamp w))).
    rewrite H1. reflexivity.
Qed.

Lemma chat_session_id_is_made_once_witness :
  stored_session (fst (ChatInterface.onMounted sample_stamp chat_asking))
    = Some sample_stamp /\
  stored_session
    (fst (ChatInterface.onMounted later_stamp
            (reopened
               (localStorage (fst (ChatInterface.onMounted sample_stamp chat_asking)))
               (ChatInterface.setup later_time JUndefined))))
    = Some sample_stamp.
Proof.
  destruct (chat_session_id_is_made_once sample_stamp later_stamp chat_asking
              (ChatInterface.setup later_time JUndefined))
    as (_ & H2 & _ & H4).
  - split; reflexivity.
  - discriminate.
  - discriminate.
  - split; [exact H2 | exact H4].
Defined.

Lemma app_session_run env n l :
  app_session env l -> app_session env (AppLoop.run env n l).
Proof.
  revert l. induction n as [|n IH]; intros l Hl; simpl; [exact Hl|].
  destruct (step AppLoop.on_timer AppLoop.on_reply AppLoop.busy env l)
    as [l'|] eqn:E; [|exact Hl].
  apply IH. by apply (app_turn env l l').
Qed.

Lemma home_session_run env n l :
  home_session env l -> home_session env (HomeLoop.run env n l).
Proof.
  revert l. induction n as [|n IH]; intros l Hl; simpl; [exact Hl|].
  destruct (step HomeLoop.on_timer HomeLoop.on_reply HomeLoop.busy env l)
    as [l'|] eqn:E; [|exact Hl].
  apply IH. by apply (home_turn env l l').
Qed.





(** *** The example questions with a quick service *)

Lemma half_even (k : nat) : (2 * k / 2 = k)%nat.
Proof. symmetry. apply Nat.div_unique with 0%nat; lia. Qed.

Lemma half_odd (k : nat) : ((2 * k + 1) / 2 = k)%nat.
Proof. symmetry. apply Nat.div_unique with 1%nat; lia. Qed.

Lemma half_even_succ (k : nat) : ((2 * k + 2) / 2 = S k)%nat.
Proof. symmetry. apply Nat.div_unique with 0%nat; lia. Qed.

Lemma app_entry_even t0 k :
  app_entry t0 (2 * k) = ((t0 + 2100 * N.of_nat k)%N, AppLoop.SendNext).
Proof.
  unfold app_entry.
  destruct (parity_cases (2 * k))
    as [(j & Hj & Hev & Hdiv & _)|(j & Hj & _)]; [|lia].
  rewrite Hev, Hdiv. replace j with k by lia. reflexivity.
Qed.

Lemma fire_clock {W Task K : Type}
    (on_timer : Task -> list N -> W -> W * list (N * Task) * option K)
    (busy : W -> bool) (env : Env) due task ts (l : Loop W Task K) :
  clock (fire on_timer busy env due task ts l) = N.max (clock l) due /\
  log (fire on_timer busy env due task ts l)
    = log l ++ [(N.max (clock l) due, task, busy (world l))].
Proof.
  unfold fire. destruct (on_timer task _ (world l)) as [[w new] started].
  split; reflexivity.
Qed.

Lemma orderly_idle {W Task K : Type} (busy : W -> bool) (l : Loop W Task K) :
  one_at_a_time busy l -> inflight l = [] -> busy (world l) = false.
Proof. intros [[_ H]|(x & Hx & _)] Hi; [exact H | congruence]. Qed.

(** A turn of the loop keeps [app_answering] when replies come within
    two seconds. *)
Lemma app_step_answering env t0 before l l' :
  replies_within env 2000 ->
  app_staged t0 l ->
  app_answering env t0 before l ->
  AppLoop.step env l = Some l' ->
  app_answering env t0 before l'.
Proof.
  intros Hq Hst (Hiss & Hlogs & Hcases) Hs.
  pose proof Hst as (Hrun & Harr & Hin).
  destruct Hrun as [Ho (p & Hp & Hlog & Htm & Hidx & Hclk)].
  assert (Hlen : length (log l) = p).
  { eapply log_length; [exact Hlog|]. unfold app_schedule.
    rewrite length_map, length_seq. exact Hp. }
  destruct Hcases as [[Hnone Hmsgs]|(i & d & request & Hpi & Hlat & Hclock & Hfl & Hmsgs)].
  - (* nothing in flight: the next timer runs *)
    pose proof (orderly_idle _ _ Ho Hnone) as Hidle.
    destruct (step_cases _ _ _ _ _ _ Hs)
      as [(t & k & o & rest & Hpick & _)|(due & task & ts & Hpick & Hl')].
    { rewrite Hnone in Hpick. discriminate. }
    rewrite Htm in Hpick.
    destruct (p <? app_callbacks)%nat eqn:Hlt; [|discriminate].
    apply Nat.ltb_lt in Hlt. specialize (Hclk Hlt).
    destruct (Nat.Even_or_Odd p) as [[k Hk]|[k Hk]].
    + (* the staging of question k *)
      rewrite Hk, app_entry_even in Hpick, Hclk. cbn [pick_timer] in Hpick.
      cbn [fst] in Hclk.
      injection Hpick as <- <- <-. subst l'.
      unfold app_answering. unfold fire.
      unfold AppLoop.on_timer.
      destruct (AppLoop.index (world l) <? length App.exampleQuestions)%nat;
        cbn [issued log inflight world AppLoop.app];
        rewrite length_app, Hlen, Hk; cbn [length];
        rewrite app_nil_r, half_odd;
        rewrite Hlen, Hk, half_even in Hiss, Hmsgs;
        (split_and!;
         [ exact Hiss
         | apply Forall_app; split; [exact Hlogs|];
           apply List.Forall_cons; [exact Hidle | apply List.Forall_nil]
         | left; split; [exact Hnone | exact Hmsgs] ]).
    + (* the send of question k *)
      assert (Hk7 : (k < length App.exampleQuestions)%nat).
      { unfold app_callbacks in Hlt. lia. }
      destruct (fire_clock AppLoop.on_timer AppLoop.busy env due task ts l)
        as [Hc' Hlog'].
      rewrite <- Hl' in Hc', Hlog'.
      assert (Hlen' : length (log l') = (2 * k + 2)%nat).
      { rewrite Hlog', length_app, Hlen, Hk. cbn [length]. lia. }
      assert (Hlenk : length (log l) = (2 * k + 1)%nat) by lia.
      destruct (app_turn_is_call env t0 k l l' Hst Hk7 Hs Hlenk Hlen')
        as (Hl1 & _ & Hcall).
      rewrite Hidle in Hcall, Hl1.
      destruct Hcall as (msgs & Hm & Hw & Hfl & Hiss').
      rewrite Hk, app_entry_odd in Hpick, Hclk. cbn [pick_timer] in Hpick.
      cbn [fst] in Hclk. injection Hpick as Hdue _ _.
      destruct (Hq (issued l)) as (d & Hlat & Hd).
      assert (Hik : issued l = k).
      { rewrite Hiss, Hlen, Hk. apply half_odd. }
      unfold app_answering. rewrite Hlen', half_even_succ.
      split_and!.
      * lia.
      * rewrite Hl1. apply Forall_app. split; [exact Hlogs|].
        apply List.Forall_cons; [reflexivity | apply List.Forall_nil].
      * right. exists k, d. eexists.
        split_and!.
        -- reflexivity.
        -- rewrite <- Hik. exact Hlat.
        -- rewrite Hc', <- Hdue. unfold app_fire_time. lia.
        -- rewrite Hfl, Hlat, Hik. reflexivity.
        -- rewrite Hw. unfold app_messages. cbn [with_component component App.messages
             App.set_loading App.set_inputText App.set_messages].
           rewrite Hlen, Hk, half_odd in Hmsgs. rewrite Hmsgs in Hm.
           injection Hm as <-. rewrite <- app_assoc. reflexivity.
  - (* request i is in flight: its reply comes before the next timer *)
    destruct (Hq i) as (d' & Hlat' & Hd). rewrite Hlat in Hlat'.
    injection Hlat' as <-.
    assert (Hi : (2 * i + 2 < app_callbacks)%nat).
    { unfold app_callbacks.
      change (length App.exampleQuestions) with 7%nat.
      unfold app_callbacks in Hp.
      change (length App.exampleQuestions) with 7%nat in Hp. lia. }
    assert (Hp2 : p = (2 * (S i))%nat) by lia.
    unfold AppLoop.step, step in Hs. rewrite Hfl, Htm in Hs.
    pose proof Hi as Hltb. rewrite <- Hpi, Hlen in Hltb.
    apply Nat.ltb_lt in Hltb. rewrite Hltb in Hs.
    rewrite Hp2, app_entry_even in Hs. cbn [pick_reply pick_timer] in Hs.
    assert (Hle : (app_fire_time t0 i + d <=? t0 + 2100 * N.of_nat (S i))%N = true).
    { apply N.leb_le. unfold app_fire_time. lia. }
    rewrite Hle in Hs. injection Hs as <-.
    unfold app_answering, deliver.
    cbn [issued log inflight world clock AppLoop.on_reply AppLoop.app App.sent_text].
    rewrite Hpi, half_even_succ. rewrite Hpi, half_even_succ in Hiss.
    split_and!.
    + exact Hiss.
    + exact Hlogs.
    + left. split; [reflexivity|].
      unfold AppLoop.on_reply. cbn [AppLoop.app App.sent_text].
      unfold app_messages.
      rewrite (app_resume_refs _ _ _ _ _ Hmsgs).
      cbn [App.messages App.set_loading App.set_connectionStatus App.set_messages].
      rewrite Hclock.
      replace (N.max (app_fire_time t0 i) (app_fire_time t0 i + d))
        with (app_fire_time t0 i + d)%N by lia.
      cbn [app_dialogue]. unfold settle_time. rewrite Hlat. cbn [default].
      rewrite <- !app_assoc. reflexivity.
Qed.

Lemma app_loadExamples_answering env t0 before (a : World App.State) :
  app_loading a = false ->
  app_messages a = JArr before ->
  app_answering env t0 before (AppLoop.loadExamples env (AppLoop.idle_at t0 a)).
Proof.
  intros Hl Hm.
  unfold app_answering, AppLoop.loadExamples, AppLoop.fire, fire, AppLoop.idle_at.
  cbn [clock timers inflight issued world log AppLoop.on_timer AppLoop.index
       AppLoop.app].
  change (0 <? length App.exampleQuestions)%nat with true. cbv iota.
  cbn [inflight issued world log AppLoop.app app length Nat.div].
  change (1 / 2)%nat with 0%nat. cbn [app_dialogue].
  split_and!.
  - reflexivity.
  - apply List.Forall_cons; [exact Hl | apply List.Forall_nil].
  - left. split; [reflexivity|]. rewrite app_nil_r. exact Hm.
Qed.

(** [loadExamples] against a service that answers within two seconds:
    no callback finds the page busy, all seven questions are sent, and
    the run ends at rest with every question and its answer, in order,
    after what the conversation held. *)
Lemma app_quick_run env t0 n before (a : World App.State) :
  replies_within env 2000 ->
  app_loading a = false ->
  app_messages a = JArr before ->
  (28 <= n)%nat ->
  app_all_answered env t0 n before a.
Proof.
  intros Hq Hl Hm Hn. unfold app_all_answered. cbv zeta.
  set (start := AppLoop.loadExamples env (AppLoop.idle_at t0 a)).
  assert (Harr : is_array (app_messages a) = true) by (rewrite Hm; reflexivity).
  destruct (run_comes_to_rest AppLoop.on_timer AppLoop.on_reply AppLoop.busy env
              (fun l => app_staged t0 l /\ app_answering env t0 before l)
              (loop_potential app_callbacks)) with (n := n) (l := start)
    as [[Hst (Hiss & Hlogs & Hcases)] Hrest].
  - intros l l' [H1 H2] Hs.
    destruct (app_step_staged env t0 l l' H1 Hs) as [H1' Hpot].
    split; [split; [exact H1'|]|exact Hpot].
    by apply (app_step_answering env t0 before l l').
  - split; [by apply app_loadExamples_staged | by apply app_loadExamples_answering].
  - unfold start. rewrite app_loadExamples_potential. exact Hn.
  - fold (AppLoop.run env n start) in *.
    destruct (app_batch_run env t0 n a Hl Hn) as (_ & _ & Hlog & _ & _).
    fold start in Hlog.
    apply (f_equal (@length _)) in Hlog.
    rewrite length_map in Hlog. unfold app_schedule in Hlog.
    rewrite length_map, length_seq in Hlog.
    unfold app_callbacks in Hlog.
    change (length App.exampleQuestions) with 7%nat in *.
    rewrite Hlog in Hiss, Hcases.
    rewrite (half_odd 7) in Hiss, Hcases.
    destruct Hst as ([Ho _] & _ & _).
    destruct Hcases as [[Hnone Hmsgs]|(i & d & request & Hpi & _)]; [|lia].
    split_and!.
    + exact Hrest.
    + exact Hiss.
    + exact Hnone.
    + by apply (orderly_idle AppLoop.busy).
    + exact Hlogs.
    + exact Hmsgs.
Qed.

(** *** The same for HomeView.vue *)

Lemma home_step_answering env t0 before l l' :
  replies_within env 2000 ->
  home_sound t0 l ->
  home_answering env t0 before l ->
  HomeLoop.step env l = Some l' ->
  home_answering env t0 before l'.
Proof.
  intros Hq Hst (Hiss & Hlogs & Hcases) Hs.
  pose proof Hst as (Hrun & Hu & Harr).
  destruct Hrun as [Ho (p & Hp & Hlog & Htm & Hclk)].
  assert (Hlen : length (log l) = p).
  { eapply log_length; [exact Hlog|]. rewrite home_schedule_length. exact Hp. }
  destruct Hcases as [[Hnone Hmsgs]|(i & d & request & Hpi & Hlat & Hclock & Hfl & Hmsgs)].
  - (* nothing in flight: the next timer runs *)
    pose proof (orderly_idle _ _ Ho Hnone) as Hidle.
    destruct (step_cases _ _ _ _ _ _ Hs)
      as [(t & k & o & rest & Hpick & _)|(due & task & ts & Hpick & Hl')].
    { rewrite Hnone in Hpick. discriminate. }
    rewrite Htm in Hpick.
    assert (Hlt : (p < length HomeView.exampleQuestions)%nat).
    { rewrite <- (home_schedule_length t0).
      destruct (Nat.lt_ge_cases p (length (home_schedule t0))) as [H|H]; [exact H|].
      rewrite drop_ge in Hpick by exact H. discriminate. }
    pose proof (home_schedule_lookup t0 p Hlt) as He.
    specialize (Hclk _ He). cbn [fst] in Hclk.
    rewrite (home_pick t0 _ _ He) in Hpick. injection Hpick as Hdue _ _.
    destruct (fire_clock HomeLoop.on_timer HomeLoop.busy env due task ts l)
      as [Hc' Hlog'].
    rewrite <- Hl' in Hc', Hlog'.
    assert (Hlen' : length (log l') = S p).
    { rewrite Hlog', length_app, Hlen. cbn [length]. lia. }
    destruct (home_turn_is_call env t0 p l l' Hst Hlt Hs Hlen Hlen')
      as (Hl1 & Hcall).
    rewrite Hidle in Hcall, Hl1.
    destruct Hcall as (msgs & Hm & Hm' & _ & _ & Hfl & Hiss').
    destruct (Hq (issued l)) as (d & Hlat & Hd).
    assert (Hik : issued l = p) by lia.
    unfold home_answering. rewrite Hlen'.
    split_and!.
    + lia.
    + rewrite Hl1. apply Forall_app. split; [exact Hlogs|].
      apply List.Forall_cons; [reflexivity | apply List.Forall_nil].
    + right. exists p, d. eexists.
      split_and!.
      * reflexivity.
      * rewrite <- Hik. exact Hlat.
      * rewrite Hc', <- Hdue. unfold home_fire_time. lia.
      * rewrite Hfl, Hlat, Hik. reflexivity.
      * rewrite Hm'. rewrite Hlen in Hmsgs. rewrite Hmsgs in Hm.
        injection Hm as <-. rewrite <- app_assoc. reflexivity.
  - (* request i is in flight: its reply comes before the next timer *)
    destruct (Hq i) as (d' & Hlat' & Hd). rewrite Hlat in Hlat'.
    injection Hlat' as <-.
    assert (Hp1 : p = S i) by lia.
    assert (Hdeliver : l' = deliver (Task := HomeLoop.Task) HomeLoop.on_reply env
                              (home_fire_time t0 i + d) request
                              (result (reply_of env i)) [] l).
    { unfold HomeLoop.step, step in Hs. rewrite Hfl, Htm in Hs.
      cbn [pick_reply] in Hs.
      destruct (pick_timer (drop p (home_schedule t0)))
        as [[[due task] ts]|] eqn:Hpick; [|congruence].
      assert (Hlt : (p < length HomeView.exampleQuestions)%nat).
      { rewrite <- (home_schedule_length t0).
        destruct (Nat.lt_ge_cases p (length (home_schedule t0))) as [H|H]; [exact H|].
        rewrite drop_ge in Hpick by exact H. discriminate. }
      pose proof (home_schedule_lookup t0 p Hlt) as He.
      rewrite (home_pick t0 _ _ He) in Hpick. injection Hpick as Hdue _ _.
      assert (Hle : (home_fire_time t0 i + d <=? due)%N = true).
      { apply N.leb_le. rewrite <- Hdue, Hp1. unfold home_fire_time. lia. }
      rewrite Hle in Hs. congruence. }
    subst l'.
    unfold home_answering, deliver.
    cbn [issued log inflight world clock].
    split_and!.
    + exact Hiss.
    + exact Hlogs.
    + left. split; [reflexivity|].
      unfold HomeLoop.on_reply, HomeView.in_chat, zoom.
      rewrite (chat_resume_appends _ _ _
                 {| localStorage := localStorage (world l);
                    component := HomeView.chat_of (component (world l)) |} Hu Hmsgs).
      unfold home_messages.
      cbn [fst with_items with_component localStorage component HomeView.chat
           HomeView.set_chat ChatInterface.messages ChatInterface.set_loading
           ChatInterface.set_messages].
      rewrite Hclock.
      replace (N.max (home_fire_time t0 i) (home_fire_time t0 i + d))
        with (home_fire_time t0 i + d)%N by lia.
      rewrite Hpi. cbn [home_dialogue]. unfold settle_time. rewrite Hlat.
      cbn [default]. rewrite <- !app_assoc. reflexivity.
Qed.

Lemma home_quick_run env t0 n before (h : World HomeView.State) :
  replies_within env 2000 ->
  HomeLoop.busy h = false ->
  usable (localStorage h) ->
  home_messages h = JArr before ->
  (10 <= n)%nat ->
  home_all_answered env t0 n before h.
Proof.
  intros Hq Hl Hu Hm Hn. unfold home_all_answered. cbv zeta.
  set (start := HomeLoop.loadExampleQuestions (HomeLoop.idle_at t0 h)).
  assert (Harr : is_array (home_messages h) = true) by (rewrite Hm; reflexivity).
  destruct (run_comes_to_rest HomeLoop.on_timer HomeLoop.on_reply HomeLoop.busy env
              (fun l => home_sound t0 l /\ home_answering env t0 before l)
              (loop_potential (length HomeView.exampleQuestions)))
    with (n := n) (l := start)
    as [[Hst (Hiss & Hlogs & Hcases)] Hrest].
  - intros l l' [H1 H2] Hs.
    destruct (home_step_sound env t0 l l' H1 Hs) as [H1' Hpot].
    split; [split; [exact H1'|]|exact Hpot].
    by apply (home_step_answering env t0 before l l').
  - split; [by apply home_loadExampleQuestions_sound|].
    unfold home_answering, start.
    cbn [HomeLoop.loadExampleQuestions HomeLoop.idle_at issued log inflight world
         length home_dialogue].
    split_and!; [reflexivity | apply List.Forall_nil |].
    left. split; [reflexivity|]. rewrite app_nil_r. exact Hm.
  - unfold start. cbn. lia.
  - fold (HomeLoop.run env n start) in *.
    destruct (home_batch_run env t0 n h Hl Hn) as (_ & _ & Hlog & _).
    fold start in Hlog.
    apply (f_equal (@length _)) in Hlog.
    rewrite length_map, home_schedule_length in Hlog.
    rewrite Hlog in Hiss, Hcases.
    destruct Hst as ([Ho _] & _ & _).
    destruct Hcases as [[Hnone Hmsgs]|(i & d & request & _ & _ & _ & Hfl & _)].
    + split_and!.
      * exact Hrest.
      * exact Hiss.
      * exact Hnone.
      * by apply (orderly_idle HomeLoop.busy).
      * exact Hlogs.
      * exact Hmsgs.
    + exfalso. unfold HomeLoop.step, step in Hrest. rewrite Hfl in Hrest.
      cbn [pick_reply] in Hrest.
      destruct (pick_timer (timers (HomeLoop.run env n start)))
        as [[[due task] ts]|]; [destruct (_ <=? _)%N|]; discriminate.
Qed.


Lemma env_quick_within : replies_within env_quick 2000.
Proof. intros n. exists 300%N. split; [reflexivity | lia]. Qed.


(** *** The message count of HomeView.vue *)

Lemma home_in_chat_count {A : Type} (c : M (World ChatInterface.State) A)
    (w : World HomeView.State) :
  home_count (fst (HomeView.in_chat c w)) = home_count w.
Proof.
  unfold HomeView.in_chat, zoom, home_count.
  destruct (c _) as [w' o]. reflexivity.
Qed.

Lemma home_on_timer_count task now (w : World HomeView.State) :
  home_count (fst (fst (HomeLoop.on_timer task now w))) = home_count w.
Proof.
  assert (H : forall q,
    home_count (fst (fst (HomeLoop.on_timer (HomeLoop.Example q) now w)))
      = home_count w).
  { intros q. rewrite home_on_timer_example. reflexivity. }
  destruct task as [q|q]; apply (H q).
Qed.

Lemma home_fire_count env due task ts
    (l : Loop (World HomeView.State) HomeLoop.Task Request) :
  home_count (world (HomeLoop.fire env due task ts l)) = home_count (world l).
Proof.
  unfold HomeLoop.fire, fire.
  pose proof (home_on_timer_count task (iso env (N.max (clock l) due)) (world l))
    as H.
  destruct (HomeLoop.on_timer task _ (world l)) as [[w new] started]. exact H.
Qed.

Lemma home_step_count env l l' :
  HomeLoop.step env l = Some l' -> home_count (world l') = home_count (world l).
Proof.
  intros Hs. destruct (step_cases _ _ _ _ _ _ Hs)
    as [(t & k & o & rest & _ & -> & _)|(due & task & ts & _ & ->)].
  - cbn [deliver world]. unfold HomeLoop.on_reply. apply home_in_chat_count.
  - apply home_fire_count.
Qed.

